(** * Signaling relay: rooms, join handshake, broadcast and targeted forward

    A shallow embedding of the Go signaling server of this repository.
    The embedded program is the server of [src/unnamed/part_000], lines
    1-272 (buffered outbound queues, lenient join loop, eviction of a
    member with the same name, [leave] handling).  The older server of
    [src/main.go] (unbuffered queues, strict join) is embedded next to it
    in [Module Unbuffered], for the places where the two differ.

    Go objects reached through pointers ([*Room], [*Client],
    [*websocket.Conn]) live in stores indexed by locations, so that two
    references to one object are two copies of one location. *)

From stdpp Require Import base option list gmap strings fin_maps.

(** ** Data *)

(** A pointer: an index into the store of its type. *)
Abbreviation loc := nat.

(** A Go [[]byte]: a sequence of 8-bit characters. *)
Abbreviation bytes := string.

(** What [json.Unmarshal] puts into an [interface{}]. *)
#[local] Unset Elimination Schemes.
Inductive JSON : Type :=
| JNull
| JBool (b : bool)
| JNumber (lit : string)
| JString (s : string)
| JArray (xs : list JSON)
| JObject (kvs : list (string * JSON)).
#[local] Set Elimination Schemes.

(** [v, _ := data[k].(string)]: the string under [k], or the zero value. *)
Definition as_string (v : option JSON) : string :=
  match v with
  | Some (JString s) => s
  | _ => ""
  end.

(** [chan []byte] with a buffer: the queued messages, the capacity given
    to [make], and whether [close] was called. *)
Module Chan.
Record t := mk { buf : list bytes; cap : nat; closed : bool }.
Definition make (n : nat) : t := mk [] n false.
Definition full (c : t) : bool := bool_decide (cap c ≤ length (buf c)).
Definition push (message : bytes) (c : t) : t :=
  mk (buf c ++ [message]) (cap c) (closed c).
Definition close (c : t) : t := mk (buf c) (cap c) true.
Definition pop (c : t) : t := mk (tail (buf c)) (cap c) (closed c).
End Chan.

(** [*websocket.Conn]: whether [Close] was called on it, and the messages
    written to the peer so far. *)
Module Conn.
Record t := mk { closed : bool; written : list bytes }.
Definition close (c : t) : t := mk true (written c).
Definition write (message : bytes) (c : t) : t :=
  mk (closed c) (written c ++ [message]).
End Conn.

(** [type Client struct { Name; Socket; Send; Room }]; [Room] is [nil]
    until the join. *)
Module Client.
Record t := mk { Name : string; Socket : loc; Send : Chan.t; Room : option loc }.
Definition with_Name (n : string) (c : t) : t := mk n (Socket c) (Send c) (Room c).
Definition with_Room (r : loc) (c : t) : t := mk (Name c) (Socket c) (Send c) (Some r).
Definition with_Send (f : Chan.t → Chan.t) (c : t) : t :=
  mk (Name c) (Socket c) (f (Send c)) (Room c).
End Client.

(** [type Room struct { Name; Clients; Mutex }]; the mutex is [true] while
    locked. *)
Module Room.
Record t := mk { Name : string; Clients : gmap string loc; Mutex : bool }.
Definition with_Clients (f : gmap string loc → gmap string loc) (r : t) : t :=
  mk (Name r) (f (Clients r)) (Mutex r).
Definition with_Mutex (b : bool) (r : t) : t := mk (Name r) (Clients r) b.
End Room.

(** [type Server struct { Rooms; Mutex }]. *)
Module Server.
Record t := mk { Rooms : gmap string loc; Mutex : bool }.
Definition with_Rooms (f : gmap string loc → gmap string loc) (s : t) : t :=
  mk (f (Rooms s)) (Mutex s).
Definition with_Mutex (b : bool) (s : t) : t := mk (Rooms s) b.
End Server.

(** The process state: the global [server] and the three stores. *)
Record World := mkWorld {
  server : Server.t;
  rooms : list Room.t;
  clients : list Client.t;
  conns : list Conn.t
}.

Definition set_server (f : Server.t → Server.t) (w : World) : World :=
  mkWorld (f (server w)) (rooms w) (clients w) (conns w).
Definition set_rooms (f : list Room.t → list Room.t) (w : World) : World :=
  mkWorld (server w) (f (rooms w)) (clients w) (conns w).
Definition set_clients (f : list Client.t → list Client.t) (w : World) : World :=
  mkWorld (server w) (rooms w) (f (clients w)) (conns w).
Definition set_conns (f : list Conn.t → list Conn.t) (w : World) : World :=
  mkWorld (server w) (rooms w) (clients w) (f (conns w)).

(** [var server = Server{Rooms: make(map[string]*Room)}] *)
Definition initial : World := mkWorld (Server.mk ∅ false) [] [] [].

(** ** One goroutine's run

    A call either returns, or never returns because the goroutine waits
    for a mutex or a queue ([Blocked], with the state it waits in), or
    panics (a nil dereference, a send on a closed channel, an unlock of an
    unlocked mutex). *)
Inductive outcome (A : Type) : Type :=
| Done (a : A) (w : World)
| Blocked (w : World)
| Panic (w : World).
Arguments Done {A} a w.
Arguments Blocked {A} w.
Arguments Panic {A} w.

Definition M (A : Type) : Type := World → outcome A.

#[global] Instance M_ret : MRet M := λ A a w, Done a w.
#[global] Instance M_bind : MBind M := λ A B f m w,
  match m w with
  | Done a w' => f a w'
  | Blocked w' => Blocked w'
  | Panic w' => Panic w'
  end.

Definition block {A} : M A := λ w, Blocked w.
Definition panic {A} : M A := λ w, Panic w.
Definition modify (f : World → World) : M () := λ w, Done () (f w).

(** The state an outcome ends in. *)
Definition final {A} (o : outcome A) : World :=
  match o with Done _ w | Blocked w | Panic w => w end.

(** *** Stores *)

Definition get_room (r : loc) : M Room.t := λ w,
  match rooms w !! r with Some rm => Done rm w | None => Panic w end.
Definition put_room (r : loc) (rm : Room.t) : M () :=
  modify (set_rooms (<[r:=rm]>)).
Definition get_client (c : loc) : M Client.t := λ w,
  match clients w !! c with Some cl => Done cl w | None => Panic w end.
Definition put_client (c : loc) (cl : Client.t) : M () :=
  modify (set_clients (<[c:=cl]>)).
Definition get_conn (s : loc) : M Conn.t := λ w,
  match conns w !! s with Some cn => Done cn w | None => Panic w end.
Definition put_conn (s : loc) (cn : Conn.t) : M () :=
  modify (set_conns (<[s:=cn]>)).

(** [&Room{...}], [&Client{...}] and a new connection: the next free
    location of the store. *)
Definition new_room (rm : Room.t) : M loc := λ w,
  Done (length (rooms w)) (set_rooms (λ l, l ++ [rm]) w).
Definition new_client (cl : Client.t) : M loc := λ w,
  Done (length (clients w)) (set_clients (λ l, l ++ [cl]) w).
Definition new_conn (cn : Conn.t) : M loc := λ w,
  Done (length (conns w)) (set_conns (λ l, l ++ [cn]) w).

(** *** sync.Mutex

    [Lock] on a locked mutex waits until the mutex is unlocked; the mutex
    does not know its holder, so a goroutine that locks a mutex it holds
    itself waits like any other. *)
Definition Server_Lock : M () := λ w,
  if Server.Mutex (server w) then Blocked w
  else Done () (set_server (Server.with_Mutex true) w).
Definition Server_Unlock : M () := λ w,
  if Server.Mutex (server w) then Done () (set_server (Server.with_Mutex false) w)
  else Panic w.
Definition Room_Lock (r : loc) : M () :=
  rm ← get_room r;
  if Room.Mutex rm then block else put_room r (Room.with_Mutex true rm).
Definition Room_Unlock (r : loc) : M () :=
  rm ← get_room r;
  if Room.Mutex rm then put_room r (Room.with_Mutex false rm) else panic.

(** *** Channels and connections *)

(** [select { case client.Send <- message: ... default: ... }]: [true]
    when the message was queued, [false] when the default case ran. *)
Definition trySend (client : loc) (message : bytes) : M bool :=
  c ← get_client client;
  if Chan.closed (Client.Send c) then panic
  else if Chan.full (Client.Send c) then mret false
  else put_client client (Client.with_Send (Chan.push message) c);; mret true.

(** [client.Send <- message]: waits while the buffer is full. *)
Definition Send (client : loc) (message : bytes) : M () :=
  c ← get_client client;
  if Chan.closed (Client.Send c) then panic
  else if Chan.full (Client.Send c) then block
  else put_client client (Client.with_Send (Chan.push message) c).

(** [close(c.Send)] *)
Definition close_Send (client : loc) : M () :=
  c ← get_client client;
  if Chan.closed (Client.Send c) then panic
  else put_client client (Client.with_Send Chan.close c).

(** [socket.Close()] *)
Definition Socket_Close (socket : loc) : M () :=
  cn ← get_conn socket;
  put_conn socket (Conn.close cn).

(** [c.Socket.WriteMessage(websocket.TextMessage, message)]: [false] is
    an error, which a closed connection gives. *)
Definition WriteMessage (socket : loc) (message : bytes) : M bool :=
  cn ← get_conn socket;
  if Conn.closed cn then mret false
  else put_conn socket (Conn.write message cn);; mret true.

(** One receive of [for message := range c.Send]: the oldest queued
    message; [None] when the queue is empty and closed; with the queue
    empty and open the loop waits. *)
Definition receive (client : loc) : M (option bytes) :=
  c ← get_client client;
  match Chan.buf (Client.Send c) with
  | message :: _ =>
      put_client client (Client.with_Send Chan.pop c);; mret (Some message)
  | [] => if Chan.closed (Client.Send c) then mret None else block
  end.

(** ** Well-formed states

    What holds of the stores between two calls: the registry names rooms
    that exist under that name, every room is the one registered under
    its name, and a member of a room is a client with that name, which is
    not empty, and that room, an open queue and a connection. *)

Definition member_ok (w : World) (r : loc) (name : string) (l : loc) : bool :=
  match clients w !! l with
  | Some c =>
      bool_decide (name ≠ "")
      && bool_decide (Client.Name c = name)
      && bool_decide (Client.Room c = Some r)
      && negb (Chan.closed (Client.Send c))
      && bool_decide (Client.Socket c < length (conns w))
  | None => false
  end.

Definition room_ok (w : World) (r : loc) (rm : Room.t) : bool :=
  bool_decide (Server.Rooms (server w) !! Room.Name rm = Some r)
  && forallb (λ e, member_ok w r e.1 e.2) (map_to_list (Room.Clients rm)).

Definition registry_ok (w : World) (name : string) (r : loc) : bool :=
  match rooms w !! r with
  | Some rm => bool_decide (Room.Name rm = name)
  | None => false
  end.

Definition well_formed (w : World) : bool :=
  forallb (λ e, registry_ok w e.1 e.2) (map_to_list (Server.Rooms (server w)))
  && forallb (λ e, room_ok w e.1 e.2) (imap pair (rooms w)).

(** ** The server of [src/unnamed/part_000] *)

Section server.

(** [encoding/json] is not part of the repository: the decoder into a
    [map[string]interface{}] ([None] when it returns an error) and the
    encoder of such a map are parameters. *)
Variable json_Unmarshal : bytes → option (gmap string JSON).
Variable json_Marshal : gmap string JSON → bytes.

(** The order in which [for name, client := range m] visits a map is not
    specified: any enumeration of the entries. *)
Variable range : gmap string loc → list (string * loc).
Hypothesis range_perm : ∀ m, range m ≡ₚ map_to_list m.

(** [make(chan []byte, 256)] *)
Definition Send_capacity : nat := 256.

(** [GetOrCreateRoom] (lines 44-60). *)
Definition GetOrCreateRoom (roomName : string) : M loc :=
  Server_Lock;;
  s ← (λ w, Done (server w) w);
  match Server.Rooms s !! roomName with
  | Some room => Server_Unlock;; mret room
  | None =>
      room ← new_room (Room.mk roomName ∅ false);
      modify (set_server (Server.with_Rooms (<[roomName:=room]>)));;
      Server_Unlock;;
      mret room
  end.

(** The loop of [Broadcast] (lines 68-77) over the entries in the order
    [range] gives them. *)
Fixpoint Broadcast_loop (entries : list (string * loc))
    (message : bytes) (exclude : string) : M () :=
  match entries with
  | [] => mret ()
  | (name, client) :: rest =>
      (if decide (name ≠ exclude) then trySend client message;; mret ()
       else mret ());;
      Broadcast_loop rest message exclude
  end.

(** [Broadcast] (lines 62-78); the deferred [Unlock] runs at the return. *)
Definition Broadcast (r : loc) (message : bytes) (exclude : string) : M () :=
  Room_Lock r;;
  rm ← get_room r;
  Broadcast_loop (range (Room.Clients rm)) message exclude;;
  Room_Unlock r.

(** [map[string]interface{}{"type": "leave", "name": clientName}] *)
Definition leaveMessage (clientName : string) : gmap string JSON :=
  {[ "type" := JString "leave"; "name" := JString clientName ]}.

(** [RemoveClient] (lines 80-94); the deferred [Unlock] runs at the
    return, after the call of [Broadcast]. *)
Definition RemoveClient (r : loc) (clientName : string) : M () :=
  Room_Lock r;;
  rm ← get_room r;
  put_room r (Room.with_Clients (delete clientName) rm);;
  let leaveJSON := json_Marshal (leaveMessage clientName) in
  Broadcast r leaveJSON "";;
  Room_Unlock r.

(** *** The join handshake: [handleWebSocket] (lines 96-192) *)

Definition lookup_member (room : loc) (name : string) : M (option loc) :=
  rm ← get_room room; mret (Room.Clients rm !! name).
Definition delete_member (room : loc) (name : string) : M () :=
  rm ← get_room room; put_room room (Room.with_Clients (delete name) rm).
Definition insert_member (room : loc) (name : string) (client : loc) : M () :=
  rm ← get_room room; put_room room (Room.with_Clients (<[name:=client]>) rm).

(** Lines 146-150: a member with the new client's name is closed and
    deleted. *)
Definition handleWebSocket_evict (room client : loc) : M () :=
  c ← get_client client;
  existing ← lookup_member room (Client.Name c);
  match existing with
  | Some existingClient =>
      e ← get_client existingClient;
      Socket_Close (Client.Socket e);;
      delete_member room (Client.Name c)
  | None => mret ()
  end.

(** Lines 144-152: the new client enters the room's map. *)
Definition handleWebSocket_admit (room client : loc) : M () :=
  Room_Lock room;;
  handleWebSocket_evict room client;;
  c ← get_client client;
  insert_member room (Client.Name c) client;;
  Room_Unlock room.

(** Lines 160-164: [userList] grows by the names other than the new
    client's, in the order of the iteration. *)
Fixpoint userList_loop (names : list string) (self : string)
    (userList : list string) : list string :=
  match names with
  | [] => userList
  | name :: rest =>
      userList_loop rest self
        (if decide (name ≠ self) then userList ++ [name] else userList)
  end.

(** Lines 155-165. *)
Definition handleWebSocket_userList (room client : loc) : M (list string) :=
  let userList := [] in
  Room_Lock room;;
  c ← get_client client;
  rm ← get_room room;
  let userList := userList_loop (range (Room.Clients rm)).*1 (Client.Name c) userList in
  Room_Unlock room;;
  mret userList.

(** [map[string]interface{}{"type": "user-list", "users": userList}] *)
Definition userListMessage (userList : list string) : gmap string JSON :=
  {[ "type" := JString "user-list"; "users" := JArray (JString <$> userList) ]}.

(** [map[string]interface{}{"type": "new-user", "name": client.Name}] *)
Definition newUserMessage (name : string) : gmap string JSON :=
  {[ "type" := JString "new-user"; "name" := JString name ]}.

(** Lines 138-182: what a [join] with a name and a room does. *)
Definition handleWebSocket_join (client : loc) (name roomName : string) : M () :=
  c ← get_client client;
  put_client client (Client.with_Name name c);;
  room ← GetOrCreateRoom roomName;
  c ← get_client client;
  put_client client (Client.with_Room room c);;
  handleWebSocket_admit room client;;
  userList ← handleWebSocket_userList room client;
  let userListJSON := json_Marshal (userListMessage userList) in
  Send client userListJSON;;
  c ← get_client client;
  let newUserJSON := json_Marshal (newUserMessage (Client.Name c)) in
  Broadcast room newUserJSON (Client.Name c).

(** The same in two parts.  Lines 138-173: the join up to and including
    the send of the [user-list] to the new client; the result is the
    room. *)
Definition handleWebSocket_join_until_send (client : loc) (name roomName : string)
    : M loc :=
  c ← get_client client;
  put_client client (Client.with_Name name c);;
  room ← GetOrCreateRoom roomName;
  c ← get_client client;
  put_client client (Client.with_Room room c);;
  handleWebSocket_admit room client;;
  userList ← handleWebSocket_userList room client;
  let userListJSON := json_Marshal (userListMessage userList) in
  Send client userListJSON;;
  mret room.

(** Lines 175-181: the broadcast of [new-user] that follows it. *)
Definition handleWebSocket_join_broadcast (room client : loc) : M () :=
  c ← get_client client;
  let newUserJSON := json_Marshal (newUserMessage (Client.Name c)) in
  Broadcast room newUserJSON (Client.Name c).

(** [socket.ReadMessage()]: [next] is what the peer sends next, [None]
    once it has disconnected; a connection closed on this side reads an
    error too.  [None] is the error. *)
Definition ReadMessage (socket : loc) (next : option bytes) : M (option bytes) :=
  cn ← get_conn socket;
  mret (if Conn.closed cn then None else next).

(** The loop of lines 117-191 over the messages the peer sends before it
    disconnects.  The result is the admitted client with the messages
    left for its [readMessages], or [None] when the function returned
    without a join. *)
Fixpoint handleWebSocket_loop (client socket : loc) (incoming : list bytes)
    : M (option (loc * list bytes)) :=
  match incoming with
  | [] =>
      _ ← ReadMessage socket None;
      Socket_Close socket;; mret None
  | message :: rest =>
      r ← ReadMessage socket (Some message);
      match r with
      | None => Socket_Close socket;; mret None
      | Some message =>
          match json_Unmarshal message with
          | None => handleWebSocket_loop client socket rest
          | Some data =>
              let messageType := as_string (data !! "type") in
              if decide (messageType = "join") then
                let name := as_string (data !! "name") in
                let roomName := as_string (data !! "room") in
                if decide (name = "" ∨ roomName = "") then
                  handleWebSocket_loop client socket rest
                else
                  handleWebSocket_join client name roomName;;
                  mret (Some (client, rest))
              else handleWebSocket_loop client socket rest
          end
      end
  end.

(** [handleWebSocket]: [upgraded] tells whether [upgrader.Upgrade]
    succeeded, [incoming] is what the peer then sends.  The two [go]
    statements start goroutines, whose runs are the calls of
    [writeMessages] and [readMessages] below. *)
Definition handleWebSocket (upgraded : bool) (incoming : list bytes)
    : M (option (loc * list bytes)) :=
  if upgraded then
    socket ← new_conn (Conn.mk false []);
    client ← new_client (Client.mk "" socket (Chan.make Send_capacity) None);
    handleWebSocket_loop client socket incoming
  else mret None.

(** *** Steady state: [readMessages] (lines 194-250) *)

(** Lines 227-240: the message goes to the member called [target]. *)
Definition readMessages_forward (c : loc) (message : bytes) (target : string)
    : M () :=
  cl ← get_client c;
  match Client.Room cl with
  | None => panic
  | Some room =>
      Room_Lock room;;
      targetClient ← lookup_member room target;
      Room_Unlock room;;
      match targetClient with
      | Some targetClient => trySend targetClient message;; mret ()
      | None => mret ()
      end
  end.

(** Lines 211-248, one message: [true] when the loop goes on, [false]
    at the [return] of the [leave] case. *)
Definition readMessages_dispatch (c : loc) (message : bytes) : M bool :=
  match json_Unmarshal message with
  | None => mret true
  | Some data =>
      let messageType := as_string (data !! "type") in
      if decide (messageType = "offer" ∨ messageType = "answer"
                 ∨ messageType = "candidate") then
        let target := as_string (data !! "target") in
        if decide (target = "") then mret true
        else readMessages_forward c message target;; mret true
      else if decide (messageType = "leave") then mret false
      else mret true
  end.

(** The loop of lines 203-249. *)
Fixpoint readMessages_loop (c : loc) (incoming : list bytes) : M () :=
  cl ← get_client c;
  match incoming with
  | [] => _ ← ReadMessage (Client.Socket cl) None; mret ()
  | message :: rest =>
      r ← ReadMessage (Client.Socket cl) (Some message);
      match r with
      | None => mret ()
      | Some message =>
          go_on ← readMessages_dispatch c message;
          if go_on : bool then readMessages_loop c rest else mret ()
      end
  end.

(** The deferred function of lines 196-201. *)
Definition readMessages_deferred (c : loc) : M () :=
  cl ← get_client c;
  match Client.Room cl with
  | None => panic
  | Some room => RemoveClient room (Client.Name cl)
  end;;
  Socket_Close (Client.Socket cl);;
  close_Send c.

(** [readMessages]: the loop, then the deferred function. *)
Definition readMessages (c : loc) (incoming : list bytes) : M () :=
  readMessages_loop c incoming;;
  readMessages_deferred c.

(** *** The drain: [writeMessages] (lines 252-265) *)

(** The loop of lines 258-264, for at most [n] receives. *)
Fixpoint writeMessages_loop (c : loc) (n : nat) : M () :=
  match n with
  | 0 => mret ()
  | S n =>
      cl ← get_client c;
      r ← receive c;
      match r with
      | None => mret ()
      | Some message =>
          ok ← WriteMessage (Client.Socket cl) message;
          if ok : bool then writeMessages_loop c n else mret ()
      end
  end.

(** [writeMessages], from its start or from where it waited, over what
    is queued now: one receive more than there are queued messages ends
    the loop or finds the queue empty and waits.  The deferred function
    closes the connection. *)
Definition writeMessages (c : loc) : M () :=
  cl ← get_client c;
  writeMessages_loop c (S (length (Chan.buf (Client.Send cl))));;
  Socket_Close (Client.Socket cl).

(** ** Running the primitives *)

Lemma bind_run {A B} (m : M A) (f : A → M B) w :
  (m ≫= f) w =
  match m w with
  | Done a w' => f a w'
  | Blocked w' => Blocked w'
  | Panic w' => Panic w'
  end.
Proof. reflexivity. Qed.

Lemma bind_Done {A B} (m : M A) (f : A → M B) w a w' :
  m w = Done a w' → (m ≫= f) w = f a w'.
Proof. intros H. by rewrite bind_run, H. Qed.

Lemma bind_Blocked {A B} (m : M A) (f : A → M B) w w' :
  m w = Blocked w' → (m ≫= f) w = Blocked w'.
Proof. intros H. by rewrite bind_run, H. Qed.

Lemma bind_assoc {A B C} (m : M A) (f : A → M B) (g : B → M C) w :
  ((m ≫= f) ≫= g) w = (m ≫= λ a, f a ≫= g) w.
Proof. rewrite !bind_run. by destruct (m w). Qed.

Lemma bind_ext {A B} (m : M A) (f g : A → M B) w :
  (∀ a w', f a w' = g a w') → (m ≫= f) w = (m ≫= g) w.
Proof. intros H. rewrite !bind_run. by destruct (m w). Qed.

Lemma get_room_Some r rm w :
  rooms w !! r = Some rm → get_room r w = Done rm w.
Proof. unfold get_room. by intros ->. Qed.

Lemma get_client_Some c cl w :
  clients w !! c = Some cl → get_client c w = Done cl w.
Proof. unfold get_client. by intros ->. Qed.

Lemma get_conn_Some s cn w :
  conns w !! s = Some cn → get_conn s w = Done cn w.
Proof. unfold get_conn. by intros ->. Qed.

Lemma Room_Lock_free r rm w :
  rooms w !! r = Some rm → Room.Mutex rm = false →
  Room_Lock r w = Done () (set_rooms (<[r:=Room.with_Mutex true rm]>) w).
Proof.
  intros Hr Hm. unfold Room_Lock.
  rewrite (bind_Done _ _ _ _ _ (get_room_Some _ _ _ Hr)). by rewrite Hm.
Qed.

Lemma Room_Lock_held r rm w :
  rooms w !! r = Some rm → Room.Mutex rm = true → Room_Lock r w = Blocked w.
Proof.
  intros Hr Hm. unfold Room_Lock.
  rewrite (bind_Done _ _ _ _ _ (get_room_Some _ _ _ Hr)). by rewrite Hm.
Qed.

Lemma Room_Unlock_held r rm w :
  rooms w !! r = Some rm → Room.Mutex rm = true →
  Room_Unlock r w = Done () (set_rooms (<[r:=Room.with_Mutex false rm]>) w).
Proof.
  intros Hr Hm. unfold Room_Unlock.
  rewrite (bind_Done _ _ _ _ _ (get_room_Some _ _ _ Hr)). by rewrite Hm.
Qed.

(** What a non-blocking send leaves in the queue of its receiver. *)
Definition deliver (message : bytes) (c : Client.t) : Client.t :=
  if Chan.full (Client.Send c) then c
  else Client.with_Send (Chan.push message) c.

Lemma trySend_open client c message w :
  clients w !! client = Some c → Chan.closed (Client.Send c) = false →
  trySend client message w
  = Done (negb (Chan.full (Client.Send c)))
         (set_clients (<[client:=deliver message c]>) w).
Proof.
  intros Hc Ho. unfold trySend, deliver.
  rewrite (bind_Done _ _ _ _ _ (get_client_Some _ _ _ Hc)), Ho.
  destruct (Chan.full (Client.Send c)); simpl; [|done].
  unfold mret, M_ret. f_equal. destruct w as [sv rs cs cn]. unfold set_clients. simpl in *.
  f_equal. symmetry. by apply list_insert_id.
Qed.

Lemma deliver_closed message c :
  Chan.closed (Client.Send (deliver message c)) = Chan.closed (Client.Send c).
Proof. unfold deliver. by destruct (Chan.full _). Qed.

Lemma deliver_Name message c : Client.Name (deliver message c) = Client.Name c.
Proof. unfold deliver. by destruct (Chan.full _). Qed.

Lemma deliver_Socket message c : Client.Socket (deliver message c) = Client.Socket c.
Proof. unfold deliver. by destruct (Chan.full _). Qed.

Lemma deliver_Room message c : Client.Room (deliver message c) = Client.Room c.
Proof. unfold deliver. by destruct (Chan.full _). Qed.

(** ** Broadcast *)

(** The members a broadcast sends to: those under a name other than
    [exclude]. *)
Definition recipient (entries : list (string * loc)) (exclude : string)
    (l : loc) : Prop :=
  ∃ name, (name, l) ∈ entries ∧ name ≠ exclude.

(** Every entry points to a client whose queue is open. *)
Definition entries_open (w : World) (entries : list (string * loc)) : Prop :=
  ∀ name l, (name, l) ∈ entries →
    ∃ c, clients w !! l = Some c ∧ Chan.closed (Client.Send c) = false.

Lemma Broadcast_loop_run entries message exclude w :
  NoDup entries.*2 → entries_open w entries →
  ∃ w', Broadcast_loop entries message exclude w = Done () w'
    ∧ server w' = server w ∧ rooms w' = rooms w ∧ conns w' = conns w
    ∧ (∀ l, recipient entries exclude l →
         clients w' !! l = deliver message <$> clients w !! l)
    ∧ (∀ l, ¬ recipient entries exclude l → clients w' !! l = clients w !! l).
Proof.
  revert w. induction entries as [|[name client] rest IH]; intros w Hnd Hop.
  { exists w. repeat split; try done.
    intros l [n [Hin _]]. by apply elem_of_nil in Hin. }
  simpl in Hnd. apply NoDup_cons in Hnd as [Hfresh Hnd].
  destruct (Hop name client) as (c & Hc & Hclosed); [left|].
  assert (Hrest : ∀ w1, (∀ l, l ≠ client → clients w1 !! l = clients w !! l) →
            entries_open w1 rest).
  { intros w1 Hsame n l Hin. rewrite Hsame.
    - apply (Hop n l). by right.
    - intros ->. apply Hfresh. apply list_elem_of_fmap. by exists (n, client). }
  simpl. destruct (decide (name ≠ exclude)) as [Hne|Heq].
  - rewrite bind_run, bind_run, (trySend_open _ _ _ _ Hc Hclosed). simpl.
    set (w1 := set_clients _ w).
    assert (Hw1 : ∀ l, l ≠ client → clients w1 !! l = clients w !! l).
    { intros l Hl. unfold w1. simpl. by rewrite list_lookup_insert_ne. }
    destruct (IH w1 Hnd (Hrest w1 Hw1)) as (w' & Hrun & Hs & Hr & Hcn & Hyes & Hno).
    exists w'. split; [exact Hrun|]. repeat split; try done.
    + intros l [n [Hin Hn]]. apply elem_of_cons in Hin as [Heq|Hin].
      * injection Heq as -> ->. rewrite Hno.
        -- unfold w1. simpl. rewrite list_lookup_insert_eq by by eapply lookup_lt_Some.
           by rewrite Hc.
        -- intros [n' [Hin' _]]. apply Hfresh, list_elem_of_fmap. by exists (n', client).
      * assert (l ≠ client).
        { intros ->. apply Hfresh, list_elem_of_fmap. by exists (n, client). }
        rewrite Hyes by by exists n. by rewrite Hw1.
    + intros l Hl. assert (l ≠ client).
      { intros ->. apply Hl. exists name. split; [left|done]. }
      rewrite Hno, Hw1; [done..|].
      intros [n [Hin Hn]]. apply Hl. exists n. split; [by right|done].
  - apply dec_stable in Heq. subst name.
    destruct (IH w Hnd (Hrest w (λ _ _, eq_refl))) as (w' & Hrun & Hs & Hr & Hcn & Hyes & Hno).
    exists w'. split; [exact Hrun|]. repeat split; try done.
    + intros l [n [Hin Hn]]. apply elem_of_cons in Hin as [Heq|Hin].
      * by injection Heq as -> ->.
      * apply Hyes. by exists n.
    + intros l Hl. apply Hno. intros [n [Hin Hn]]. apply Hl. exists n.
      split; [by right|done].
Qed.

(** ** Consequences of well-formedness *)

Lemma wf_registry w name r :
  well_formed w = true → Server.Rooms (server w) !! name = Some r →
  ∃ rm, rooms w !! r = Some rm ∧ Room.Name rm = name.
Proof.
  unfold well_formed. intros [H _]%andb_true_iff Hr.
  rewrite forallb_forall in H.
  assert (Hin : In (name, r) (map_to_list (Server.Rooms (server w))))
    by by apply list_elem_of_In, elem_of_map_to_list.
  apply H in Hin. unfold registry_ok in Hin. simpl in Hin.
  destruct (rooms w !! r) as [rm|]; [|done].
  exists rm. split; [done|]. by apply bool_decide_eq_true in Hin.
Qed.

Lemma wf_room_ok w r rm :
  well_formed w = true → rooms w !! r = Some rm → room_ok w r rm = true.
Proof.
  unfold well_formed. intros [_ H]%andb_true_iff Hr.
  rewrite forallb_forall in H. apply (H (r, rm)).
  apply list_elem_of_In, list_elem_of_lookup. exists r.
  by rewrite list_lookup_imap, Hr.
Qed.

Lemma wf_registered w r rm :
  well_formed w = true → rooms w !! r = Some rm →
  Server.Rooms (server w) !! Room.Name rm = Some r.
Proof.
  intros Hwf Hr. pose proof (wf_room_ok _ _ _ Hwf Hr) as H.
  unfold room_ok in H. apply andb_true_iff in H as [H _].
  by apply bool_decide_eq_true in H.
Qed.

Lemma wf_member w r rm name l :
  well_formed w = true → rooms w !! r = Some rm →
  Room.Clients rm !! name = Some l →
  ∃ c, clients w !! l = Some c ∧ Client.Name c = name
    ∧ Client.Room c = Some r ∧ Chan.closed (Client.Send c) = false
    ∧ Client.Socket c < length (conns w) ∧ name ≠ "".
Proof.
  intros Hwf Hr Hl. pose proof (wf_room_ok _ _ _ Hwf Hr) as H.
  unfold room_ok in H. apply andb_true_iff in H as [_ H].
  rewrite forallb_forall in H.
  assert (Hin : In (name, l) (map_to_list (Room.Clients rm)))
    by by apply list_elem_of_In, elem_of_map_to_list.
  apply H in Hin. unfold member_ok in Hin. simpl in Hin.
  destruct (clients w !! l) as [c|]; [|done].
  exists c. split; [done|].
  apply andb_true_iff in Hin as [Hin H4].
  apply andb_true_iff in Hin as [Hin H3].
  apply andb_true_iff in Hin as [Hin H2].
  apply andb_true_iff in Hin as [H0 H1].
  apply bool_decide_eq_true in H0, H1, H2, H4. apply negb_true_iff in H3. done.
Qed.

(** Two room objects with one name are one object. *)
Lemma wf_one_room_per_name w r1 r2 rm1 rm2 :
  well_formed w = true → rooms w !! r1 = Some rm1 → rooms w !! r2 = Some rm2 →
  Room.Name rm1 = Room.Name rm2 → r1 = r2.
Proof.
  intros Hwf H1 H2 Hn.
  pose proof (wf_registered _ _ _ Hwf H1) as E1.
  pose proof (wf_registered _ _ _ Hwf H2) as E2.
  rewrite Hn in E1. congruence.
Qed.

Lemma elem_of_range m name l : (name, l) ∈ range m ↔ m !! name = Some l.
Proof. by rewrite range_perm, elem_of_map_to_list. Qed.

Lemma NoDup_range m : NoDup (range m).
Proof. rewrite range_perm. apply NoDup_map_to_list. Qed.

Lemma NoDup_range_fst m : NoDup (range m).*1.
Proof. rewrite range_perm. apply NoDup_fst_map_to_list. Qed.

Lemma wf_entries_open w r rm :
  well_formed w = true → rooms w !! r = Some rm →
  entries_open w (range (Room.Clients rm)).
Proof.
  intros Hwf Hr name l Hin. apply elem_of_range in Hin.
  destruct (wf_member _ _ _ _ _ Hwf Hr Hin) as (c & ? & _ & _ & ? & _ & _). eauto.
Qed.

Lemma wf_NoDup_members w r rm :
  well_formed w = true → rooms w !! r = Some rm →
  NoDup (range (Room.Clients rm)).*2.
Proof.
  intros Hwf Hr. apply NoDup_fmap_2_strong; [|apply NoDup_range].
  intros [n1 l1] [n2 l2] H1%elem_of_range H2%elem_of_range Heq.
  simpl in Heq. subst l2.
  destruct (wf_member _ _ _ _ _ Hwf Hr H1) as (c1 & E1 & N1 & _).
  destruct (wf_member _ _ _ _ _ Hwf Hr H2) as (c2 & E2 & N2 & _).
  congruence.
Qed.

Lemma with_Mutex_unlock rm :
  Room.Mutex rm = false → Room.with_Mutex false (Room.with_Mutex true rm) = rm.
Proof. destruct rm as [n cs m]. simpl. by intros ->. Qed.

Lemma lock_unlock_rooms (rs : list Room.t) r rm :
  rs !! r = Some rm → Room.Mutex rm = false →
  <[r:=Room.with_Mutex false (Room.with_Mutex true rm)]>
    (<[r:=Room.with_Mutex true rm]> rs) = rs.
Proof.
  intros Hr Hm. rewrite list_insert_insert_eq, with_Mutex_unlock by done.
  by apply list_insert_id.
Qed.

Lemma Broadcast_run w r rm message exclude :
  rooms w !! r = Some rm → Room.Mutex rm = false →
  NoDup (range (Room.Clients rm)).*2 →
  entries_open w (range (Room.Clients rm)) →
  ∃ w', Broadcast r message exclude w = Done () w'
    ∧ server w' = server w ∧ rooms w' = rooms w ∧ conns w' = conns w
    ∧ (∀ l, recipient (range (Room.Clients rm)) exclude l →
         clients w' !! l = deliver message <$> clients w !! l)
    ∧ (∀ l, ¬ recipient (range (Room.Clients rm)) exclude l →
         clients w' !! l = clients w !! l).
Proof.
  intros Hr Hm Hnd Hop. unfold Broadcast.
  rewrite bind_run, (Room_Lock_free _ _ _ Hr Hm).
  set (w1 := set_rooms _ w).
  assert (Hr1 : rooms w1 !! r = Some (Room.with_Mutex true rm)).
  { unfold w1. simpl. apply list_lookup_insert_eq. by eapply lookup_lt_Some. }
  rewrite bind_run, (get_room_Some _ _ _ Hr1). simpl.
  destruct (Broadcast_loop_run (range (Room.Clients rm)) message exclude w1 Hnd)
    as (w2 & Hrun & Hs & Hrs & Hcn & Hyes & Hno); [exact Hop|].
  rewrite bind_run, Hrun.
  assert (Hr2 : rooms w2 !! r = Some (Room.with_Mutex true rm)) by by rewrite Hrs.
  rewrite (Room_Unlock_held _ _ _ Hr2 eq_refl).
  eexists. split; [reflexivity|]. simpl. repeat split; try done.
  rewrite Hrs. unfold w1. simpl. by apply lock_unlock_rooms.
Qed.

(** C3: a broadcast returns without waiting; a recipient whose queue is
    full keeps its queue as it was (the message is dropped for it), every
    other member under a name other than [exclude] has the message
    appended to its queue, and nothing else changes. *)
Theorem Broadcast_nonblocking_drop_on_full w r rm message exclude :
  well_formed w = true → rooms w !! r = Some rm → Room.Mutex rm = false →
  ∃ w', Broadcast r message exclude w = Done () w'
    ∧ server w' = server w ∧ rooms w' = rooms w ∧ conns w' = conns w
    ∧ (∀ name l c, Room.Clients rm !! name = Some l → name ≠ exclude →
         clients w !! l = Some c → Chan.full (Client.Send c) = true →
         clients w' !! l = Some c)
    ∧ (∀ name l c, Room.Clients rm !! name = Some l → name ≠ exclude →
         clients w !! l = Some c → Chan.full (Client.Send c) = false →
         clients w' !! l = Some (Client.with_Send (Chan.push message) c))
    ∧ (∀ l, (∀ name, Room.Clients rm !! name = Some l → name = exclude) →
         clients w' !! l = clients w !! l).
Proof.
  intros Hwf Hr Hm.
  destruct (Broadcast_run w r rm message exclude Hr Hm)
    as (w' & Hrun & Hs & Hrs & Hcn & Hyes & Hno).
  { by eapply wf_NoDup_members. }
  { by eapply wf_entries_open. }
  exists w'. split; [exact Hrun|]. repeat split; try done.
  - intros name l c Hl Hne Hc Hfull. rewrite Hyes, Hc.
    + simpl. unfold deliver. by rewrite Hfull.
    + exists name. by rewrite elem_of_range.
  - intros name l c Hl Hne Hc Hfull. rewrite Hyes, Hc.
    + simpl. unfold deliver. by rewrite Hfull.
    + exists name. by rewrite elem_of_range.
  - intros l Hl. apply Hno. intros [name [Hin Hne]].
    apply elem_of_range in Hin. by apply Hne, Hl.
Qed.

(** ** Well-formedness as an invariant *)

(** [well_formed], spelled out. *)
Definition WF (w : World) : Prop :=
  (∀ name r, Server.Rooms (server w) !! name = Some r →
     ∃ rm, rooms w !! r = Some rm ∧ Room.Name rm = name)
  ∧ (∀ r rm, rooms w !! r = Some rm →
       Server.Rooms (server w) !! Room.Name rm = Some r)
  ∧ (∀ r rm name l, rooms w !! r = Some rm →
       Room.Clients rm !! name = Some l →
       ∃ c, clients w !! l = Some c ∧ Client.Name c = name
         ∧ Client.Room c = Some r ∧ Chan.closed (Client.Send c) = false
         ∧ Client.Socket c < length (conns w) ∧ name ≠ "").

Lemma well_formed_WF w : well_formed w = true ↔ WF w.
Proof.
  split.
  - intros Hwf. repeat split.
    + intros name r. by apply wf_registry.
    + intros r rm. by apply wf_registered.
    + intros r rm name l. by apply wf_member.
  - intros (H1 & H2 & H3). unfold well_formed. apply andb_true_iff. split.
    + apply forallb_forall. intros [name r] Hin%list_elem_of_In%elem_of_map_to_list.
      destruct (H1 _ _ Hin) as (rm & Hr & Hn). unfold registry_ok. simpl.
      rewrite Hr. by apply bool_decide_eq_true.
    + apply forallb_forall. intros [r rm] Hin%list_elem_of_In%list_elem_of_lookup.
      destruct Hin as [i Hi]. rewrite list_lookup_imap in Hi.
      destruct (rooms w !! i) as [rm'|] eqn:Hr; [|done].
      simpl in Hi. injection Hi as <- <-. unfold room_ok. simpl.
      apply andb_true_iff. split.
      * apply bool_decide_eq_true. by apply H2.
      * apply forallb_forall.
        intros [name l] Hin%list_elem_of_In%elem_of_map_to_list.
        destruct (H3 _ _ _ _ Hr Hin) as (c & Hc & E1 & E2 & E3 & E4 & E5).
        unfold member_ok. simpl. rewrite Hc, E3.
        rewrite !andb_true_iff. repeat split; try by apply bool_decide_eq_true.
Qed.

Lemma WF_initial : WF initial.
Proof. repeat split; intros *; simpl; by rewrite ?lookup_empty, ?lookup_nil. Qed.

(** ** The registry *)

Lemma GetOrCreateRoom_run roomName w :
  Server.Mutex (server w) = false →
  GetOrCreateRoom roomName w =
  match Server.Rooms (server w) !! roomName with
  | Some room => Done room w
  | None =>
      Done (length (rooms w))
        (mkWorld
           (Server.mk (<[roomName:=length (rooms w)]> (Server.Rooms (server w))) false)
           (rooms w ++ [Room.mk roomName ∅ false]) (clients w) (conns w))
  end.
Proof.
  intros Hm. destruct w as [[rs m] rms cls cns]. simpl in *. subst m.
  unfold GetOrCreateRoom. rewrite bind_run. unfold Server_Lock. simpl.
  rewrite bind_run. simpl. destruct (rs !! roomName) as [room|]; reflexivity.
Qed.

Lemma WF_GetOrCreateRoom roomName w :
  WF w → Server.Rooms (server w) !! roomName = None →
  WF (mkWorld
        (Server.mk (<[roomName:=length (rooms w)]> (Server.Rooms (server w))) false)
        (rooms w ++ [Room.mk roomName ∅ false]) (clients w) (conns w)).
Proof.
  intros (H1 & H2 & H3) Hnone. repeat split; simpl.
  - intros name r Hr. destruct (decide (roomName = name)) as [->|Hne].
    + rewrite lookup_insert_eq in Hr. injection Hr as <-.
      exists (Room.mk name ∅ false). split; [|done].
      by rewrite lookup_app_r, Nat.sub_diag.
    + rewrite lookup_insert_ne in Hr by done.
      destruct (H1 _ _ Hr) as (rm & Hrm & Hn). exists rm. split; [|done].
      rewrite lookup_app_l; [done|]. by eapply lookup_lt_Some.
  - intros r rm Hr. apply lookup_app_Some in Hr as [Hr|[Hlen Hr]].
    + rewrite lookup_insert_ne; [by apply H2|].
      intros Heq. apply H2 in Hr. rewrite <- Heq in Hr. congruence.
    + apply list_lookup_singleton_Some in Hr as [Hz <-]. simpl.
      rewrite lookup_insert_eq. f_equal. lia.
  - intros r rm name l Hr Hl. apply lookup_app_Some in Hr as [Hr|[Hlen Hr]].
    + by eapply H3.
    + apply list_lookup_singleton_Some in Hr as [Hz <-]. simpl in Hl.
      by rewrite lookup_empty in Hl.
Qed.

(** ** What a call leaves untouched *)

(** [m] never changes what [obs] reads of the state, however it ends. *)
Definition keeps {T A} (obs : World → T) (m : M A) : Prop :=
  ∀ w, obs (final (m w)) = obs w.

(** [m] does not return: it waits forever or panics. *)
Definition never_returns {A} (m : M A) : Prop :=
  ∀ w a w', m w ≠ Done a w'.

Lemma keeps_bind {T A B} (obs : World → T) (m : M A) (f : A → M B) :
  keeps obs m → (∀ a, keeps obs (f a)) → keeps obs (m ≫= f).
Proof.
  intros Hm Hf w. rewrite bind_run. specialize (Hm w).
  destruct (m w) as [a w1|w1|w1]; simpl in *; [|done..].
  by rewrite Hf.
Qed.

Lemma keeps_ret {T A} (obs : World → T) (a : A) : keeps obs (mret a : M A).
Proof. by intros w. Qed.

Lemma keeps_block {T A} (obs : World → T) : keeps obs (block : M A).
Proof. by intros w. Qed.

Lemma keeps_panic {T A} (obs : World → T) : keeps obs (panic : M A).
Proof. by intros w. Qed.

Lemma keeps_get_room {T} (obs : World → T) r : keeps obs (get_room r).
Proof. intros w. unfold get_room. by destruct (rooms w !! r). Qed.

Lemma keeps_get_client {T} (obs : World → T) c : keeps obs (get_client c).
Proof. intros w. unfold get_client. by destruct (clients w !! c). Qed.

Lemma keeps_get_conn {T} (obs : World → T) s : keeps obs (get_conn s).
Proof. intros w. unfold get_conn. by destruct (conns w !! s). Qed.

Lemma keeps_modify {T} (obs : World → T) f :
  (∀ w, obs (f w) = obs w) → keeps obs (modify f).
Proof. intros H w. apply H. Qed.

Lemma never_returns_bind_l {A B} (m : M A) (f : A → M B) :
  never_returns m → never_returns (m ≫= f).
Proof.
  intros Hm w b w'. rewrite bind_run. specialize (Hm w).
  destruct (m w) as [a w1|w1|w1]; [|done..]. by destruct (Hm a w1).
Qed.

Lemma never_returns_bind_r {A B} (m : M A) (f : A → M B) :
  (∀ a, never_returns (f a)) → never_returns (m ≫= f).
Proof.
  intros Hf w b w'. rewrite bind_run.
  destruct (m w) as [a w1|w1|w1]; [|done..]. apply Hf.
Qed.

(** The flags [Close] and [close] set: of every connection and of every
    queue. *)
Definition closed_flags (w : World) : list bool * list bool :=
  (Conn.closed <$> conns w, (λ c, Chan.closed (Client.Send c)) <$> clients w).

(** The queues and the connections. *)
Definition queues_and_conns (w : World) : list Client.t * list Conn.t :=
  (clients w, conns w).

Create HintDb keeps discriminated.
#[local] Hint Resolve keeps_ret keeps_block keeps_panic keeps_get_room
  keeps_get_client keeps_get_conn : keeps.

Ltac keeps_step :=
  first
    [ solve [auto with keeps]
    | apply keeps_modify; intros ?; reflexivity
    | apply keeps_bind; [|intros ?]
    | match goal with
      | |- keeps _ (if ?b then _ else _) => destruct b
      | |- keeps _ (match ?o with Some _ => _ | None => _ end) => destruct o
      end ].

Lemma keeps_Room_Lock_clients r : keeps queues_and_conns (Room_Lock r).
Proof. unfold Room_Lock, put_room. repeat keeps_step. Qed.

Lemma keeps_Room_Unlock_clients r : keeps queues_and_conns (Room_Unlock r).
Proof. unfold Room_Unlock, put_room. repeat keeps_step. Qed.

Lemma keeps_Room_Lock_flags r : keeps closed_flags (Room_Lock r).
Proof. unfold Room_Lock, put_room. repeat keeps_step. Qed.

Lemma keeps_Room_Unlock_flags r : keeps closed_flags (Room_Unlock r).
Proof. unfold Room_Unlock, put_room. repeat keeps_step. Qed.

Lemma keeps_lookup_member {T} (obs : World → T) r name :
  keeps obs (lookup_member r name).
Proof. unfold lookup_member. repeat keeps_step. Qed.

#[local] Hint Resolve keeps_Room_Lock_clients keeps_Room_Unlock_clients
  keeps_Room_Lock_flags keeps_Room_Unlock_flags keeps_lookup_member : keeps.

Lemma keeps_trySend_flags client message :
  keeps closed_flags (trySend client message).
Proof.
  intros w. unfold trySend. rewrite bind_run. unfold get_client.
  destruct (clients w !! client) as [c|] eqn:Hc; [|done].
  destruct (Chan.closed (Client.Send c)) eqn:Ho; [done|].
  destruct (Chan.full (Client.Send c)); [done|].
  simpl. unfold closed_flags. simpl. f_equal.
  rewrite list_fmap_insert. simpl. apply list_insert_id.
  by rewrite list_lookup_fmap, Hc.
Qed.
#[local] Hint Resolve keeps_trySend_flags : keeps.

(** ** [RemoveClient] waits for the lock it holds *)

Lemma RemoveClient_run_free w r rm clientName :
  rooms w !! r = Some rm → Room.Mutex rm = false →
  RemoveClient r clientName w
  = Blocked (set_rooms
      (<[r:=Room.with_Clients (delete clientName) (Room.with_Mutex true rm)]>) w).
Proof.
  intros Hr Hm. unfold RemoveClient.
  rewrite bind_run, (Room_Lock_free _ _ _ Hr Hm).
  set (w1 := set_rooms _ w).
  assert (Hr1 : rooms w1 !! r = Some (Room.with_Mutex true rm)).
  { unfold w1. simpl. apply list_lookup_insert_eq. by eapply lookup_lt_Some. }
  rewrite bind_run, (get_room_Some _ _ _ Hr1).
  rewrite bind_run. unfold put_room at 1, modify at 1.
  set (w2 := set_rooms _ w1).
  assert (Hr2 : rooms w2 !! r
    = Some (Room.with_Clients (delete clientName) (Room.with_Mutex true rm))).
  { unfold w2. simpl. apply list_lookup_insert_eq. rewrite length_insert.
    by eapply lookup_lt_Some. }
  rewrite bind_run. unfold Broadcast.
  rewrite bind_run, (Room_Lock_held _ _ _ Hr2 eq_refl).
  unfold w2, w1, set_rooms. simpl. by rewrite list_insert_insert_eq.
Qed.

Lemma RemoveClient_never_returns r clientName :
  never_returns (RemoveClient r clientName).
Proof.
  intros w a w'. destruct (rooms w !! r) as [rm|] eqn:Hr.
  - destruct (Room.Mutex rm) eqn:Hm.
    + unfold RemoveClient. by rewrite bind_run, (Room_Lock_held _ _ _ Hr Hm).
    + by rewrite (RemoveClient_run_free _ _ _ _ Hr Hm).
  - unfold RemoveClient, Room_Lock, get_room. rewrite !bind_run. by rewrite Hr.
Qed.

Lemma RemoveClient_keeps r clientName :
  keeps queues_and_conns (RemoveClient r clientName).
Proof.
  intros w. destruct (rooms w !! r) as [rm|] eqn:Hr.
  - destruct (Room.Mutex rm) eqn:Hm.
    + unfold RemoveClient. by rewrite bind_run, (Room_Lock_held _ _ _ Hr Hm).
    + by rewrite (RemoveClient_run_free _ _ _ _ Hr Hm).
  - unfold RemoveClient, Room_Lock, get_room. rewrite !bind_run. by rewrite Hr.
Qed.

Lemma keeps_never_returns_bind {T A B} (obs : World → T) (m : M A) (f : A → M B) :
  never_returns m → keeps obs m → keeps obs (m ≫= f).
Proof.
  intros Hn Hk w. rewrite bind_run. specialize (Hk w). specialize (Hn w).
  destruct (m w) as [a w1|w1|w1]; [|done..]. by destruct (Hn a w1).
Qed.

Lemma keeps_compose {T U A} (obs : World → T) (g : T → U) (m : M A) :
  keeps obs m → keeps (λ w, g (obs w)) m.
Proof. intros H w. by rewrite H. Qed.

Lemma never_returns_panic {A} : never_returns (panic : M A).
Proof. by intros w a w'. Qed.

(** C5: [RemoveClient] does not return, in any state, and the queues of
    all clients are afterwards what they were: the [leave] message it
    builds reaches no queue. *)
Theorem RemoveClient_never_broadcasts r clientName w :
  (∀ a w', RemoveClient r clientName w ≠ Done a w')
  ∧ clients (final (RemoveClient r clientName w)) = clients w.
Proof.
  split.
  - intros a w'. apply RemoveClient_never_returns.
  - pose proof (RemoveClient_keeps r clientName w) as H.
    by injection H as H _.
Qed.

(** ** Leaving *)

Lemma readMessages_deferred_never_returns c :
  never_returns (readMessages_deferred c).
Proof.
  unfold readMessages_deferred. apply never_returns_bind_r. intros cl.
  apply never_returns_bind_l. destruct (Client.Room cl).
  - apply RemoveClient_never_returns.
  - apply never_returns_panic.
Qed.

Lemma readMessages_deferred_keeps c :
  keeps closed_flags (readMessages_deferred c).
Proof.
  unfold readMessages_deferred. apply keeps_bind; [auto with keeps|]. intros cl.
  destruct (Client.Room cl) as [room|].
  - apply keeps_never_returns_bind; [apply RemoveClient_never_returns|].
    apply (keeps_compose queues_and_conns
             (λ q, (Conn.closed <$> q.2, (λ c, Chan.closed (Client.Send c)) <$> q.1))).
    apply RemoveClient_keeps.
  - apply keeps_never_returns_bind; [apply never_returns_panic|auto with keeps].
Qed.

Lemma readMessages_forward_keeps c message target :
  keeps closed_flags (readMessages_forward c message target).
Proof. unfold readMessages_forward. repeat keeps_step. Qed.

Lemma readMessages_dispatch_keeps c message :
  keeps closed_flags (readMessages_dispatch c message).
Proof.
  unfold readMessages_dispatch.
  destruct (json_Unmarshal message); [|auto with keeps].
  repeat case_decide; auto with keeps.
  apply keeps_bind; [apply readMessages_forward_keeps|auto with keeps].
Qed.

Lemma ReadMessage_keeps {T} (obs : World → T) socket next :
  keeps obs (ReadMessage socket next).
Proof. unfold ReadMessage. repeat keeps_step. Qed.

Lemma readMessages_loop_keeps c incoming :
  keeps closed_flags (readMessages_loop c incoming).
Proof.
  induction incoming as [|message rest IH]; simpl.
  - apply keeps_bind; [auto with keeps|]. intros cl.
    apply keeps_bind; [apply ReadMessage_keeps|auto with keeps].
  - apply keeps_bind; [auto with keeps|]. intros cl.
    apply keeps_bind; [apply ReadMessage_keeps|]. intros [m|]; [|auto with keeps].
    apply keeps_bind; [apply readMessages_dispatch_keeps|].
    intros [|]; auto with keeps.
Qed.

(** C8: [readMessages] does not return, whatever the client receives,
    and at its end no connection and no queue is closed that was open
    before: the deferred function waits in [RemoveClient], before
    [c.Socket.Close()] and [close(c.Send)]. *)
Theorem readMessages_cleanup_never_closes c incoming w :
  (∀ a w', readMessages c incoming w ≠ Done a w')
  ∧ closed_flags (final (readMessages c incoming w)) = closed_flags w.
Proof.
  split.
  - intros a w'. unfold readMessages.
    apply never_returns_bind_r. intros _. apply readMessages_deferred_never_returns.
  - unfold readMessages. apply keeps_bind.
    + apply readMessages_loop_keeps.
    + intros _. apply readMessages_deferred_keeps.
Qed.

(** ** Targeted forward *)

Lemma lock_unlock_world w r rm :
  rooms w !! r = Some rm → Room.Mutex rm = false →
  set_rooms (<[r:=Room.with_Mutex false (Room.with_Mutex true rm)]>)
    (set_rooms (<[r:=Room.with_Mutex true rm]>) w) = w.
Proof.
  intros Hr Hm. destruct w as [sv rs cs cn]. unfold set_rooms. simpl in *.
  f_equal. by apply lock_unlock_rooms.
Qed.

Lemma lookup_member_run w r rm name :
  rooms w !! r = Some rm →
  lookup_member r name w = Done (Room.Clients rm !! name) w.
Proof.
  intros Hr. unfold lookup_member. by rewrite bind_run, (get_room_Some _ _ _ Hr).
Qed.

(** A lookup under the room's lock returns with the state it found. *)
Lemma locked_lookup_run {A} w r rm name (k : option loc → M A) :
  rooms w !! r = Some rm → Room.Mutex rm = false →
  (Room_Lock r;; o ← lookup_member r name; Room_Unlock r;; k o) w
  = k (Room.Clients rm !! name) w.
Proof.
  intros Hr Hm. rewrite bind_run, (Room_Lock_free _ _ _ Hr Hm).
  set (w1 := set_rooms _ w).
  assert (Hr1 : rooms w1 !! r = Some (Room.with_Mutex true rm)).
  { unfold w1. simpl. apply list_lookup_insert_eq. by eapply lookup_lt_Some. }
  rewrite bind_run, (lookup_member_run _ _ _ _ Hr1). simpl.
  rewrite bind_run, (Room_Unlock_held _ _ _ Hr1 eq_refl).
  unfold w1. by rewrite lock_unlock_world.
Qed.

Lemma readMessages_forward_run w c cl room rm message target :
  clients w !! c = Some cl → Client.Room cl = Some room →
  rooms w !! room = Some rm → Room.Mutex rm = false →
  readMessages_forward c message target w
  = match Room.Clients rm !! target with
    | Some targetClient => (trySend targetClient message;; mret ()) w
    | None => Done () w
    end.
Proof.
  intros Hc Hroom Hr Hm. unfold readMessages_forward.
  rewrite bind_run, (get_client_Some _ _ _ Hc), Hroom.
  rewrite (locked_lookup_run _ _ _ _ _ Hr Hm).
  by destruct (Room.Clients rm !! target).
Qed.

(** The three types that are forwarded. *)
Definition negotiation (messageType : string) : Prop :=
  messageType = "offer" ∨ messageType = "answer" ∨ messageType = "candidate".

Lemma readMessages_dispatch_forward w c message data :
  json_Unmarshal message = Some data →
  negotiation (as_string (data !! "type")) →
  as_string (data !! "target") ≠ "" →
  readMessages_dispatch c message w
  = (readMessages_forward c message (as_string (data !! "target"));; mret true) w.
Proof.
  intros Hd Ht Hne. unfold readMessages_dispatch. rewrite Hd. simpl.
  unfold negotiation in Ht. rewrite decide_True by done. by rewrite decide_False.
Qed.

(** C4, as the code has it: a negotiation message with a target is
    handled without waiting; when the target is a member, the raw
    message is appended as it came to that member's queue if the queue
    has room and dropped if the queue is full, and no other queue
    changes; when the target is no member, no queue changes. *)
Theorem forward_reaches_target_only w c cl room rm message data target :
  well_formed w = true →
  clients w !! c = Some cl → Client.Room cl = Some room →
  rooms w !! room = Some rm → Room.Mutex rm = false →
  json_Unmarshal message = Some data →
  negotiation (as_string (data !! "type")) →
  as_string (data !! "target") = target → target ≠ "" →
  ∃ w', readMessages_dispatch c message w = Done true w'
    ∧ server w' = server w ∧ rooms w' = rooms w ∧ conns w' = conns w
    ∧ match Room.Clients rm !! target with
      | Some t =>
          ∃ tc, clients w !! t = Some tc
            ∧ clients w'
              = <[t:=if Chan.full (Client.Send tc) then tc
                     else Client.with_Send (Chan.push message) tc]> (clients w)
      | None => clients w' = clients w
      end.
Proof.
  intros Hwf Hc Hroom Hr Hm Hd Ht Htarget Hne. subst target.
  rewrite (readMessages_dispatch_forward _ _ _ _ Hd Ht Hne).
  rewrite bind_run, (readMessages_forward_run _ _ _ _ _ _ _ Hc Hroom Hr Hm).
  destruct (Room.Clients rm !! as_string (data !! "target")) as [t|] eqn:Ht'.
  - destruct (wf_member _ _ _ _ _ Hwf Hr Ht') as (tc & Htc & _ & _ & Hopen & _).
    rewrite bind_run, (trySend_open _ _ _ _ Htc Hopen). simpl.
    eexists. split; [reflexivity|]. simpl. repeat split. by exists tc.
  - by exists w.
Qed.

(** C10, as the code has it: a negotiation message whose target is the
    sender's own name goes to the sender's own queue, appended if the
    queue has room and dropped if it is full; the sender is not
    excluded. *)
Theorem forward_to_self w c cl room rm message data :
  well_formed w = true →
  clients w !! c = Some cl → Client.Room cl = Some room →
  rooms w !! room = Some rm → Room.Mutex rm = false →
  Room.Clients rm !! Client.Name cl = Some c →
  json_Unmarshal message = Some data →
  negotiation (as_string (data !! "type")) →
  as_string (data !! "target") = Client.Name cl →
  readMessages_dispatch c message w
  = Done true
      (set_clients
         (<[c:=if Chan.full (Client.Send cl) then cl
               else Client.with_Send (Chan.push message) cl]>) w).
Proof.
  intros Hwf Hc Hroom Hr Hm Hself Hd Ht Htarget.
  destruct (wf_member _ _ _ _ _ Hwf Hr Hself) as (cl' & Hcl' & _ & _ & Hopen & _ & Hne).
  assert (cl' = cl) as -> by congruence.
  rewrite <- Htarget in Hne, Hself.
  rewrite (readMessages_dispatch_forward _ _ _ _ Hd Ht Hne).
  rewrite bind_run, (readMessages_forward_run _ _ _ _ _ _ _ Hc Hroom Hr Hm), Hself.
  by rewrite bind_run, (trySend_open _ _ _ _ Hc Hopen).
Qed.

(** ** The join handshake *)

(** The join the handshake waits for: an object whose [type] is
    ["join"] and whose [name] and [room] are non-empty strings. *)
Definition valid_join (message : bytes) (name roomName : string) : Prop :=
  ∃ data, json_Unmarshal message = Some data
    ∧ data !! "type" = Some (JString "join")
    ∧ data !! "name" = Some (JString name)
    ∧ data !! "room" = Some (JString roomName)
    ∧ name ≠ "" ∧ roomName ≠ "".

Lemma as_string_nonempty v s : s ≠ "" → as_string v = s ↔ v = Some (JString s).
Proof.
  intros Hs. split; [|by intros ->].
  destruct v as [[| | |s'| |]|]; simpl; intros; by simplify_eq.
Qed.

(** What the loop tests (lines 131-134) is [valid_join]. *)
Lemma valid_join_test message data :
  json_Unmarshal message = Some data →
  (as_string (data !! "type") = "join"
   ∧ ¬ (as_string (data !! "name") = "" ∨ as_string (data !! "room") = ""))
  ↔ valid_join message (as_string (data !! "name")) (as_string (data !! "room")).
Proof.
  intros Hd. split.
  - intros [Ht Hne]. exists data. split; [done|].
    split; [by apply as_string_nonempty in Ht|].
    split; [apply as_string_nonempty; [tauto|done]|].
    split; [apply as_string_nonempty; [tauto|done]|]. tauto.
  - intros (data' & Hd' & Ht & Hn & Hr & Hne1 & Hne2).
    assert (data' = data) as -> by congruence.
    split; [by rewrite Ht|]. tauto.
Qed.

Lemma valid_join_fields message name roomName data :
  valid_join message name roomName → json_Unmarshal message = Some data →
  as_string (data !! "type") = "join"
  ∧ as_string (data !! "name") = name ∧ as_string (data !! "room") = roomName.
Proof.
  intros (data' & Hd' & Ht & Hn & Hr & _) Hd.
  assert (data' = data) as -> by congruence. by rewrite Ht, Hn, Hr.
Qed.

Lemma ReadMessage_open socket cn next w :
  conns w !! socket = Some cn → Conn.closed cn = false →
  ReadMessage socket next w = Done next w.
Proof.
  intros Hs Ho. unfold ReadMessage.
  by rewrite bind_run, (get_conn_Some _ _ _ Hs), Ho.
Qed.

Lemma Socket_Close_run socket cn w :
  conns w !! socket = Some cn →
  Socket_Close socket w = Done () (set_conns (<[socket:=Conn.close cn]>) w).
Proof.
  intros Hs. unfold Socket_Close. by rewrite bind_run, (get_conn_Some _ _ _ Hs).
Qed.

(** On an open connection the loop skips every message that is not a
    valid join, runs the join at the first one that is, and closes the
    connection when the peer is gone before one came. *)
Lemma handleWebSocket_loop_run client socket cn incoming w :
  conns w !! socket = Some cn → Conn.closed cn = false →
  (∃ pre message rest name roomName,
     incoming = pre ++ message :: rest
     ∧ (∀ m n r, m ∈ pre → ¬ valid_join m n r)
     ∧ valid_join message name roomName
     ∧ handleWebSocket_loop client socket incoming w
       = (handleWebSocket_join client name roomName;;
          mret (Some (client, rest))) w)
  ∨ ((∀ m n r, m ∈ incoming → ¬ valid_join m n r)
     ∧ handleWebSocket_loop client socket incoming w
       = Done None (set_conns (<[socket:=Conn.close cn]>) w)).
Proof.
  intros Hs Ho. induction incoming as [|message rest IH].
  { right. split; [by intros m n r ?%elem_of_nil|]. simpl.
    rewrite bind_run, (ReadMessage_open _ _ _ _ Hs Ho).
    by rewrite bind_run, (Socket_Close_run _ _ _ Hs). }
  assert (Hskip : (∀ n r, ¬ valid_join message n r) →
    handleWebSocket_loop client socket (message :: rest) w
    = handleWebSocket_loop client socket rest w →
    (∃ pre message0 rest0 name roomName,
       message :: rest = pre ++ message0 :: rest0
       ∧ (∀ m n r, m ∈ pre → ¬ valid_join m n r)
       ∧ valid_join message0 name roomName
       ∧ handleWebSocket_loop client socket (message :: rest) w
         = (handleWebSocket_join client name roomName;;
            mret (Some (client, rest0))) w)
    ∨ ((∀ m n r, m ∈ message :: rest → ¬ valid_join m n r)
       ∧ handleWebSocket_loop client socket (message :: rest) w
         = Done None (set_conns (<[socket:=Conn.close cn]>) w))).
  { intros Hbad Heq. destruct IH as [(pre & m0 & rest0 & n & r & -> & Hpre & Hv & Hrun)|[Hall Hrun]].
    - left. exists (message :: pre), m0, rest0, n, r. split; [done|].
      split; [|split; [done|by rewrite Heq]].
      intros m n' r' [->|Hin]%elem_of_cons; [apply Hbad|by apply Hpre].
    - right. split; [|by rewrite Heq].
      intros m n' r' [->|Hin]%elem_of_cons; [apply Hbad|by apply Hall]. }
  assert (Hstep : handleWebSocket_loop client socket (message :: rest) w
    = match json_Unmarshal message with
      | None => handleWebSocket_loop client socket rest w
      | Some data =>
          if decide (as_string (data !! "type") = "join") then
            if decide (as_string (data !! "name") = ""
                       ∨ as_string (data !! "room") = "") then
              handleWebSocket_loop client socket rest w
            else (handleWebSocket_join client (as_string (data !! "name"))
                    (as_string (data !! "room"));;
                  mret (Some (client, rest))) w
          else handleWebSocket_loop client socket rest w
      end).
  { simpl. rewrite bind_run, (ReadMessage_open _ _ _ _ Hs Ho).
    destruct (json_Unmarshal message); [|done]. simpl.
    by repeat case_decide. }
  destruct (json_Unmarshal message) as [data|] eqn:Hd.
  - pose proof (valid_join_test message data Hd) as Htest.
    destruct (decide (as_string (data !! "type") = "join")) as [Ht|Ht].
    + destruct (decide (as_string (data !! "name") = ""
                        ∨ as_string (data !! "room") = "")) as [He|He].
      * apply Hskip; [|done].
        intros n r Hv. destruct (valid_join_fields _ _ _ _ Hv Hd) as (_ & <- & <-).
        apply Htest in Hv. tauto.
      * left. exists [], message, rest, (as_string (data !! "name")),
          (as_string (data !! "room")).
        split; [done|]. split; [by intros m n r ?%elem_of_nil|].
        split; [apply Htest; tauto|done].
    + apply Hskip; [|done].
      intros n r Hv. by destruct (valid_join_fields _ _ _ _ Hv Hd) as (? & _).
  - apply Hskip; [|done].
    intros n r (data & Hd' & _). congruence.
Qed.

(** C7: a client is admitted only when one of the messages of its
    connection is a valid join (the function then returns the client, and
    only then does the room store change); and a connection whose
    messages hold no valid join ends closed, with the registry and the
    rooms as they were. *)
Theorem admitted_only_by_valid_join incoming w :
  ((rooms (final (handleWebSocket true incoming w)) ≠ rooms w
    ∨ ∃ c rest w', handleWebSocket true incoming w = Done (Some (c, rest)) w') →
   ∃ message name roomName, message ∈ incoming ∧ valid_join message name roomName)
  ∧ ((∀ message name roomName,
        message ∈ incoming → ¬ valid_join message name roomName) →
     handleWebSocket true incoming w
     = Done None
         (mkWorld (server w) (rooms w)
            (clients w
             ++ [Client.mk "" (length (conns w)) (Chan.make Send_capacity) None])
            (conns w ++ [Conn.mk true []]))).
Proof.
  unfold handleWebSocket. rewrite bind_run. unfold new_conn at 1 2 3.
  rewrite bind_run. unfold new_client at 1 2 3.
  set (wB := set_clients _ (set_conns _ w)).
  assert (Hs : conns wB !! length (conns w) = Some (Conn.mk false [])).
  { unfold wB. simpl. by rewrite lookup_app_r, Nat.sub_diag. }
  assert (Hclose : set_conns (<[length (conns w):=Conn.close (Conn.mk false [])]>) wB
    = mkWorld (server w) (rooms w)
        (clients w
         ++ [Client.mk "" (length (conns w)) (Chan.make Send_capacity) None])
        (conns w ++ [Conn.mk true []])).
  { unfold wB, set_conns, set_clients. simpl. f_equal.
    rewrite <- (Nat.add_0_r (length (conns w))) at 1. by rewrite insert_app_r. }
  simpl length.
  destruct (handleWebSocket_loop_run (length (clients w)) (length (conns w))
              (Conn.mk false []) incoming wB Hs eq_refl)
    as [(pre & m0 & rest0 & n & r & -> & Hpre & Hv & Hrun)|[Hall Hrun]].
  - split.
    + intros _. exists m0, n, r. split; [|done].
      apply elem_of_app. right. left.
    + intros Hnone. destruct (Hnone m0 n r); [|done].
      apply elem_of_app. right. left.
  - rewrite Hrun, Hclose. split; [|done].
    simpl. intros [Hne|(c & rest & w' & Heq)]; done.
Qed.

(** ** What keeps a state well-formed *)

(** No room has [client] as a member. *)
Definition nonmember (w : World) (client : loc) : Prop :=
  ∀ r rm name, rooms w !! r = Some rm → Room.Clients rm !! name ≠ Some client.

Lemma WF_nonmember_fresh w client :
  WF w → length (clients w) ≤ client → nonmember w client.
Proof.
  intros (_ & _ & H3) Hlen r rm name Hr Hl.
  destruct (H3 _ _ _ _ Hr Hl) as (c & Hc & _).
  apply lookup_lt_Some in Hc. lia.
Qed.

Lemma WF_set_nonmember w client c' :
  WF w → nonmember w client → WF (set_clients (<[client:=c']>) w).
Proof.
  intros (H1 & H2 & H3) Hnm. repeat split; [done..|].
  intros r rm name l Hr Hl. simpl in *.
  rewrite list_lookup_insert_ne; [by eapply H3|].
  intros <-. by eapply Hnm.
Qed.

Lemma WF_update_member w l c c' :
  WF w → clients w !! l = Some c →
  Client.Name c' = Client.Name c → Client.Room c' = Client.Room c →
  Chan.closed (Client.Send c') = Chan.closed (Client.Send c) →
  Client.Socket c' = Client.Socket c →
  WF (set_clients (<[l:=c']>) w).
Proof.
  intros (H1 & H2 & H3) Hc En Er Ec Es. repeat split; [done..|].
  intros r rm name l' Hr Hl. simpl in *.
  destruct (H3 _ _ _ _ Hr Hl) as (c0 & Hc0 & ?).
  destruct (decide (l = l')) as [<-|Hne].
  - rewrite list_lookup_insert_eq by by eapply lookup_lt_Some.
    exists c'. rewrite En, Er, Ec, Es. by simplify_eq.
  - rewrite list_lookup_insert_ne by done. by exists c0.
Qed.

Lemma WF_conns w cns :
  WF w → length (conns w) ≤ length cns →
  WF (mkWorld (server w) (rooms w) (clients w) cns).
Proof.
  intros (H1 & H2 & H3) Hlen. repeat split; [done..|].
  intros r rm name l Hr Hl. simpl in *.
  destruct (H3 _ _ _ _ Hr Hl) as (c & ? & ? & ? & ? & ? & ?).
  exists c. repeat split; try done. lia.
Qed.

Lemma WF_clients_app w cs :
  WF w → WF (mkWorld (server w) (rooms w) (clients w ++ cs) (conns w)).
Proof.
  intros (H1 & H2 & H3). repeat split; [done..|].
  intros r rm name l Hr Hl. simpl in *.
  destruct (H3 _ _ _ _ Hr Hl) as (c & Hc & ?).
  exists c. split; [|done]. rewrite lookup_app_l; [done|]. by eapply lookup_lt_Some.
Qed.

(** A room's members change to a submap of the old ones with one more
    entry for a good client; its name stays. *)
Lemma WF_set_members w room rm rm' :
  WF w → rooms w !! room = Some rm → Room.Name rm' = Room.Name rm →
  (∀ name l, Room.Clients rm' !! name = Some l →
     Room.Clients rm !! name = Some l
     ∨ ∃ c, clients w !! l = Some c ∧ Client.Name c = name
         ∧ Client.Room c = Some room ∧ Chan.closed (Client.Send c) = false
         ∧ Client.Socket c < length (conns w) ∧ name ≠ "") →
  WF (set_rooms (<[room:=rm']>) w).
Proof.
  intros (H1 & H2 & H3) Hr Hn Hm. repeat split; simpl.
  - intros name r Hreg. destruct (H1 _ _ Hreg) as (rm0 & Hr0 & Hn0).
    destruct (decide (room = r)) as [<-|Hne].
    + exists rm'. rewrite list_lookup_insert_eq by by eapply lookup_lt_Some.
      split; [done|]. congruence.
    + exists rm0. by rewrite list_lookup_insert_ne.
  - intros r rm0 Hr0. destruct (decide (room = r)) as [<-|Hne].
    + rewrite list_lookup_insert_eq in Hr0 by by eapply lookup_lt_Some.
      injection Hr0 as <-. rewrite Hn. by apply H2.
    + rewrite list_lookup_insert_ne in Hr0 by done. by apply H2.
  - intros r rm0 name l Hr0 Hl. destruct (decide (room = r)) as [<-|Hne].
    + rewrite list_lookup_insert_eq in Hr0 by by eapply lookup_lt_Some.
      injection Hr0 as <-. destruct (Hm _ _ Hl) as [Hold|Hnew]; [|done].
      by eapply H3.
    + rewrite list_lookup_insert_ne in Hr0 by done. by eapply H3.
Qed.

Lemma WF_set_Mutex w room rm b :
  WF w → rooms w !! room = Some rm →
  WF (set_rooms (<[room:=Room.with_Mutex b rm]>) w).
Proof. intros Hwf Hr. eapply WF_set_members; eauto. Qed.

Lemma WF_delete_member w room rm name :
  WF w → rooms w !! room = Some rm →
  WF (set_rooms (<[room:=Room.with_Clients (delete name) rm]>) w).
Proof.
  intros Hwf Hr. eapply WF_set_members; eauto.
  intros n l Hl. left. simpl in Hl. apply lookup_delete_Some in Hl. tauto.
Qed.

Lemma WF_set_server_Mutex w b :
  WF w → WF (set_server (Server.with_Mutex b) w).
Proof. by intros (H1 & H2 & H3). Qed.

(** ** Admission *)

Lemma insert_member_run w room rm name client :
  rooms w !! room = Some rm →
  insert_member room name client w
  = Done () (set_rooms (<[room:=Room.with_Clients (<[name:=client]>) rm]>) w).
Proof.
  intros Hr. unfold insert_member. by rewrite bind_run, (get_room_Some _ _ _ Hr).
Qed.

Lemma delete_member_run w room rm name :
  rooms w !! room = Some rm →
  delete_member room name w
  = Done () (set_rooms (<[room:=Room.with_Clients (delete name) rm]>) w).
Proof.
  intros Hr. unfold delete_member. by rewrite bind_run, (get_room_Some _ _ _ Hr).
Qed.

Lemma list_insert_alter_Some {A} (f : A → A) (l : list A) i x :
  l !! i = Some x → <[i:=f x]> l = alter f i l.
Proof.
  intros Hi. apply list_eq. intros j. destruct (decide (i = j)) as [<-|Hne].
  - rewrite list_lookup_insert_eq by by eapply lookup_lt_Some.
    by rewrite list_lookup_alter_eq, Hi.
  - by rewrite list_lookup_insert_ne, list_lookup_alter_ne.
Qed.

(** The connections after the eviction of the member called [name], if
    there is one. *)
Definition evicted_conns (w : World) (rm : Room.t) (name : string) : list Conn.t :=
  match Room.Clients rm !! name with
  | Some e =>
      match clients w !! e with
      | Some ec => alter Conn.close (Client.Socket ec) (conns w)
      | None => conns w
      end
  | None => conns w
  end.

Lemma length_evicted_conns w rm name :
  length (evicted_conns w rm name) = length (conns w).
Proof.
  unfold evicted_conns. destruct (Room.Clients rm !! name) as [e|]; [|done].
  destruct (clients w !! e); [|done]. apply length_alter.
Qed.

(** Lines 146-150 with the lock held. *)
Lemma handleWebSocket_evict_run w room rm client c :
  rooms w !! room = Some rm → clients w !! client = Some c →
  (∀ e, Room.Clients rm !! Client.Name c = Some e →
     ∃ ec, clients w !! e = Some ec ∧ Client.Socket ec < length (conns w)) →
  handleWebSocket_evict room client w
  = Done ()
      (mkWorld (server w)
         (<[room:=Room.with_Clients (delete (Client.Name c)) rm]> (rooms w))
         (clients w) (evicted_conns w rm (Client.Name c))).
Proof.
  intros Hr Hc He. unfold handleWebSocket_evict, evicted_conns.
  rewrite bind_run, (get_client_Some _ _ _ Hc).
  rewrite bind_run, (lookup_member_run _ _ _ _ Hr).
  destruct (Room.Clients rm !! Client.Name c) as [e|] eqn:Hmem.
  - destruct (He e eq_refl) as (ec & Hec & Hlt).
    apply lookup_lt_is_Some in Hlt as [cn Hcn].
    rewrite bind_run, (get_client_Some _ _ _ Hec).
    rewrite bind_run, (Socket_Close_run _ _ _ Hcn).
    rewrite (delete_member_run _ _ rm) by done.
    rewrite Hec. unfold set_rooms, set_conns. simpl.
    by rewrite (list_insert_alter_Some Conn.close _ _ _ Hcn).
  - unfold mret, M_ret. f_equal. destruct w as [sv rs cs cn]. simpl in *.
    f_equal. symmetry. apply list_insert_id. rewrite Hr. f_equal.
    destruct rm as [n m b]. unfold Room.with_Clients. simpl in *.
    f_equal. symmetry. by apply delete_id.
Qed.

(** Lines 144-152. *)
Lemma handleWebSocket_admit_run w room rm client c :
  rooms w !! room = Some rm → Room.Mutex rm = false →
  clients w !! client = Some c →
  (∀ e, Room.Clients rm !! Client.Name c = Some e →
     ∃ ec, clients w !! e = Some ec ∧ Client.Socket ec < length (conns w)) →
  handleWebSocket_admit room client w
  = Done ()
      (mkWorld (server w)
         (<[room:=Room.mk (Room.Name rm)
                    (<[Client.Name c:=client]> (Room.Clients rm)) false]> (rooms w))
         (clients w) (evicted_conns w rm (Client.Name c))).
Proof.
  intros Hr Hm Hc He. unfold handleWebSocket_admit.
  assert (Hlt : room < length (rooms w)) by by eapply lookup_lt_Some.
  rewrite bind_run, (Room_Lock_free _ _ _ Hr Hm).
  set (w1 := set_rooms _ w).
  assert (Hr1 : rooms w1 !! room = Some (Room.with_Mutex true rm)).
  { unfold w1. simpl. by apply list_lookup_insert_eq. }
  rewrite bind_run.
  rewrite (handleWebSocket_evict_run w1 room (Room.with_Mutex true rm) client c Hr1 Hc He).
  set (w2 := mkWorld _ _ _ _).
  assert (Hc2 : clients w2 !! client = Some c) by done.
  rewrite bind_run, (get_client_Some _ _ _ Hc2).
  assert (Hr2 : rooms w2 !! room
    = Some (Room.with_Clients (delete (Client.Name c)) (Room.with_Mutex true rm))).
  { unfold w2, w1. simpl. rewrite list_lookup_insert_eq; [done|].
    by rewrite length_insert. }
  rewrite bind_run, (insert_member_run _ _ _ _ _ Hr2).
  set (w3 := set_rooms _ w2).
  assert (Hr3 : rooms w3 !! room
    = Some (Room.mk (Room.Name rm)
              (<[Client.Name c:=client]> (delete (Client.Name c) (Room.Clients rm))) true)).
  { unfold w3, w2, w1. simpl. rewrite list_lookup_insert_eq; [done|].
    by rewrite !length_insert. }
  rewrite (Room_Unlock_held _ _ _ Hr3 eq_refl).
  unfold w3, w2, w1, set_rooms, Room.with_Mutex. simpl.
  rewrite !list_insert_insert_eq. by rewrite insert_delete_eq.
Qed.

(** C2: when the room has a member under the new client's name, the
    admission (lines 144-152) first closes that member's connection and
    deletes its entry, and only then inserts the new client: after the
    eviction the name has no entry and the connection is closed; after
    the admission the connection is still closed and the entries for the
    name are the single one of the new client. *)
Theorem admit_evicts_same_name w room rm client c e ec :
  well_formed w = true →
  rooms w !! room = Some rm → Room.Mutex rm = false →
  clients w !! client = Some c →
  Room.Clients rm !! Client.Name c = Some e → clients w !! e = Some ec →
  ∃ w_locked w_evicted w',
    Room_Lock room w = Done () w_locked
    ∧ handleWebSocket_evict room client w_locked = Done () w_evicted
    ∧ Conn.closed <$> conns w_evicted !! Client.Socket ec = Some true
    ∧ (∃ rm1, rooms w_evicted !! room = Some rm1
         ∧ Room.Clients rm1 = delete (Client.Name c) (Room.Clients rm))
    ∧ (c ← get_client client;
       insert_member room (Client.Name c) client;; Room_Unlock room) w_evicted
      = Done () w'
    ∧ handleWebSocket_admit room client w = Done () w'
    ∧ Conn.closed <$> conns w' !! Client.Socket ec = Some true
    ∧ ∃ rm', rooms w' !! room = Some rm'
        ∧ Room.Clients rm' = <[Client.Name c:=client]> (Room.Clients rm)
        ∧ filter (λ kv, kv.1 = Client.Name c) (Room.Clients rm')
          = {[Client.Name c := client]}.
Proof.
  intros Hwf Hr Hm Hc He Hec.
  assert (Hlt : room < length (rooms w)) by by eapply lookup_lt_Some.
  destruct (wf_member _ _ _ _ _ Hwf Hr He) as (ec' & Hec' & _ & _ & _ & Hsock & _).
  assert (ec' = ec) as -> by congruence.
  assert (Hev : ∀ e', Room.Clients rm !! Client.Name c = Some e' →
    ∃ ec', clients w !! e' = Some ec' ∧ Client.Socket ec' < length (conns w)).
  { intros e' He'. assert (e' = e) as -> by congruence. eauto. }
  pose proof (handleWebSocket_admit_run w room rm client c Hr Hm Hc Hev) as Hadmit.
  assert (Hclosed : Conn.closed <$> evicted_conns w rm (Client.Name c) !! Client.Socket ec
    = Some true).
  { unfold evicted_conns. rewrite He, Hec, list_lookup_alter_eq.
    apply lookup_lt_is_Some in Hsock as [cn ->]. done. }
  set (w1 := set_rooms (<[room:=Room.with_Mutex true rm]>) w).
  assert (Hr1 : rooms w1 !! room = Some (Room.with_Mutex true rm)).
  { unfold w1. simpl. by apply list_lookup_insert_eq. }
  pose proof (handleWebSocket_evict_run w1 room (Room.with_Mutex true rm) client c
                Hr1 Hc Hev) as Hevict.
  eexists w1, _, _. split; [by apply Room_Lock_free|].
  split; [exact Hevict|]. split; [exact Hclosed|]. split.
  { eexists. split.
    - unfold w1. simpl. apply list_lookup_insert_eq. by rewrite length_insert.
    - done. }
  split.
  { unfold handleWebSocket_admit in Hadmit.
    rewrite bind_run, (Room_Lock_free _ _ _ Hr Hm) in Hadmit. fold w1 in Hadmit.
    rewrite bind_run, Hevict in Hadmit. exact Hadmit. }
  split; [exact Hadmit|]. split; [exact Hclosed|].
  eexists. split; [by apply list_lookup_insert_eq|]. split; [done|]. simpl.
  apply map_eq. intros k. destruct (decide (k = Client.Name c)) as [->|Hne].
  - rewrite lookup_singleton_eq. apply map_lookup_filter_Some.
    by rewrite lookup_insert_eq.
  - rewrite lookup_singleton_ne by done. apply map_lookup_filter_None.
    right. intros x _. simpl. done.
Qed.

(** ** The peer list and the announcement *)

Lemma userList_loop_filter names self userList :
  userList_loop names self userList
  = userList ++ filter (λ name, name ≠ self) names.
Proof.
  revert userList. induction names as [|name rest IH]; intros userList; simpl.
  { by rewrite app_nil_r. }
  rewrite IH. rewrite filter_cons. destruct (decide (name ≠ self)); [|done].
  by rewrite <- app_assoc.
Qed.

Lemma handleWebSocket_userList_run w room rm client c :
  rooms w !! room = Some rm → Room.Mutex rm = false →
  clients w !! client = Some c →
  handleWebSocket_userList room client w
  = Done (filter (λ name, name ≠ Client.Name c) (range (Room.Clients rm)).*1) w.
Proof.
  intros Hr Hm Hc. unfold handleWebSocket_userList.
  rewrite bind_run, (Room_Lock_free _ _ _ Hr Hm).
  set (w1 := set_rooms _ w).
  assert (Hr1 : rooms w1 !! room = Some (Room.with_Mutex true rm)).
  { unfold w1. simpl. apply list_lookup_insert_eq. by eapply lookup_lt_Some. }
  assert (Hc1 : clients w1 !! client = Some c) by done.
  rewrite bind_run, (get_client_Some _ _ _ Hc1).
  rewrite bind_run, (get_room_Some _ _ _ Hr1).
  rewrite bind_run, (Room_Unlock_held _ _ _ Hr1 eq_refl).
  unfold w1. rewrite lock_unlock_world by done.
  by rewrite userList_loop_filter.
Qed.

(** The names the new client is told: those of the members other than
    itself, each once. *)
Lemma userList_others (m : gmap string loc) self :
  filter (λ name, name ≠ self) (range m).*1 ≡ₚ (map_to_list (delete self m)).*1.
Proof.
  apply NoDup_Permutation.
  - apply NoDup_filter, NoDup_range_fst.
  - apply NoDup_fst_map_to_list.
  - intros name. rewrite list_elem_of_filter, !list_elem_of_fmap. split.
    + intros [Hne [[n l] [-> Hin]]]. apply elem_of_range in Hin.
      exists (n, l). split; [done|]. apply elem_of_map_to_list.
      by rewrite lookup_delete_ne.
    + intros [[n l] [-> Hin]]. apply elem_of_map_to_list in Hin.
      apply lookup_delete_Some in Hin as [Hne Hin]. split; [done|].
      exists (n, l). split; [done|]. by apply elem_of_range.
Qed.

Lemma Send_run client c message w :
  clients w !! client = Some c → Chan.closed (Client.Send c) = false →
  Chan.full (Client.Send c) = false →
  Send client message w
  = Done () (set_clients (<[client:=Client.with_Send (Chan.push message) c]>) w).
Proof.
  intros Hc Ho Hf. unfold Send.
  by rewrite bind_run, (get_client_Some _ _ _ Hc), Ho, Hf.
Qed.

(** The members of the room registered as [roomName]; none when no room
    is. *)
Definition members (w : World) (roomName : string) : gmap string loc :=
  match Server.Rooms (server w) !! roomName with
  | Some r => from_option Room.Clients ∅ (rooms w !! r)
  | None => ∅
  end.

(** The room [GetOrCreateRoom] returns for [roomName]. *)
Definition room_of (w : World) (roomName : string) : loc :=
  default (length (rooms w)) (Server.Rooms (server w) !! roomName).

(** The lock of the room registered as [roomName] is free, if there is
    one. *)
Definition room_unlocked (w : World) (roomName : string) : bool :=
  match Server.Rooms (server w) !! roomName with
  | Some r => from_option (λ rm, negb (Room.Mutex rm)) true (rooms w !! r)
  | None => true
  end.

Definition room_free (w : World) (roomName : string) : Prop :=
  ∀ r rm, Server.Rooms (server w) !! roomName = Some r →
    rooms w !! r = Some rm → Room.Mutex rm = false.

Lemma room_unlocked_free w roomName :
  room_unlocked w roomName = true → room_free w roomName.
Proof.
  unfold room_unlocked. intros H r rm Hreg Hr. rewrite Hreg, Hr in H.
  by apply negb_true_iff in H.
Qed.

Lemma GetOrCreateRoom_room roomName w :
  WF w → Server.Mutex (server w) = false → room_free w roomName →
  ∃ w', GetOrCreateRoom roomName w = Done (room_of w roomName) w'
    ∧ rooms w' !! room_of w roomName
      = Some (Room.mk roomName (members w roomName) false)
    ∧ Server.Rooms (server w') = <[roomName:=room_of w roomName]> (Server.Rooms (server w))
    ∧ Server.Mutex (server w') = false
    ∧ clients w' = clients w ∧ conns w' = conns w ∧ WF w'
    ∧ (∀ c, nonmember w c → nonmember w' c).
Proof.
  intros Hwf Hm Hfree. rewrite (GetOrCreateRoom_run _ _ Hm).
  unfold room_of, members.
  destruct (Server.Rooms (server w) !! roomName) as [room|] eqn:Hreg; simpl.
  - exists w. destruct Hwf as (H1 & H2 & H3).
    destruct (H1 _ _ Hreg) as (rm & Hr & Hn). rewrite Hr. simpl.
    specialize (Hfree _ _ Hreg Hr).
    repeat split; try done.
    + destruct rm as [n m b]. simpl in *. by subst.
    + by rewrite insert_id.
  - eexists. split; [reflexivity|]. simpl.
    split; [by rewrite lookup_app_r, Nat.sub_diag|].
    do 4 (split; [done|]). split; [by apply WF_GetOrCreateRoom|].
    intros c Hnm r rm name Hr. simpl in Hr.
    apply lookup_app_Some in Hr as [Hr|[_ Hr]]; [by eapply Hnm|].
    apply list_lookup_singleton_Some in Hr as [_ <-]. simpl.
    by rewrite lookup_empty.
Qed.

Lemma handleWebSocket_loop_skip client socket cn pre incoming w :
  conns w !! socket = Some cn → Conn.closed cn = false →
  (∀ m n r, m ∈ pre → ¬ valid_join m n r) →
  handleWebSocket_loop client socket (pre ++ incoming) w
  = handleWebSocket_loop client socket incoming w.
Proof.
  intros Hs Ho. induction pre as [|message pre IH]; intros Hbad; [done|].
  rewrite <- IH by (intros m n r Hin; apply Hbad; by right).
  simpl. rewrite bind_run, (ReadMessage_open _ _ _ _ Hs Ho).
  destruct (json_Unmarshal message) as [data|] eqn:Hd; [|done]. simpl.
  pose proof (valid_join_test message data Hd) as Htest.
  destruct (decide (as_string (data !! "type") = "join")) as [Ht|Ht]; [|done].
  destruct (decide (as_string (data !! "name") = ""
                    ∨ as_string (data !! "room") = "")) as [He|He]; [done|].
  destruct (Hbad message (as_string (data !! "name")) (as_string (data !! "room")));
    [left|]. apply Htest. tauto.
Qed.

Lemma handleWebSocket_loop_join client socket cn message rest name roomName w :
  conns w !! socket = Some cn → Conn.closed cn = false →
  valid_join message name roomName →
  handleWebSocket_loop client socket (message :: rest) w
  = (handleWebSocket_join client name roomName;; mret (Some (client, rest))) w.
Proof.
  intros Hs Ho Hv. destruct Hv as (data & Hd & Ht & Hn & Hr & Hne1 & Hne2).
  assert (En : as_string (data !! "name") = name) by by rewrite Hn.
  assert (Er : as_string (data !! "room") = roomName) by by rewrite Hr.
  assert (Et : as_string (data !! "type") = "join") by by rewrite Ht.
  cbn [handleWebSocket_loop].
  rewrite bind_run, (ReadMessage_open _ _ _ _ Hs Ho), Hd. cbv zeta.
  rewrite En, Er, Et.
  destruct (decide ("join" = "join")) as [_|?]; [|done].
  destruct (decide (name = "" ∨ roomName = "")) as [?|_]; [tauto|done].
Qed.

Lemma evicted_conns_ext w w' rm name :
  conns w' = conns w →
  (∀ e, Room.Clients rm !! name = Some e → clients w' !! e = clients w !! e) →
  evicted_conns w' rm name = evicted_conns w rm name.
Proof.
  intros Hc He. unfold evicted_conns.
  destruct (Room.Clients rm !! name) as [e|]; [|done].
  by rewrite (He e eq_refl), Hc.
Qed.

(** The join up to the call of [Broadcast], from the state [u] in which
    the new client and its connection are allocated. *)
Lemma handleWebSocket_join_run u client socket name roomName :
  WF u → Server.Mutex (server u) = false → room_free u roomName →
  clients u !! client = Some (Client.mk "" socket (Chan.make Send_capacity) None) →
  nonmember u client → socket < length (conns u) → name ≠ "" →
  let room := room_of u roomName in
  let userList :=
    filter (λ n, n ≠ name) (range (<[name:=client]> (members u roomName))).*1 in
  ∃ w1,
    handleWebSocket_join client name roomName u
    = Broadcast room (json_Marshal (newUserMessage name)) name w1
    ∧ WF w1
    ∧ rooms w1 !! room
      = Some (Room.mk roomName (<[name:=client]> (members u roomName)) false)
    ∧ Server.Rooms (server w1) = <[roomName:=room]> (Server.Rooms (server u))
    ∧ Server.Mutex (server w1) = false
    ∧ clients w1
      = <[client:=Client.mk name socket
                    (Chan.mk [json_Marshal (userListMessage userList)]
                       Send_capacity false) (Some room)]> (clients u)
    ∧ conns w1
      = evicted_conns u (Room.mk roomName (members u roomName) false) name.
Proof.
  intros Hwf Hsm Hfree Hc Hnm Hsock Hname room userList.
  assert (Hclt : client < length (clients u)) by by eapply lookup_lt_Some.
  unfold handleWebSocket_join.
  (* client.Name = name *)
  rewrite bind_run, (get_client_Some _ _ _ Hc).
  rewrite bind_run. unfold put_client at 1, modify at 1.
  set (c1 := Client.with_Name name _). set (u1 := set_clients _ u).
  assert (Hwf1 : WF u1) by by apply WF_set_nonmember.
  (* room := server.GetOrCreateRoom(roomName) *)
  destruct (GetOrCreateRoom_room roomName u1 Hwf1 Hsm Hfree)
    as (u2 & Hget & Hr2 & Hreg2 & Hsm2 & Hcs2 & Hcn2 & Hwf2 & Hnm2).
  change (room_of u1 roomName) with room in *.
  change (members u1 roomName) with (members u roomName) in *.
  rewrite bind_run, Hget.
  (* client.Room = room *)
  assert (Hc2 : clients u2 !! client = Some c1).
  { rewrite Hcs2. unfold u1. simpl. by apply list_lookup_insert_eq. }
  rewrite bind_run, (get_client_Some _ _ _ Hc2).
  rewrite bind_run. unfold put_client at 1, modify at 1.
  set (c2 := Client.with_Room room c1). set (u3 := set_clients _ u2).
  assert (Hnm3 : nonmember u2 client) by (apply Hnm2; exact Hnm).
  assert (Hwf3 : WF u3) by by apply WF_set_nonmember.
  set (rm0 := Room.mk roomName (members u roomName) false) in *.
  assert (Hr3 : rooms u3 !! room = Some rm0) by done.
  assert (Hc3 : clients u3 !! client = Some c2).
  { unfold u3. simpl. apply list_lookup_insert_eq. rewrite Hcs2. unfold u1. simpl.
    by rewrite length_insert. }
  assert (Hother : ∀ e, e ≠ client → clients u3 !! e = clients u !! e).
  { intros e Hne. unfold u3. simpl. rewrite list_lookup_insert_ne by done.
    rewrite Hcs2. unfold u1. simpl. by rewrite list_lookup_insert_ne. }
  assert (Hcn3 : conns u3 = conns u) by done.
  (* the admission *)
  assert (Hev : ∀ e, Room.Clients rm0 !! Client.Name c2 = Some e →
    ∃ ec, clients u3 !! e = Some ec ∧ Client.Socket ec < length (conns u3)).
  { intros e He. destruct Hwf3 as (_ & _ & H3).
    destruct (H3 _ _ _ _ Hr3 He) as (ec & Hec & _ & _ & _ & Hs & _). eauto. }
  rewrite bind_run.
  rewrite (handleWebSocket_admit_run u3 room rm0 client c2 Hr3 eq_refl Hc3 Hev).
  change (Client.Name c2) with name. change (Room.Name rm0) with roomName.
  change (Room.Clients rm0) with (members u roomName).
  set (rm4 := Room.mk roomName _ false). set (u4 := mkWorld _ _ _ _).
  assert (Hrlt : room < length (rooms u3)) by by eapply lookup_lt_Some.
  assert (Hr4 : rooms u4 !! room = Some rm4).
  { unfold u4. simpl. by apply list_lookup_insert_eq. }
  assert (Hc4 : clients u4 !! client = Some c2) by done.
  (* the user list *)
  rewrite bind_run.
  rewrite (handleWebSocket_userList_run u4 room rm4 client c2 Hr4 eq_refl Hc4).
  change (Client.Name c2) with name. change (Room.Clients rm4)
    with (<[name:=client]> (members u roomName)). fold userList.
  (* client.Send <- userListJSON *)
  rewrite bind_run, (Send_run _ _ _ _ Hc4 eq_refl eq_refl).
  set (c5 := Client.with_Send _ c2). set (u5 := set_clients _ u4).
  assert (Hc5 : clients u5 !! client = Some c5).
  { unfold u5. simpl. apply list_lookup_insert_eq. by eapply lookup_lt_Some. }
  rewrite bind_run, (get_client_Some _ _ _ Hc5).
  change (Client.Name c5) with name.
  exists u5. split; [done|].
  assert (Hev_eq : evicted_conns u3 rm0 name = evicted_conns u rm0 name).
  { apply evicted_conns_ext; [done|]. intros e He. apply Hother.
    intros ->. by eapply Hnm3. }
  split.
  { (* well-formed *)
    apply (WF_update_member u4 client c2 c5); try done.
    apply (WF_conns (set_rooms (<[room:=rm4]>) u3)).
    - eapply (WF_set_members u3 room rm0 rm4); try done.
      intros n l Hl. unfold rm4 in Hl. simpl in Hl.
      apply lookup_insert_Some in Hl as [[<- <-]|[Hne Hl]]; [|by left].
      right. exists c2. repeat split; try done.
      rewrite Hcn3. exact Hsock.
    - simpl. by rewrite length_evicted_conns. }
  split; [done|]. split; [done|]. split; [done|]. split.
  - unfold u5, u4, u3. simpl. rewrite Hcs2. unfold u1. simpl.
    by rewrite !list_insert_insert_eq.
  - unfold u5, u4. simpl. exact Hev_eq.
Qed.

Lemma Broadcast_run_wf w r rm message exclude :
  WF w → rooms w !! r = Some rm → Room.Mutex rm = false →
  ∃ w', Broadcast r message exclude w = Done () w'
    ∧ server w' = server w ∧ rooms w' = rooms w ∧ conns w' = conns w
    ∧ (∀ l, (∃ name, Room.Clients rm !! name = Some l ∧ name ≠ exclude) →
         clients w' !! l = deliver message <$> clients w !! l)
    ∧ (∀ l, (∀ name, Room.Clients rm !! name = Some l → name = exclude) →
         clients w' !! l = clients w !! l).
Proof.
  intros Hwf%well_formed_WF Hr Hm.
  destruct (Broadcast_run w r rm message exclude Hr Hm)
    as (w' & Hrun & Hs & Hrs & Hcn & Hyes & Hno).
  { by eapply wf_NoDup_members. }
  { by eapply wf_entries_open. }
  exists w'. do 4 (split; [done|]). split.
  - intros l [name [Hl Hne]]. apply Hyes. exists name. by rewrite elem_of_range.
  - intros l Hl. apply Hno. intros [name [Hin Hne]].
    apply elem_of_range in Hin. by apply Hne, Hl.
Qed.

(** The join is its two parts, one after the other. *)
Lemma handleWebSocket_join_parts client name roomName u :
  handleWebSocket_join client name roomName u
  = (room ← handleWebSocket_join_until_send client name roomName;
     handleWebSocket_join_broadcast room client) u.
Proof.
  unfold handleWebSocket_join, handleWebSocket_join_until_send,
    handleWebSocket_join_broadcast. cbv zeta. symmetry.
  repeat (rewrite bind_assoc; apply bind_ext; intros ? ?).
  reflexivity.
Qed.

(** The first part, from the state [u] in which the new client and its
    connection are allocated. *)
Lemma handleWebSocket_join_until_send_run u client socket name roomName :
  WF u → Server.Mutex (server u) = false → room_free u roomName →
  clients u !! client = Some (Client.mk "" socket (Chan.make Send_capacity) None) →
  nonmember u client → socket < length (conns u) → name ≠ "" →
  let room := room_of u roomName in
  let userList :=
    filter (λ n, n ≠ name) (range (<[name:=client]> (members u roomName))).*1 in
  ∃ w1,
    handleWebSocket_join_until_send client name roomName u = Done room w1
    ∧ WF w1
    ∧ rooms w1 !! room
      = Some (Room.mk roomName (<[name:=client]> (members u roomName)) false)
    ∧ Server.Rooms (server w1) = <[roomName:=room]> (Server.Rooms (server u))
    ∧ clients w1
      = <[client:=Client.mk name socket
                    (Chan.mk [json_Marshal (userListMessage userList)]
                       Send_capacity false) (Some room)]> (clients u).
Proof.
  intros Hwf Hsm Hfree Hc Hnm Hsock Hname room userList.
  assert (Hclt : client < length (clients u)) by by eapply lookup_lt_Some.
  unfold handleWebSocket_join_until_send.
  rewrite bind_run, (get_client_Some _ _ _ Hc).
  rewrite bind_run. unfold put_client at 1, modify at 1.
  set (c1 := Client.with_Name name _). set (u1 := set_clients _ u).
  assert (Hwf1 : WF u1) by by apply WF_set_nonmember.
  destruct (GetOrCreateRoom_room roomName u1 Hwf1 Hsm Hfree)
    as (u2 & Hget & Hr2 & Hreg2 & Hsm2 & Hcs2 & Hcn2 & Hwf2 & Hnm2).
  change (room_of u1 roomName) with room in *.
  change (members u1 roomName) with (members u roomName) in *.
  rewrite bind_run, Hget.
  assert (Hc2 : clients u2 !! client = Some c1).
  { rewrite Hcs2. unfold u1. simpl. by apply list_lookup_insert_eq. }
  rewrite bind_run, (get_client_Some _ _ _ Hc2).
  rewrite bind_run. unfold put_client at 1, modify at 1.
  set (c2 := Client.with_Room room c1). set (u3 := set_clients _ u2).
  assert (Hnm3 : nonmember u2 client) by (apply Hnm2; exact Hnm).
  assert (Hwf3 : WF u3) by by apply WF_set_nonmember.
  set (rm0 := Room.mk roomName (members u roomName) false) in *.
  assert (Hr3 : rooms u3 !! room = Some rm0) by done.
  assert (Hc3 : clients u3 !! client = Some c2).
  { unfold u3. simpl. apply list_lookup_insert_eq. rewrite Hcs2. unfold u1. simpl.
    by rewrite length_insert. }
  assert (Hcn3 : conns u3 = conns u) by done.
  assert (Hev : ∀ e, Room.Clients rm0 !! Client.Name c2 = Some e →
    ∃ ec, clients u3 !! e = Some ec ∧ Client.Socket ec < length (conns u3)).
  { intros e He. destruct Hwf3 as (_ & _ & H3).
    destruct (H3 _ _ _ _ Hr3 He) as (ec & Hec & _ & _ & _ & Hs & _). eauto. }
  rewrite bind_run.
  rewrite (handleWebSocket_admit_run u3 room rm0 client c2 Hr3 eq_refl Hc3 Hev).
  change (Client.Name c2) with name. change (Room.Name rm0) with roomName.
  change (Room.Clients rm0) with (members u roomName).
  set (rm4 := Room.mk roomName _ false). set (u4 := mkWorld _ _ _ _).
  assert (Hrlt : room < length (rooms u3)) by by eapply lookup_lt_Some.
  assert (Hr4 : rooms u4 !! room = Some rm4).
  { unfold u4. simpl. by apply list_lookup_insert_eq. }
  assert (Hc4 : clients u4 !! client = Some c2) by done.
  rewrite bind_run.
  rewrite (handleWebSocket_userList_run u4 room rm4 client c2 Hr4 eq_refl Hc4).
  change (Client.Name c2) with name. change (Room.Clients rm4)
    with (<[name:=client]> (members u roomName)). fold userList.
  rewrite bind_run, (Send_run _ _ _ _ Hc4 eq_refl eq_refl).
  set (c5 := Client.with_Send _ c2). set (u5 := set_clients _ u4).
  exists u5. split; [done|]. split.
  { apply (WF_update_member u4 client c2 c5); try done.
    apply (WF_conns (set_rooms (<[room:=rm4]>) u3)).
    - eapply (WF_set_members u3 room rm0 rm4); try done.
      intros n l Hl. unfold rm4 in Hl. simpl in Hl.
      apply lookup_insert_Some in Hl as [[<- <-]|[Hne Hl]]; [|by left].
      right. exists c2. repeat split; try done.
      rewrite Hcn3. exact Hsock.
    - simpl. by rewrite length_evicted_conns. }
  split; [done|]. split; [done|].
  unfold u5, u4, u3. simpl. rewrite Hcs2. unfold u1. simpl.
  by rewrite !list_insert_insert_eq.
Qed.

(** C1: at the first valid join of a connection, [handleWebSocket] runs,
    from the state [w0] in which the connection and the client record are
    allocated, the first part of the join (lines 138-173) and then the
    second (lines 175-181), and returns the new client.  The first part
    ends in a state [w1] in which the queue of the new client holds one
    message, the encoding of the object with [type] [user-list] and, as
    [users], the names of the other members of the room, each once, and
    in which no other queue has changed.  The second part, run from [w1],
    is the [Broadcast] of the encoding of the object with [type]
    [new-user] and, as [name], the name of the new client, excluding that
    name: it returns, the other members have that message appended
    (unless their queue is full), and no other queue changes. *)
Theorem join_sends_user_list_then_new_user w pre message rest name roomName :
  well_formed w = true → Server.Mutex (server w) = false →
  room_unlocked w roomName = true →
  (∀ m n r, m ∈ pre → ¬ valid_join m n r) →
  valid_join message name roomName →
  let client := length (clients w) in
  let socket := length (conns w) in
  let room := room_of w roomName in
  let others := delete name (members w roomName) in
  let userListJSON (userList : list string) :=
    json_Marshal {[ "type" := JString "user-list";
                    "users" := JArray (JString <$> userList) ]} in
  let newUserJSON :=
    json_Marshal {[ "type" := JString "new-user"; "name" := JString name ]} in
  let w0 :=
    mkWorld (server w) (rooms w)
      (clients w ++ [Client.mk "" socket (Chan.mk [] 256 false) None])
      (conns w ++ [Conn.mk false []]) in
  ∃ userList w1 w',
    handleWebSocket true (pre ++ message :: rest) w = Done (Some (client, rest)) w'
    ∧ handleWebSocket true (pre ++ message :: rest) w
      = (room ← handleWebSocket_join_until_send client name roomName;
         handleWebSocket_join_broadcast room client;;
         mret (Some (client, rest))) w0
    ∧ handleWebSocket_join_until_send client name roomName w0 = Done room w1
    ∧ handleWebSocket_join_broadcast room client w1
      = Broadcast room newUserJSON name w1
    ∧ Broadcast room newUserJSON name w1 = Done () w'
    ∧ userList ≡ₚ (map_to_list others).*1
    ∧ clients w1
      = clients w
        ++ [Client.mk name socket
              (Chan.mk [userListJSON userList] 256 false) (Some room)]
    ∧ Server.Rooms (server w') !! roomName = Some room
    ∧ Room.Clients <$> rooms w' !! room = Some (<[name:=client]> others)
    ∧ clients w' !! client = clients w1 !! client
    ∧ (∀ n l c, others !! n = Some l → clients w !! l = Some c →
         clients w' !! l
         = Some (if Chan.full (Client.Send c) then c
                 else Client.with_Send (Chan.push newUserJSON) c))
    ∧ (∀ l, l < length (clients w) → (∀ n, others !! n ≠ Some l) →
         clients w' !! l = clients w !! l).
Proof.
  intros Hwf%well_formed_WF Hsm Hfree%room_unlocked_free Hpre Hv
    client socket room others userListJSON newUserJSON w0.
  assert (Hname : name ≠ "") by (destruct Hv as (? & ? & ? & ? & ? & ? & ?); done).
  assert (Hs : conns w0 !! socket = Some (Conn.mk false [])).
  { unfold w0. simpl. by rewrite lookup_app_r, Nat.sub_diag. }
  assert (Hrun0 : handleWebSocket true (pre ++ message :: rest) w
                  = (handleWebSocket_join client name roomName;;
                     mret (Some (client, rest))) w0).
  { unfold handleWebSocket. rewrite bind_run. unfold new_conn at 1.
    rewrite bind_run. unfold new_client at 1.
    change (set_clients _ (set_conns _ w)) with w0.
    simpl length. fold client socket.
    rewrite (handleWebSocket_loop_skip _ _ _ _ _ _ Hs eq_refl Hpre).
    by rewrite (handleWebSocket_loop_join _ _ _ _ _ _ _ _ Hs eq_refl Hv). }
  assert (Hwf0 : WF w0).
  { apply (WF_clients_app (set_conns (λ l, l ++ [Conn.mk false []]) w)).
    apply (WF_conns w); [done|]. rewrite length_app. lia. }
  assert (Hc0 : clients w0 !! client
                = Some (Client.mk "" socket (Chan.make Send_capacity) None)).
  { unfold w0. simpl. by rewrite lookup_app_r, Nat.sub_diag. }
  assert (Hnm0 : nonmember w0 client) by by apply (WF_nonmember_fresh w).
  assert (Hsock0 : socket < length (conns w0)).
  { unfold w0. simpl. rewrite length_app. simpl. unfold socket. lia. }
  destruct (handleWebSocket_join_until_send_run w0 client socket name roomName
              Hwf0 Hsm Hfree Hc0 Hnm0 Hsock0 Hname)
    as (w1 & Hsend & Hwf1 & Hr1 & Hreg1 & Hcs1).
  change (room_of w0 roomName) with room in *.
  change (members w0 roomName) with (members w roomName) in *.
  set (userList := filter _ _) in Hcs1.
  set (c3 := Client.mk name socket _ (Some room)) in *.
  assert (Hcs1' : clients w1 = clients w ++ [c3]).
  { rewrite Hcs1. unfold w0. simpl. unfold client.
    rewrite <- (Nat.add_0_r (length (clients w))) at 1. by rewrite insert_app_r. }
  assert (Hc1 : clients w1 !! client = Some c3).
  { rewrite Hcs1'. unfold client. by rewrite lookup_app_r, Nat.sub_diag. }
  assert (Hcast : handleWebSocket_join_broadcast room client w1
                  = Broadcast room newUserJSON name w1).
  { unfold handleWebSocket_join_broadcast.
    by rewrite bind_run, (get_client_Some _ _ _ Hc1). }
  destruct (Broadcast_run_wf w1 room _ newUserJSON name Hwf1 Hr1 eq_refl)
    as (w' & Hrun & Hs' & Hrs' & Hcn' & Hyes & Hno). simpl in Hyes, Hno.
  assert (Hmem : ∀ n l, others !! n = Some l ↔
    (<[name:=client]> (members w roomName) !! n = Some l ∧ n ≠ name)).
  { intros n l. unfold others. rewrite lookup_delete_Some.
    rewrite lookup_insert_Some. intuition congruence. }
  assert (Hin_w : ∀ n l, others !! n = Some l → l < length (clients w)).
  { intros n l Hl. unfold others in Hl. apply lookup_delete_Some in Hl as [_ Hl].
    unfold members in Hl.
    destruct (Server.Rooms (server w) !! roomName) as [r|];
      [|by rewrite lookup_empty in Hl].
    destruct (rooms w !! r) as [rm|] eqn:Hrm; simpl in Hl;
      [|by rewrite lookup_empty in Hl].
    destruct Hwf as (_ & _ & H3).
    destruct (H3 _ _ _ _ Hrm Hl) as (c & Hc & _). by eapply lookup_lt_Some. }
  assert (Hparts : handleWebSocket true (pre ++ message :: rest) w
                   = (room ← handleWebSocket_join_until_send client name roomName;
                      handleWebSocket_join_broadcast room client;;
                      mret (Some (client, rest))) w0).
  { rewrite Hrun0, (bind_run (handleWebSocket_join _ _ _)),
      handleWebSocket_join_parts, <- bind_run. apply bind_assoc. }
  exists userList, w1, w'.
  split.
  { by rewrite Hparts, bind_run, Hsend, bind_run, Hcast, Hrun. }
  split; [exact Hparts|]. split; [exact Hsend|]. split; [exact Hcast|].
  split; [exact Hrun|]. split.
  { unfold userList. rewrite userList_others. unfold others.
    by rewrite delete_insert_eq. }
  split; [exact Hcs1'|]. split.
  { by rewrite Hs', Hreg1, lookup_insert_eq. }
  split.
  { rewrite Hrs', Hr1. simpl. unfold others. by rewrite insert_delete_eq. }
  split.
  { apply Hno. intros n Hn. destruct (decide (n = name)) as [|Hne]; [done|].
    assert (Hl : others !! n = Some client) by by apply Hmem.
    apply Hin_w in Hl. unfold client in Hl. lia. }
  split.
  - intros n l c Hl Hc. rewrite Hyes.
    + rewrite Hcs1', lookup_app_l by by eapply Hin_w. by rewrite Hc.
    + exists n. by apply Hmem.
  - intros l Hlt Hnot. rewrite Hno.
    + by rewrite Hcs1', lookup_app_l.
    + intros n Hn. destruct (decide (n = name)) as [|Hne]; [done|].
      destruct (Hnot n). by apply Hmem.
Qed.

(** ** Invariants of the calls

    The goroutines of the server make these calls; a state of the
    server is reached from [initial] by a sequence of them, each run
    until it returns, waits or panics. *)

Inductive call : Type :=
| call_handleWebSocket (upgraded : bool) (incoming : list bytes)
| call_readMessages (c : loc) (incoming : list bytes)
| call_dispatch (c : loc) (message : bytes)
| call_deferred (c : loc)
| call_writeMessages (c : loc).

(** The state a call ends in. *)
Definition run (k : call) (w : World) : World :=
  match k with
  | call_handleWebSocket upgraded incoming =>
      final (handleWebSocket upgraded incoming w)
  | call_readMessages c incoming => final (readMessages c incoming w)
  | call_dispatch c message => final (readMessages_dispatch c message w)
  | call_deferred c => final (readMessages_deferred c w)
  | call_writeMessages c => final (writeMessages c w)
  end.

Definition after (calls : list call) (w : World) : World :=
  foldl (λ w k, run k w) w calls.

(** [J] holds at the end of [m], however it ends, when it holds at its
    start. *)
Definition inv {A} (J : World → Prop) (m : M A) : Prop :=
  ∀ w, J w → J (final (m w)).

Lemma inv_bind {A B} J (m : M A) (f : A → M B) :
  inv J m → (∀ a, inv J (f a)) → inv J (m ≫= f).
Proof.
  intros Hm Hf w HJ. rewrite bind_run. specialize (Hm w HJ).
  destruct (m w) as [a w1|w1|w1]; simpl in *; [|done..]. by apply Hf.
Qed.

Lemma inv_ret {A} J (a : A) : inv J (mret a : M A).
Proof. by intros w. Qed.

Lemma inv_block {A} J : inv J (block : M A).
Proof. by intros w. Qed.

Lemma inv_panic {A} J : inv J (panic : M A).
Proof. by intros w. Qed.

Lemma inv_keeps {T A} J (obs : World → T) (m : M A) :
  (∀ w w', obs w' = obs w → J w → J w') → keeps obs m → inv J m.
Proof. intros HJ Hk w Hw. apply (HJ w); [apply Hk|exact Hw]. Qed.

(** What leaves the rooms alone. *)
Lemma keeps_rooms_Server_Lock : keeps rooms Server_Lock.
Proof. intros w. unfold Server_Lock. by destruct (Server.Mutex (server w)). Qed.

Lemma keeps_rooms_Server_Unlock : keeps rooms Server_Unlock.
Proof. intros w. unfold Server_Unlock. by destruct (Server.Mutex (server w)). Qed.

Ltac keeps_unfold :=
  unfold trySend, Send, close_Send, Socket_Close, WriteMessage, receive,
    ReadMessage, put_client, put_conn, lookup_member.

Lemma keeps_rooms_trySend client message : keeps rooms (trySend client message).
Proof. keeps_unfold. repeat keeps_step. Qed.

Lemma keeps_rooms_Send client message : keeps rooms (Send client message).
Proof. keeps_unfold. repeat keeps_step. Qed.

Lemma keeps_rooms_close_Send client : keeps rooms (close_Send client).
Proof. keeps_unfold. repeat keeps_step. Qed.

Lemma keeps_rooms_Socket_Close socket : keeps rooms (Socket_Close socket).
Proof. keeps_unfold. repeat keeps_step. Qed.

Lemma keeps_rooms_WriteMessage socket message :
  keeps rooms (WriteMessage socket message).
Proof. keeps_unfold. repeat keeps_step. Qed.

Lemma keeps_rooms_receive client : keeps rooms (receive client).
Proof.
  keeps_unfold. apply keeps_bind; [auto with keeps|]. intros c.
  destruct (Chan.buf (Client.Send c)); repeat keeps_step.
Qed.

Lemma keeps_rooms_put_client client c : keeps rooms (put_client client c).
Proof. keeps_unfold. repeat keeps_step. Qed.

Lemma keeps_rooms_writeMessages_loop c n : keeps rooms (writeMessages_loop c n).
Proof.
  induction n as [|n IH]; simpl; [auto with keeps|].
  apply keeps_bind; [auto with keeps|]. intros cl.
  apply keeps_bind; [apply keeps_rooms_receive|]. intros [message|]; [|auto with keeps].
  apply keeps_bind; [apply keeps_rooms_WriteMessage|]. intros [|]; auto with keeps.
Qed.

Lemma keeps_rooms_writeMessages c : keeps rooms (writeMessages c).
Proof.
  unfold writeMessages. apply keeps_bind; [auto with keeps|]. intros cl.
  apply keeps_bind; [apply keeps_rooms_writeMessages_loop|]. intros _.
  apply keeps_rooms_Socket_Close.
Qed.

(** *** A lock that is held stays held

    In every function an [Unlock] of a room follows a [Lock] of that
    room in the same call; so once a goroutine waits for a lock it holds
    itself, no call releases that lock. *)

Definition held (r : loc) (w : World) : Prop :=
  Room.Mutex <$> rooms w !! r = Some true.

Lemma held_rooms r w w' : rooms w' = rooms w → held r w → held r w'.
Proof. unfold held. by intros ->. Qed.

Lemma held_keeps {A} r (m : M A) : keeps rooms m → inv (held r) m.
Proof. apply inv_keeps, held_rooms. Qed.

Lemma held_Lock_then {B} r r' (k : M B) :
  (r' ≠ r → inv (held r) k) → inv (held r) (Room_Lock r';; k).
Proof.
  intros Hk w Hw. rewrite bind_run. unfold Room_Lock.
  rewrite bind_run. unfold get_room.
  destruct (rooms w !! r') as [rm|] eqn:Hr'; [|done].
  destruct (Room.Mutex rm) eqn:Hm; [done|].
  assert (Hne : r' ≠ r).
  { intros ->. unfold held in Hw. rewrite Hr' in Hw. simpl in Hw. congruence. }
  simpl. apply (Hk Hne). unfold held. simpl.
  by rewrite list_lookup_insert_ne.
Qed.

Lemma held_Unlock r r' : r' ≠ r → inv (held r) (Room_Unlock r').
Proof.
  intros Hne w Hw. unfold Room_Unlock. rewrite bind_run. unfold get_room.
  destruct (rooms w !! r') as [rm|]; [|done].
  destruct (Room.Mutex rm); [|done]. simpl. unfold held. simpl.
  by rewrite list_lookup_insert_ne.
Qed.

Lemma held_with_Clients r r' f :
  inv (held r) (rm ← get_room r'; put_room r' (Room.with_Clients f rm)).
Proof.
  intros w Hw. rewrite bind_run. unfold get_room.
  destruct (rooms w !! r') as [rm|] eqn:Hr'; [|done]. simpl.
  unfold held in *. simpl. destruct (decide (r' = r)) as [->|Hne].
  - rewrite list_lookup_insert_eq by by eapply lookup_lt_Some.
    by rewrite Hr' in Hw.
  - by rewrite list_lookup_insert_ne.
Qed.

Lemma held_new_room r rm : inv (held r) (new_room rm).
Proof.
  intros w Hw. unfold held in *. simpl.
  destruct (rooms w !! r) as [rm'|] eqn:Hr; [|done].
  by rewrite (lookup_app_l_Some _ _ _ _ Hr).
Qed.

Lemma held_GetOrCreateRoom r roomName : inv (held r) (GetOrCreateRoom roomName).
Proof.
  unfold GetOrCreateRoom.
  apply inv_bind; [apply held_keeps, keeps_rooms_Server_Lock|]. intros _.
  apply inv_bind; [by intros w|]. intros s.
  destruct (Server.Rooms s !! roomName).
  - apply inv_bind; [apply held_keeps, keeps_rooms_Server_Unlock|]. intros _.
    apply inv_ret.
  - apply inv_bind; [apply held_new_room|]. intros room.
    apply inv_bind; [by intros w|]. intros _.
    apply inv_bind; [apply held_keeps, keeps_rooms_Server_Unlock|]. intros _.
    apply inv_ret.
Qed.

Lemma held_Broadcast_loop r entries message exclude :
  inv (held r) (Broadcast_loop entries message exclude).
Proof.
  induction entries as [|[name client] rest IH]; simpl; [apply inv_ret|].
  apply inv_bind; [|by intros _]. case_decide; [|apply inv_ret].
  apply inv_bind; [apply held_keeps, keeps_rooms_trySend|]. intros _. apply inv_ret.
Qed.

Lemma held_Broadcast r r' message exclude :
  inv (held r) (Broadcast r' message exclude).
Proof.
  unfold Broadcast. apply held_Lock_then. intros Hne.
  apply inv_bind; [apply held_keeps; auto with keeps|]. intros rm.
  apply inv_bind; [apply held_Broadcast_loop|]. intros _. by apply held_Unlock.
Qed.

Lemma held_RemoveClient r r' clientName :
  inv (held r) (RemoveClient r' clientName).
Proof.
  unfold RemoveClient. apply held_Lock_then. intros Hne.
  apply (inv_bind _ (get_room r')); [apply held_keeps; auto with keeps|]. intros rm.
  apply inv_bind.
  { intros w Hw. unfold held in *. simpl.
    destruct (decide (r' = r)) as [->|Hne']; [done|].
    by rewrite list_lookup_insert_ne. }
  intros _. apply inv_bind; [apply held_Broadcast|]. intros _. by apply held_Unlock.
Qed.

Lemma held_handleWebSocket_admit r room client :
  inv (held r) (handleWebSocket_admit room client).
Proof.
  unfold handleWebSocket_admit. apply held_Lock_then. intros Hne.
  apply inv_bind.
  { unfold handleWebSocket_evict.
    apply inv_bind; [apply held_keeps; auto with keeps|]. intros c.
    apply inv_bind; [apply held_keeps; auto with keeps|]. intros [e|]; [|apply inv_ret].
    apply inv_bind; [apply held_keeps; auto with keeps|]. intros ec.
    apply inv_bind; [apply held_keeps, keeps_rooms_Socket_Close|]. intros _.
    apply held_with_Clients. }
  intros _. apply inv_bind; [apply held_keeps; auto with keeps|]. intros c.
  apply inv_bind; [apply held_with_Clients|]. intros _. by apply held_Unlock.
Qed.

Lemma held_handleWebSocket_userList r room client :
  inv (held r) (handleWebSocket_userList room client).
Proof.
  unfold handleWebSocket_userList. apply held_Lock_then. intros Hne.
  apply inv_bind; [apply held_keeps; auto with keeps|]. intros c.
  apply inv_bind; [apply held_keeps; auto with keeps|]. intros rm.
  apply inv_bind; [by apply held_Unlock|]. intros _. apply inv_ret.
Qed.

Lemma held_handleWebSocket_join r client name roomName :
  inv (held r) (handleWebSocket_join client name roomName).
Proof.
  unfold handleWebSocket_join.
  apply inv_bind; [apply held_keeps; auto with keeps|]. intros c.
  apply inv_bind; [apply held_keeps, keeps_rooms_put_client|]. intros _.
  apply inv_bind; [apply held_GetOrCreateRoom|]. intros room.
  apply inv_bind; [apply held_keeps; auto with keeps|]. intros c'.
  apply inv_bind; [apply held_keeps, keeps_rooms_put_client|]. intros _.
  apply inv_bind; [apply held_handleWebSocket_admit|]. intros _.
  apply inv_bind; [apply held_handleWebSocket_userList|]. intros userList.
  apply inv_bind; [apply held_keeps, keeps_rooms_Send|]. intros _.
  apply inv_bind; [apply held_keeps; auto with keeps|]. intros c''.
  apply held_Broadcast.
Qed.

Lemma held_handleWebSocket_loop r client socket incoming :
  inv (held r) (handleWebSocket_loop client socket incoming).
Proof.
  assert (Hend : inv (held r) (Socket_Close socket;; mret None
                               : M (option (loc * list bytes)))).
  { apply inv_bind; [apply held_keeps, keeps_rooms_Socket_Close|]. intros _.
    apply inv_ret. }
  induction incoming as [|message rest IH]; simpl.
  - apply inv_bind; [apply held_keeps, ReadMessage_keeps|]. by intros _.
  - apply inv_bind; [apply held_keeps, ReadMessage_keeps|]. intros [m|]; [|done].
    destruct (json_Unmarshal m) as [data|]; [|done]. simpl.
    repeat case_decide; try done.
    apply inv_bind; [apply held_handleWebSocket_join|]. intros _. apply inv_ret.
Qed.

Lemma held_handleWebSocket r upgraded incoming :
  inv (held r) (handleWebSocket upgraded incoming).
Proof.
  unfold handleWebSocket. destruct upgraded; [|apply inv_ret].
  apply inv_bind; [by intros w|]. intros socket.
  apply inv_bind; [by intros w|]. intros client.
  apply held_handleWebSocket_loop.
Qed.

Lemma held_readMessages_dispatch r c message :
  inv (held r) (readMessages_dispatch c message).
Proof.
  unfold readMessages_dispatch.
  destruct (json_Unmarshal message) as [data|]; [|apply inv_ret]. simpl.
  repeat case_decide; try apply inv_ret.
  apply inv_bind; [|intros _; apply inv_ret].
  unfold readMessages_forward.
  apply inv_bind; [apply held_keeps; auto with keeps|]. intros cl.
  destruct (Client.Room cl) as [room|]; [|apply inv_panic].
  apply held_Lock_then. intros Hne.
  apply inv_bind; [apply held_keeps; auto with keeps|]. intros target.
  apply inv_bind; [by apply held_Unlock|]. intros _.
  destruct target; [|apply inv_ret].
  apply inv_bind; [apply held_keeps, keeps_rooms_trySend|]. intros _. apply inv_ret.
Qed.

Lemma held_readMessages_loop r c incoming :
  inv (held r) (readMessages_loop c incoming).
Proof.
  induction incoming as [|message rest IH]; simpl.
  - apply inv_bind; [apply held_keeps; auto with keeps|]. intros cl.
    apply inv_bind; [apply held_keeps, ReadMessage_keeps|]. intros _. apply inv_ret.
  - apply inv_bind; [apply held_keeps; auto with keeps|]. intros cl.
    apply inv_bind; [apply held_keeps, ReadMessage_keeps|]. intros [m|]; [|apply inv_ret].
    apply inv_bind; [apply held_readMessages_dispatch|]. intros [|]; [done|apply inv_ret].
Qed.

Lemma held_readMessages_deferred r c : inv (held r) (readMessages_deferred c).
Proof.
  unfold readMessages_deferred.
  apply inv_bind; [apply held_keeps; auto with keeps|]. intros cl.
  apply inv_bind.
  { destruct (Client.Room cl); [apply held_RemoveClient|apply inv_panic]. }
  intros _. apply inv_bind; [apply held_keeps, keeps_rooms_Socket_Close|]. intros _.
  apply held_keeps, keeps_rooms_close_Send.
Qed.

Lemma held_run r k w : held r w → held r (run k w).
Proof.
  destruct k; simpl.
  - apply held_handleWebSocket.
  - apply (inv_bind _ (readMessages_loop c incoming)).
    + apply held_readMessages_loop.
    + intros _. apply held_readMessages_deferred.
  - apply held_readMessages_dispatch.
  - apply held_readMessages_deferred.
  - apply held_keeps, keeps_rooms_writeMessages.
Qed.

Lemma held_after r calls w : held r w → held r (after calls w).
Proof.
  revert w. induction calls as [|k calls IH]; intros w Hw; [done|].
  simpl. by apply IH, held_run.
Qed.

(** *** Well-formedness is kept by every call *)

Lemma inv_never_returns_bind {A B} J (m : M A) (f : A → M B) :
  never_returns m → inv J m → inv J (m ≫= f).
Proof.
  intros Hn Hm w Hw. rewrite bind_run. specialize (Hm w Hw). specialize (Hn w).
  destruct (m w) as [a w1|w1|w1]; [|done..]. by destruct (Hn a w1).
Qed.

Lemma inv_get_room J r : inv J (get_room r).
Proof. intros w Hw. unfold get_room. by destruct (rooms w !! r). Qed.

Lemma inv_get_client J c : inv J (get_client c).
Proof. intros w Hw. unfold get_client. by destruct (clients w !! c). Qed.

Lemma inv_get_conn J s : inv J (get_conn s).
Proof. intros w Hw. unfold get_conn. by destruct (conns w !! s). Qed.

Lemma inv_lookup_member J r name : inv J (lookup_member r name).
Proof.
  unfold lookup_member. apply inv_bind; [apply inv_get_room|]. intros rm.
  apply inv_ret.
Qed.

Lemma WF_Room_Lock r : inv WF (Room_Lock r).
Proof.
  intros w Hw. unfold Room_Lock. rewrite bind_run. unfold get_room.
  destruct (rooms w !! r) as [rm|] eqn:Hr; [|done].
  destruct (Room.Mutex rm); [done|]. by apply WF_set_Mutex.
Qed.

Lemma WF_Room_Unlock r : inv WF (Room_Unlock r).
Proof.
  intros w Hw. unfold Room_Unlock. rewrite bind_run. unfold get_room.
  destruct (rooms w !! r) as [rm|] eqn:Hr; [|done].
  destruct (Room.Mutex rm); [|done]. by apply WF_set_Mutex.
Qed.

Lemma WF_trySend client message : inv WF (trySend client message).
Proof.
  intros w Hw. unfold trySend. rewrite bind_run. unfold get_client.
  destruct (clients w !! client) as [c|] eqn:Hc; [|done].
  destruct (Chan.closed (Client.Send c)); [done|].
  destruct (Chan.full (Client.Send c)); [done|].
  by apply (WF_update_member w client c).
Qed.

Lemma WF_Send client message : inv WF (Send client message).
Proof.
  intros w Hw. unfold Send. rewrite bind_run. unfold get_client.
  destruct (clients w !! client) as [c|] eqn:Hc; [|done].
  destruct (Chan.closed (Client.Send c)); [done|].
  destruct (Chan.full (Client.Send c)); [done|].
  by apply (WF_update_member w client c).
Qed.

Lemma WF_receive client : inv WF (receive client).
Proof.
  intros w Hw. unfold receive. rewrite bind_run. unfold get_client.
  destruct (clients w !! client) as [c|] eqn:Hc; [|done].
  destruct (Chan.buf (Client.Send c)) as [|message rest].
  - by destruct (Chan.closed (Client.Send c)).
  - by apply (WF_update_member w client c).
Qed.

Lemma WF_put_conn w socket cn : WF w → WF (set_conns (<[socket:=cn]>) w).
Proof. intros Hw. apply (WF_conns w); [done|]. by rewrite length_insert. Qed.

Lemma WF_Socket_Close socket : inv WF (Socket_Close socket).
Proof.
  intros w Hw. unfold Socket_Close. rewrite bind_run. unfold get_conn.
  destruct (conns w !! socket); [|done]. by apply WF_put_conn.
Qed.

Lemma WF_WriteMessage socket message : inv WF (WriteMessage socket message).
Proof.
  intros w Hw. unfold WriteMessage. rewrite bind_run. unfold get_conn.
  destruct (conns w !! socket) as [cn|]; [|done].
  destruct (Conn.closed cn); [done|]. by apply WF_put_conn.
Qed.

Lemma WF_ReadMessage socket next : inv WF (ReadMessage socket next).
Proof.
  unfold ReadMessage. apply inv_bind; [apply inv_get_conn|]. intros cn.
  apply inv_ret.
Qed.

Lemma WF_Broadcast_loop entries message exclude :
  inv WF (Broadcast_loop entries message exclude).
Proof.
  induction entries as [|[name client] rest IH]; simpl; [apply inv_ret|].
  apply inv_bind; [|by intros _]. case_decide; [|apply inv_ret].
  apply inv_bind; [apply WF_trySend|]. intros _. apply inv_ret.
Qed.

Lemma WF_Broadcast r message exclude : inv WF (Broadcast r message exclude).
Proof.
  unfold Broadcast. apply inv_bind; [apply WF_Room_Lock|]. intros _.
  apply inv_bind; [apply inv_get_room|]. intros rm.
  apply inv_bind; [apply WF_Broadcast_loop|]. intros _. apply WF_Room_Unlock.
Qed.

Lemma WF_RemoveClient r clientName : inv WF (RemoveClient r clientName).
Proof.
  unfold RemoveClient. apply inv_bind; [apply WF_Room_Lock|]. intros _.
  intros w Hw. rewrite bind_run. unfold get_room.
  destruct (rooms w !! r) as [rm|] eqn:Hr; [|done].
  rewrite bind_run. unfold put_room at 1, modify at 1.
  assert (Hrest : inv WF (Broadcast r (json_Marshal (leaveMessage clientName)) "";;
                          Room_Unlock r)).
  { apply inv_bind; [apply WF_Broadcast|]. intros _. apply WF_Room_Unlock. }
  apply Hrest. by apply WF_delete_member.
Qed.

Lemma WF_readMessages_dispatch c message :
  inv WF (readMessages_dispatch c message).
Proof.
  unfold readMessages_dispatch.
  destruct (json_Unmarshal message) as [data|]; [|apply inv_ret]. simpl.
  repeat case_decide; try apply inv_ret.
  apply inv_bind; [|intros _; apply inv_ret].
  unfold readMessages_forward.
  apply inv_bind; [apply inv_get_client|]. intros cl.
  destruct (Client.Room cl) as [room|]; [|apply inv_panic].
  apply inv_bind; [apply WF_Room_Lock|]. intros _.
  apply inv_bind; [apply inv_lookup_member|]. intros target.
  apply inv_bind; [apply WF_Room_Unlock|]. intros _.
  destruct target; [|apply inv_ret].
  apply inv_bind; [apply WF_trySend|]. intros _. apply inv_ret.
Qed.

Lemma WF_readMessages_loop c incoming : inv WF (readMessages_loop c incoming).
Proof.
  induction incoming as [|message rest IH]; simpl.
  - apply inv_bind; [apply inv_get_client|]. intros cl.
    apply inv_bind; [apply WF_ReadMessage|]. intros _. apply inv_ret.
  - apply inv_bind; [apply inv_get_client|]. intros cl.
    apply inv_bind; [apply WF_ReadMessage|]. intros [m|]; [|apply inv_ret].
    apply inv_bind; [apply WF_readMessages_dispatch|]. intros [|]; [done|apply inv_ret].
Qed.

(** The deferred function keeps the state well-formed because it does
    not get to [close(c.Send)]. *)
Lemma WF_readMessages_deferred c : inv WF (readMessages_deferred c).
Proof.
  unfold readMessages_deferred. apply inv_bind; [apply inv_get_client|]. intros cl.
  destruct (Client.Room cl) as [room|].
  - apply inv_never_returns_bind; [apply RemoveClient_never_returns|].
    apply WF_RemoveClient.
  - apply inv_never_returns_bind; [apply never_returns_panic|apply inv_panic].
Qed.

Lemma WF_writeMessages c : inv WF (writeMessages c).
Proof.
  unfold writeMessages. apply inv_bind; [apply inv_get_client|]. intros cl.
  apply inv_bind; [|intros _; apply WF_Socket_Close].
  generalize (S (length (Chan.buf (Client.Send cl)))). intros n.
  induction n as [|n IH]; simpl; [apply inv_ret|].
  apply inv_bind; [apply inv_get_client|]. intros cl'.
  apply inv_bind; [apply WF_receive|]. intros [message|]; [|apply inv_ret].
  apply inv_bind; [apply WF_WriteMessage|]. intros [|]; [done|apply inv_ret].
Qed.

Lemma room_unlocked_false w roomName :
  room_unlocked w roomName = false →
  ∃ r rm, Server.Rooms (server w) !! roomName = Some r ∧ rooms w !! r = Some rm
    ∧ Room.Mutex rm = true.
Proof.
  unfold room_unlocked. intros H.
  destruct (Server.Rooms (server w) !! roomName) as [r|]; [|done].
  destruct (rooms w !! r) as [rm|] eqn:Hr; [|done]. simpl in H.
  exists r, rm. apply negb_false_iff in H. done.
Qed.

Lemma Server_Lock_held w :
  Server.Mutex (server w) = true → Server_Lock w = Blocked w.
Proof. unfold Server_Lock. by intros ->. Qed.

(** The join keeps the state well-formed wherever it ends: waiting for
    the registry lock, waiting for the room lock, or after the
    broadcast. *)
Lemma WF_handleWebSocket_join u client socket name roomName :
  WF u →
  clients u !! client = Some (Client.mk "" socket (Chan.make Send_capacity) None) →
  nonmember u client → socket < length (conns u) → name ≠ "" →
  WF (final (handleWebSocket_join client name roomName u)).
Proof.
  intros Hwf Hc Hnm Hsock Hname.
  destruct (Server.Mutex (server u)) eqn:Hsm.
  { unfold handleWebSocket_join.
    rewrite bind_run, (get_client_Some _ _ _ Hc).
    rewrite bind_run. unfold put_client at 1, modify at 1.
    rewrite bind_run. unfold GetOrCreateRoom.
    rewrite bind_run, Server_Lock_held by done.
    simpl. by apply WF_set_nonmember. }
  destruct (room_unlocked u roomName) eqn:Hfree.
  { apply room_unlocked_free in Hfree.
    destruct (handleWebSocket_join_run u client socket name roomName
                Hwf Hsm Hfree Hc Hnm Hsock Hname) as (w1 & -> & Hwf1 & _).
    by apply WF_Broadcast. }
  apply room_unlocked_false in Hfree as (r & rm & Hreg & Hr & Hm).
  unfold handleWebSocket_join.
  rewrite bind_run, (get_client_Some _ _ _ Hc).
  rewrite bind_run. unfold put_client at 1, modify at 1.
  set (u1 := set_clients _ u).
  assert (Hwf1 : WF u1) by by apply WF_set_nonmember.
  rewrite bind_run, (GetOrCreateRoom_run roomName u1) by done.
  change (server u1) with (server u). rewrite Hreg.
  assert (Hc1 : clients u1 !! client
    = Some (Client.with_Name name (Client.mk "" socket (Chan.make Send_capacity) None))).
  { unfold u1. simpl. apply list_lookup_insert_eq. by eapply lookup_lt_Some. }
  rewrite bind_run, (get_client_Some _ _ _ Hc1).
  rewrite bind_run. unfold put_client at 1, modify at 1.
  set (u3 := set_clients _ u1).
  assert (Hwf3 : WF u3) by by apply WF_set_nonmember.
  rewrite bind_run. unfold handleWebSocket_admit.
  assert (Hr3 : rooms u3 !! r = Some rm) by done.
  by rewrite bind_run, (Room_Lock_held _ _ _ Hr3 Hm).
Qed.

Lemma WF_handleWebSocket_loop u client socket incoming :
  WF u →
  clients u !! client = Some (Client.mk "" socket (Chan.make Send_capacity) None) →
  nonmember u client → socket < length (conns u) →
  WF (final (handleWebSocket_loop client socket incoming u)).
Proof.
  intros Hwf Hc Hnm Hsock.
  assert (Hend : WF (final ((Socket_Close socket;; mret None
                             : M (option (loc * list bytes))) u))).
  { apply (inv_bind WF (Socket_Close socket)); [apply WF_Socket_Close| |done].
    intros _. apply inv_ret. }
  apply lookup_lt_is_Some in Hsock as Hcn. destruct Hcn as [cn Hcn].
  assert (Hread : ∀ next, ReadMessage socket next u
    = Done (if Conn.closed cn then None else next) u).
  { intros next. unfold ReadMessage. by rewrite bind_run, (get_conn_Some _ _ _ Hcn). }
  induction incoming as [|message rest IH]; simpl.
  - by rewrite bind_run, Hread.
  - rewrite bind_run, Hread. destruct (Conn.closed cn); [done|].
    destruct (json_Unmarshal message) as [data|]; [|done]. simpl.
    destruct (decide (as_string (data !! "type") = "join")); [|done].
    destruct (decide (as_string (data !! "name") = ""
                      ∨ as_string (data !! "room") = "")) as [|Hne]; [done|].
    rewrite bind_run.
    assert (Hjoin : WF (final (handleWebSocket_join client
      (as_string (data !! "name")) (as_string (data !! "room")) u))).
    { apply (WF_handleWebSocket_join u client socket); try done. tauto. }
    by destruct (handleWebSocket_join _ _ _ u).
Qed.

Lemma WF_handleWebSocket upgraded incoming :
  inv WF (handleWebSocket upgraded incoming).
Proof.
  intros w Hwf. unfold handleWebSocket. destruct upgraded; [|done].
  rewrite bind_run. unfold new_conn at 1. rewrite bind_run. unfold new_client at 1.
  set (wB := set_clients _ (set_conns _ w)).
  apply (WF_handleWebSocket_loop wB _ (length (conns w))).
  - apply (WF_clients_app (set_conns (λ l, l ++ [Conn.mk false []]) w)).
    apply (WF_conns w); [done|]. rewrite length_app. lia.
  - unfold wB. simpl. by rewrite lookup_app_r, Nat.sub_diag.
  - by apply (WF_nonmember_fresh w).
  - unfold wB. simpl. rewrite length_app. simpl. lia.
Qed.

Lemma WF_run k w : WF w → WF (run k w).
Proof.
  destruct k; simpl.
  - apply WF_handleWebSocket.
  - apply (inv_bind _ (readMessages_loop c incoming)).
    + apply WF_readMessages_loop.
    + intros _. apply WF_readMessages_deferred.
  - apply WF_readMessages_dispatch.
  - apply WF_readMessages_deferred.
  - apply WF_writeMessages.
Qed.

(** Every state of the server is well-formed: in particular, at every
    point, two rooms with one name are one room. *)
Lemma WF_after calls w : WF w → WF (after calls w).
Proof.
  revert w. induction calls as [|k calls IH]; intros w Hw; [done|].
  simpl. by apply IH, WF_run.
Qed.

Lemma well_formed_reachable calls : well_formed (after calls initial) = true.
Proof. apply well_formed_WF, WF_after, WF_initial. Qed.

(** *** The registry lock is free between calls *)

Definition registry_free (w : World) : Prop := Server.Mutex (server w) = false.

Lemma inv_modify J f : (∀ w, J w → J (f w)) → inv J (modify f).
Proof. intros H w Hw. by apply H. Qed.

Lemma registry_free_GetOrCreateRoom roomName :
  inv registry_free (GetOrCreateRoom roomName).
Proof.
  intros w Hw. rewrite (GetOrCreateRoom_run _ _ Hw).
  by destruct (Server.Rooms (server w) !! roomName).
Qed.

Ltac registry_free_step :=
  first
    [ apply inv_ret | apply inv_block | apply inv_panic
    | apply inv_get_room | apply inv_get_client | apply inv_get_conn
    | apply registry_free_GetOrCreateRoom
    | assumption
    | apply inv_modify; intros ? ?; assumption
    | match goal with
      | |- inv _ (new_conn _) => intros ? ?; assumption
      | |- inv _ (new_client _) => intros ? ?; assumption
      | |- inv _ (match ?x with Some _ => _ | None => _ end) => destruct x
      | |- inv _ (match ?x with [] => _ | _ :: _ => _ end) => destruct x
      | |- inv _ (if ?b then _ else _) => destruct b
      end
    | apply inv_bind; [|intros ?] ].

Lemma registry_free_Broadcast_loop entries message exclude :
  inv registry_free (Broadcast_loop entries message exclude).
Proof.
  induction entries as [|[name client] rest IH]; simpl; repeat registry_free_step.
Qed.

Lemma registry_free_Broadcast r message exclude :
  inv registry_free (Broadcast r message exclude).
Proof.
  unfold Broadcast. apply inv_bind; [repeat registry_free_step|]. intros _.
  apply inv_bind; [apply inv_get_room|]. intros rm.
  apply inv_bind; [apply registry_free_Broadcast_loop|]. intros _.
  repeat registry_free_step.
Qed.

Lemma registry_free_RemoveClient r clientName :
  inv registry_free (RemoveClient r clientName).
Proof.
  unfold RemoveClient. apply inv_bind; [repeat registry_free_step|]. intros _.
  apply inv_bind; [apply inv_get_room|]. intros rm.
  apply inv_bind; [repeat registry_free_step|]. intros _.
  apply inv_bind; [apply registry_free_Broadcast|]. intros _.
  repeat registry_free_step.
Qed.

Lemma registry_free_handleWebSocket_join client name roomName :
  inv registry_free (handleWebSocket_join client name roomName).
Proof.
  unfold handleWebSocket_join.
  apply inv_bind; [apply inv_get_client|]. intros c.
  apply inv_bind; [repeat registry_free_step|]. intros _.
  apply inv_bind; [apply registry_free_GetOrCreateRoom|]. intros room.
  apply inv_bind; [apply inv_get_client|]. intros c'.
  apply inv_bind; [repeat registry_free_step|]. intros _.
  apply inv_bind; [repeat registry_free_step|]. intros _.
  apply inv_bind; [repeat registry_free_step|]. intros userList.
  apply inv_bind; [repeat registry_free_step|]. intros _.
  apply inv_bind; [apply inv_get_client|]. intros c''.
  apply registry_free_Broadcast.
Qed.

Lemma registry_free_handleWebSocket upgraded incoming :
  inv registry_free (handleWebSocket upgraded incoming).
Proof.
  unfold handleWebSocket. destruct upgraded; [|apply inv_ret].
  apply inv_bind; [by intros w|]. intros socket.
  apply inv_bind; [by intros w|]. intros client.
  induction incoming as [|message rest IH]; simpl.
  - repeat registry_free_step.
  - apply inv_bind; [repeat registry_free_step|]. intros [m|];
      [|repeat registry_free_step].
    destruct (json_Unmarshal m) as [data|]; [|done]. simpl.
    repeat case_decide; try done.
    apply inv_bind; [apply registry_free_handleWebSocket_join|]. intros _.
    apply inv_ret.
Qed.

Lemma registry_free_readMessages_dispatch c message :
  inv registry_free (readMessages_dispatch c message).
Proof.
  unfold readMessages_dispatch.
  destruct (json_Unmarshal message) as [data|]; [|apply inv_ret]. simpl.
  repeat case_decide; try apply inv_ret.
  apply inv_bind; [|intros _; apply inv_ret].
  unfold readMessages_forward. repeat registry_free_step.
Qed.

Lemma registry_free_readMessages_loop c incoming :
  inv registry_free (readMessages_loop c incoming).
Proof.
  induction incoming as [|message rest IH]; simpl.
  - repeat registry_free_step.
  - apply inv_bind; [apply inv_get_client|]. intros cl.
    apply inv_bind; [repeat registry_free_step|]. intros [m|]; [|apply inv_ret].
    apply inv_bind; [apply registry_free_readMessages_dispatch|].
    intros [|]; [done|apply inv_ret].
Qed.

Lemma registry_free_readMessages_deferred c :
  inv registry_free (readMessages_deferred c).
Proof.
  unfold readMessages_deferred. apply inv_bind; [apply inv_get_client|]. intros cl.
  apply inv_bind.
  { destruct (Client.Room cl); [apply registry_free_RemoveClient|apply inv_panic]. }
  intros _. repeat registry_free_step.
Qed.

Lemma registry_free_writeMessages c : inv registry_free (writeMessages c).
Proof.
  unfold writeMessages. apply inv_bind; [apply inv_get_client|]. intros cl.
  apply inv_bind; [|intros _; repeat registry_free_step].
  generalize (S (length (Chan.buf (Client.Send cl)))). intros n.
  induction n as [|n IH]; simpl; [apply inv_ret|].
  apply inv_bind; [apply inv_get_client|]. intros cl'.
  apply inv_bind; [repeat registry_free_step|]. intros [message|]; [|apply inv_ret].
  apply inv_bind; [repeat registry_free_step|]. intros [|]; [done|apply inv_ret].
Qed.

Lemma registry_free_after calls w : registry_free w → registry_free (after calls w).
Proof.
  revert w. induction calls as [|k calls IH]; intros w Hw; [done|].
  simpl. apply IH. destruct k; simpl.
  - by apply registry_free_handleWebSocket.
  - apply (inv_bind _ (readMessages_loop c incoming)); [| |done].
    + apply registry_free_readMessages_loop.
    + intros _. apply registry_free_readMessages_deferred.
  - by apply registry_free_readMessages_dispatch.
  - by apply registry_free_readMessages_deferred.
  - by apply registry_free_writeMessages.
Qed.

(** From the start of the server on, [GetOrCreateRoom] returns at every
    point. *)
Lemma GetOrCreateRoom_returns calls roomName :
  ∃ room w', GetOrCreateRoom roomName (after calls initial) = Done room w'.
Proof.
  rewrite GetOrCreateRoom_run by by apply registry_free_after.
  destruct (Server.Rooms (server (after calls initial)) !! roomName); eauto.
Qed.

(** C9: [GetOrCreateRoom] returns in every well-formed state whose
    registry lock is free (every state between two calls is one); for a
    registered name it returns the registered room and changes nothing;
    for a new name it stores a room with that name and no member and
    registers it; and in the state it leaves and after any sequence of
    later calls the registry lock is free and two rooms of the store
    with one name are one room. *)
Theorem GetOrCreateRoom_registered_or_new roomName w :
  well_formed w = true → Server.Mutex (server w) = false →
  ∃ room w', GetOrCreateRoom roomName w = Done room w'
    ∧ (∀ r, Server.Rooms (server w) !! roomName = Some r → room = r ∧ w' = w)
    ∧ (Server.Rooms (server w) !! roomName = None →
         room = length (rooms w)
         ∧ rooms w' = rooms w ++ [Room.mk roomName ∅ false]
         ∧ clients w' = clients w ∧ conns w' = conns w)
    ∧ Server.Rooms (server w') = <[roomName:=room]> (Server.Rooms (server w))
    ∧ (∀ calls,
         Server.Mutex (server (after calls w')) = false
         ∧ well_formed (after calls w') = true
         ∧ ∀ r1 r2 rm1 rm2,
             rooms (after calls w') !! r1 = Some rm1 →
             rooms (after calls w') !! r2 = Some rm2 →
             Room.Name rm1 = Room.Name rm2 → r1 = r2).
Proof.
  intros Hwf Hm.
  assert (Hlater : ∀ w', well_formed w' = true → Server.Mutex (server w') = false →
    ∀ calls,
      Server.Mutex (server (after calls w')) = false
      ∧ well_formed (after calls w') = true
      ∧ ∀ r1 r2 rm1 rm2,
          rooms (after calls w') !! r1 = Some rm1 →
          rooms (after calls w') !! r2 = Some rm2 →
          Room.Name rm1 = Room.Name rm2 → r1 = r2).
  { intros w' Hwf' Hm' calls.
    assert (Hwf'' : well_formed (after calls w') = true).
    { by apply well_formed_WF, WF_after, well_formed_WF. }
    split; [by apply registry_free_after|]. split; [done|].
    intros *. by apply wf_one_room_per_name. }
  rewrite (GetOrCreateRoom_run _ _ Hm).
  destruct (Server.Rooms (server w) !! roomName) as [room|] eqn:Hroom.
  - exists room, w. split; [done|].
    split; [by intros r [= ->]|]. split; [done|].
    split; [by rewrite insert_id|]. by apply Hlater.
  - eexists _, _. split; [reflexivity|].
    split; [done|]. split; [done|]. split; [done|].
    apply Hlater; [|done].
    apply well_formed_WF, WF_GetOrCreateRoom; [by apply well_formed_WF|done].
Qed.

(** *** The drain writes the queue in order *)

Lemma writeMessages_loop_drains c queued : ∀ w cl cn,
  clients w !! c = Some cl → Chan.buf (Client.Send cl) = queued →
  Chan.closed (Client.Send cl) = false →
  conns w !! Client.Socket cl = Some cn → Conn.closed cn = false →
  writeMessages_loop c (S (length queued)) w
  = Blocked
      (set_conns (<[Client.Socket cl:=Conn.mk false (Conn.written cn ++ queued)]>)
         (set_clients
            (<[c:=Client.with_Send (λ ch, Chan.mk [] (Chan.cap ch) false) cl]>) w)).
Proof.
  induction queued as [|message rest IH]; intros w cl cn Hc Hbuf Hopen Hcn Hcopen.
  - simpl. rewrite bind_run, (get_client_Some _ _ _ Hc).
    rewrite bind_run. unfold receive.
    rewrite bind_run, (get_client_Some _ _ _ Hc), Hbuf, Hopen. simpl. f_equal.
    destruct w as [sv rs cs cns]. unfold set_conns, set_clients. simpl in *.
    f_equal.
    + symmetry. apply list_insert_id. rewrite Hc. f_equal.
      destruct cl as [n sk [b cp cl] r]. simpl in *. by subst.
    + symmetry. apply list_insert_id. rewrite Hcn. f_equal.
      destruct cn as [cl' wr]. simpl in *. subst. by rewrite app_nil_r.
  - cbn [length writeMessages_loop].
    rewrite bind_run, (get_client_Some _ _ _ Hc).
    rewrite bind_run. unfold receive at 1.
    rewrite bind_run, (get_client_Some _ _ _ Hc), Hbuf.
    rewrite bind_run. unfold put_client at 1, modify at 1.
    set (w1 := set_clients _ w). cbn [mret M_ret].
    assert (Hcn1 : conns w1 !! Client.Socket cl = Some cn) by done.
    rewrite bind_run. unfold WriteMessage at 1.
    rewrite bind_run, (get_conn_Some _ _ _ Hcn1), Hcopen.
    rewrite bind_run. unfold put_conn at 1, modify at 1.
    set (w2 := set_conns _ w1). cbn [mret M_ret].
    assert (Hlt : c < length (clients w)) by by eapply lookup_lt_Some.
    assert (Hslt : Client.Socket cl < length (conns w)) by by eapply lookup_lt_Some.
    etrans; [apply (IH w2 (Client.with_Send Chan.pop cl) (Conn.write message cn))|].
    + unfold w2, w1. simpl. by apply list_lookup_insert_eq.
    + simpl. by rewrite Hbuf.
    + done.
    + unfold w2. simpl. by apply list_lookup_insert_eq.
    + done.
    + unfold w2, w1, set_conns, set_clients. simpl.
      rewrite !list_insert_insert_eq. f_equal. f_equal.
      by rewrite <- app_assoc.
Qed.

(** The receives [writeMessages] allows suffice: the loop ends or waits
    before they are used up, so more of them change nothing. *)
Lemma writeMessages_loop_fuel c n k : ∀ w cl,
  clients w !! c = Some cl → length (Chan.buf (Client.Send cl)) < n →
  writeMessages_loop c (n + k) w = writeMessages_loop c n w.
Proof.
  induction n as [|n IH]; intros w cl Hc Hlen; [lia|].
  cbn [Nat.add writeMessages_loop].
  rewrite !bind_run, (get_client_Some _ _ _ Hc).
  rewrite !bind_run. unfold receive.
  rewrite !bind_run, (get_client_Some _ _ _ Hc).
  destruct (Chan.buf (Client.Send cl)) as [|message rest] eqn:Hbuf.
  { by destruct (Chan.closed (Client.Send cl)). }
  rewrite !bind_run. unfold put_client, modify.
  set (w1 := set_clients _ w). cbn [mret M_ret].
  rewrite !bind_run. unfold WriteMessage.
  rewrite !bind_run. unfold get_conn.
  destruct (conns w1 !! Client.Socket cl) as [cn|]; [|done].
  destruct (Conn.closed cn); [done|].
  rewrite !bind_run. unfold put_conn, modify. cbn [mret M_ret].
  apply (IH _ (Client.with_Send Chan.pop cl)).
  - unfold w1. simpl. apply list_lookup_insert_eq. by eapply lookup_lt_Some.
  - simpl. rewrite Hbuf. simpl in *. lia.
Qed.

(** With its queue and its connection open, the drain writes what is
    queued to the connection, oldest first, and then waits for more. *)
Lemma writeMessages_drains c w cl cn :
  clients w !! c = Some cl → Chan.closed (Client.Send cl) = false →
  conns w !! Client.Socket cl = Some cn → Conn.closed cn = false →
  writeMessages c w
  = Blocked
      (set_conns
         (<[Client.Socket cl:=Conn.mk false
              (Conn.written cn ++ Chan.buf (Client.Send cl))]>)
         (set_clients
            (<[c:=Client.with_Send (λ ch, Chan.mk [] (Chan.cap ch) false) cl]>) w)).
Proof.
  intros Hc Hopen Hcn Hcopen. unfold writeMessages.
  rewrite bind_run, (get_client_Some _ _ _ Hc).
  by rewrite bind_run, (writeMessages_loop_drains c _ w cl cn).
Qed.

(** C6: called on a room whose lock is free, [RemoveClient] takes the
    lock and then waits for it in [Broadcast]: it ends waiting, with the
    member deleted and the lock held; in that state every [Lock] of the
    room waits, the one of a later [Broadcast] or [RemoveClient]
    included; and after any sequence of later calls the lock is still
    held: it is never released. *)
Theorem RemoveClient_self_deadlock w r rm clientName :
  rooms w !! r = Some rm → Room.Mutex rm = false →
  ∃ w', RemoveClient r clientName w = Blocked w'
    ∧ rooms w' !! r
      = Some (Room.mk (Room.Name rm) (delete clientName (Room.Clients rm)) true)
    ∧ Room_Lock r w' = Blocked w'
    ∧ (∀ message exclude, Broadcast r message exclude w' = Blocked w')
    ∧ (∀ name, RemoveClient r name w' = Blocked w')
    ∧ (∀ calls, Room.Mutex <$> rooms (after calls w') !! r = Some true).
Proof.
  intros Hr Hm. rewrite (RemoveClient_run_free _ _ _ _ Hr Hm).
  eexists. split; [reflexivity|].
  set (w' := set_rooms _ w).
  assert (Hr' : rooms w' !! r
    = Some (Room.mk (Room.Name rm) (delete clientName (Room.Clients rm)) true)).
  { unfold w'. simpl. apply list_lookup_insert_eq. by eapply lookup_lt_Some. }
  split; [exact Hr'|].
  assert (HL : Room_Lock r w' = Blocked w') by by apply (Room_Lock_held _ _ _ Hr').
  split; [exact HL|]. split.
  { intros message exclude. unfold Broadcast. by rewrite bind_run, HL. }
  split.
  { intros name. unfold RemoveClient. by rewrite bind_run, HL. }
  intros calls. apply held_after. unfold held. by rewrite Hr'.
Qed.

End server.

(** ** A run: A and B in the lobby *)

Module Example.

(** A JSON text between double quotes. *)
Definition quoted (s : string) : string :=
  String (Ascii.ascii_of_nat 34) (s +:+ String (Ascii.ascii_of_nat 34) "").

(** The text of a value, without escapes. *)
Fixpoint render (v : JSON) : string :=
  match v with
  | JNull => "null"
  | JBool b => if b then "true" else "false"
  | JNumber lit => lit
  | JString s => quoted s
  | JArray xs => "[" +:+ String.concat "," (map render xs) +:+ "]"
  | JObject kvs =>
      "{" +:+ String.concat ","
                (map (λ kv, let '(k, v) := kv in quoted k +:+ ":" +:+ render v) kvs)
      +:+ "}"
  end.

(** [json.Marshal] writes the keys of a map in sorted order. *)
Fixpoint insert_key (kv : string * JSON) (kvs : list (string * JSON))
    : list (string * JSON) :=
  match kvs with
  | [] => [kv]
  | kv' :: rest =>
      if String.leb kv.1 kv'.1 then kv :: kvs else kv' :: insert_key kv rest
  end.

Definition json_Marshal (m : gmap string JSON) : bytes :=
  render (JObject (foldr insert_key [] (map_to_list m))).

(** The objects clients send in this run. *)
Definition join (name roomName : string) : list (string * JSON) :=
  [("type", JString "join"); ("name", JString name); ("room", JString roomName)].
Definition offer (target : string) : list (string * JSON) :=
  [("type", JString "offer"); ("target", JString target); ("sdp", JString "v=0")].
Definition leave : list (string * JSON) := [("type", JString "leave")].
Definition nameless_join : list (string * JSON) :=
  [("type", JString "join"); ("room", JString "lobby")].

Definition sent : list (list (string * JSON)) :=
  [join "A" "lobby"; join "B" "lobby"; offer "A"; offer "B"; offer "C"; leave;
   nameless_join].

Definition text (kvs : list (string * JSON)) : bytes := render (JObject kvs).

(** [json.Unmarshal] on the texts of [sent]; every other text of this run
    is not JSON. *)
Definition json_Unmarshal (message : bytes) : option (gmap string JSON) :=
  list_to_map <$> head (filter (λ kvs, text kvs = message) sent).

(** The iteration order of this run. *)
Definition range (m : gmap string loc) : list (string * loc) := map_to_list m.

Lemma range_perm m : range m ≡ₚ map_to_list m.
Proof. reflexivity. Qed.

Definition userListJSON (userList : list string) : bytes :=
  json_Marshal (userListMessage userList).
Definition newUserJSON (name : string) : bytes :=
  json_Marshal (newUserMessage name).

(** A alone in the lobby, its [user-list] not yet written out. *)
Definition lobby_A : World :=
  mkWorld (Server.mk {["lobby" := 0]} false)
    [Room.mk "lobby" {["A" := 0]} false]
    [Client.mk "A" 0 (Chan.mk [userListJSON []] 256 false) (Some 0)]
    [Conn.mk false []].

(** A and B in the lobby. *)
Definition lobby_AB : World :=
  mkWorld (Server.mk {["lobby" := 0]} false)
    [Room.mk "lobby" {["A" := 0; "B" := 1]} false]
    [Client.mk "A" 0 (Chan.mk [userListJSON []; newUserJSON "B"] 256 false) (Some 0);
     Client.mk "B" 1 (Chan.mk [userListJSON ["A"]] 256 false) (Some 0)]
    [Conn.mk false []; Conn.mk false []].

(** The same with the queue of B filled to its capacity. *)
Definition lobby_AB_full : World :=
  set_clients
    (<[1:=Client.mk "B" 1 (Chan.mk (replicate 256 "m") 256 false) (Some 0)]>)
    lobby_AB.

(** A, B and C in the lobby, the queue of B full. *)
Definition lobby_ABC_full : World :=
  mkWorld (Server.mk {["lobby" := 0]} false)
    [Room.mk "lobby" {["A" := 0; "B" := 1; "C" := 2]} false]
    [Client.mk "A" 0 (Chan.mk [] 256 false) (Some 0);
     Client.mk "B" 1 (Chan.mk (replicate 256 "m") 256 false) (Some 0);
     Client.mk "C" 2 (Chan.mk ["m"] 256 false) (Some 0)]
    [Conn.mk false []; Conn.mk false []; Conn.mk false []].

(** A second connection that joined as A is allocated, not yet admitted. *)
Definition lobby_AB_rejoin : World :=
  mkWorld (Server.mk {["lobby" := 0]} false)
    [Room.mk "lobby" {["A" := 0; "B" := 1]} false]
    [Client.mk "A" 0 (Chan.mk [] 256 false) (Some 0);
     Client.mk "B" 1 (Chan.mk [] 256 false) (Some 0);
     Client.mk "A" 2 (Chan.mk [] 256 false) (Some 0)]
    [Conn.mk false []; Conn.mk false []; Conn.mk false []].

Definition run_handleWebSocket (incoming : list bytes) :=
  handleWebSocket json_Unmarshal json_Marshal range true incoming.

(** The scenario of the specification: A joins, then B. *)
Example A_joins :
  run_handleWebSocket [text (join "A" "lobby")] initial = Done (Some (0, [])) lobby_A.
Proof. vm_compute. reflexivity. Qed.

Example B_joins :
  run_handleWebSocket [text (join "B" "lobby")] lobby_A = Done (Some (1, [])) lobby_AB.
Proof. vm_compute. reflexivity. Qed.

Example lobby_AB_well_formed : well_formed lobby_AB = true.
Proof. vm_compute. reflexivity. Qed.

Lemma join_witness :
  ∃ w', run_handleWebSocket ["hello"; text (join "B" "lobby"); text leave] lobby_A
        = Done (Some (1, [text leave])) w'
    ∧ Chan.buf ∘ Client.Send <$> clients w' !! 1
      = Some [text [("type", JString "user-list"); ("users", JArray [JString "A"])]]
    ∧ Chan.buf ∘ Client.Send <$> clients w' !! 0
      = Some [text [("type", JString "user-list"); ("users", JArray [])];
              text [("name", JString "B"); ("type", JString "new-user")]].
Proof.
  destruct (join_sends_user_list_then_new_user json_Unmarshal json_Marshal range
              range_perm lobby_A ["hello"] (text (join "B" "lobby")) [text leave]
              "B" "lobby")
    as (userList & w1 & w' & Hrun & _ & _ & _ & _ & Hperm & Hw1 & _ & _ & Hnew
        & Hothers & _).
  - vm_compute. reflexivity.
  - reflexivity.
  - vm_compute. reflexivity.
  - intros m n r ->%list_elem_of_singleton (data & Hd & _). vm_compute in Hd. discriminate.
  - eexists. split; [vm_compute; reflexivity|].
    repeat split; try (vm_compute; reflexivity); discriminate.
  - exists w'. split; [exact Hrun|].
    assert (userList = ["A"]) as ->.
    { apply Permutation_singleton_r. revert Hperm. vm_compute. intros H. by symmetry. }
    change (clients w' !! 1 = clients w1 !! 1) in Hnew.
    split.
    + rewrite Hnew, Hw1. vm_compute. reflexivity.
    + rewrite (Hothers "A" 0
                 (Client.mk "A" 0 (Chan.mk [userListJSON []] 256 false) (Some 0)));
        [vm_compute; reflexivity|reflexivity..].
Defined.

Lemma admit_witness :
  ∃ w', handleWebSocket_admit 0 2 lobby_AB_rejoin = Done () w'
    ∧ Conn.closed <$> conns w' !! 0 = Some true
    ∧ Room.Clients <$> rooms w' !! 0 = Some {["A" := 2; "B" := 1]}.
Proof.
  edestruct admit_evicts_same_name
    with (w := lobby_AB_rejoin) (room := 0) (client := 2) (e := 0)
    as (w1 & w2 & w' & _ & _ & _ & _ & _ & Hrun & Hclosed & rm' & Hrm' & Hcs & _).
  - vm_compute. reflexivity.
  - reflexivity.
  - reflexivity.
  - reflexivity.
  - reflexivity.
  - reflexivity.
  - exists w'. split; [exact Hrun|]. split; [exact Hclosed|].
    rewrite Hrm'. simpl. rewrite Hcs. vm_compute. reflexivity.
Defined.

Lemma Broadcast_witness :
  ∃ w', Broadcast range 0 "hi" "A" lobby_ABC_full = Done () w'
    ∧ clients w' !! 0 = clients lobby_ABC_full !! 0
    ∧ clients w' !! 1 = clients lobby_ABC_full !! 1
    ∧ Chan.buf ∘ Client.Send <$> clients w' !! 2 = Some ["m"; "hi"].
Proof.
  edestruct (Broadcast_nonblocking_drop_on_full range range_perm)
    with (w := lobby_ABC_full) (r := 0) (message := "hi") (exclude := "A")
    as (w' & Hrun & _ & _ & _ & Hfull & Hroom & Hrest).
  - vm_compute. reflexivity.
  - reflexivity.
  - reflexivity.
  - exists w'. split; [exact Hrun|]. split; [|split].
    + apply Hrest. intros name Hname.
      destruct (decide (name = "A")) as [|Hne]; [done|].
      destruct (decide (name = "B")) as [->|HneB]; [vm_compute in Hname; discriminate|].
      destruct (decide (name = "C")) as [->|HneC]; [vm_compute in Hname; discriminate|].
      simpl in Hname. rewrite !lookup_insert_ne in Hname by done.
      by rewrite lookup_singleton_ne in Hname.
    + apply (Hfull "B" 1); [reflexivity|discriminate|reflexivity..].
    + rewrite (Hroom "C" 2 (Client.mk "C" 2 (Chan.mk ["m"] 256 false) (Some 0)));
        [reflexivity|reflexivity|discriminate|reflexivity..].
Defined.

Lemma forward_witness :
  ∃ w', readMessages_dispatch json_Unmarshal 0 (text (offer "B")) lobby_AB
        = Done true w'
    ∧ clients w'
      = <[1:=Client.mk "B" 1
               (Chan.mk [userListJSON ["A"]; text (offer "B")] 256 false) (Some 0)]>
          (clients lobby_AB).
Proof.
  edestruct (forward_reaches_target_only json_Unmarshal)
    with (w := lobby_AB) (c := 0) (room := 0) (message := text (offer "B"))
         (target := "B")
    as (w' & Hrun & _ & _ & _ & Hcs).
  - vm_compute. reflexivity.
  - reflexivity.
  - reflexivity.
  - reflexivity.
  - reflexivity.
  - vm_compute. reflexivity.
  - left. vm_compute. reflexivity.
  - vm_compute. reflexivity.
  - discriminate.
  - exists w'. split; [exact Hrun|]. simpl in Hcs.
    destruct Hcs as (tc & Htc & ->). injection Htc as <-. reflexivity.
Defined.

(** With the queue of B full, the offer of A to B is dropped: B is a
    member, the message is handled, and no queue has changed. *)
Lemma forward_dropped_when_target_full :
  members lobby_AB_full "lobby" !! "B" = Some 1
  ∧ readMessages_dispatch json_Unmarshal 0 (text (offer "B")) lobby_AB_full
    = Done true lobby_AB_full.
Proof. split; vm_compute; reflexivity. Qed.

(** An offer to a name that is no member reaches no queue. *)
Example forward_to_absent_target :
  readMessages_dispatch json_Unmarshal 0 (text (offer "C")) lobby_AB
  = Done true lobby_AB.
Proof. vm_compute. reflexivity. Qed.

Lemma forward_to_self_witness :
  readMessages_dispatch json_Unmarshal 0 (text (offer "A")) lobby_AB
  = Done true
      (set_clients
         (<[0:=Client.mk "A" 0
                 (Chan.mk [userListJSON []; newUserJSON "B"; text (offer "A")]
                    256 false) (Some 0)]>) lobby_AB).
Proof.
  apply (forward_to_self json_Unmarshal lobby_AB 0
           (Client.mk "A" 0 (Chan.mk [userListJSON []; newUserJSON "B"] 256 false)
              (Some 0))
           0 (Room.mk "lobby" {["A" := 0; "B" := 1]} false)
           (text (offer "A")) (list_to_map (offer "A")));
    try reflexivity; try (vm_compute; reflexivity).
  left. vm_compute. reflexivity.
Defined.

(** With its own queue full, the offer of B to itself is dropped. *)
Lemma forward_to_self_dropped_when_full :
  members lobby_AB_full "lobby" !! "B" = Some 1
  ∧ Client.Name <$> clients lobby_AB_full !! 1 = Some "B"
  ∧ readMessages_dispatch json_Unmarshal 1 (text (offer "B")) lobby_AB_full
    = Done true lobby_AB_full.
Proof. repeat split; vm_compute; reflexivity. Qed.

Lemma RemoveClient_witness :
  ∃ w', RemoveClient json_Marshal range 0 "B" lobby_AB = Blocked w'
    ∧ Room.Mutex <$> rooms w' !! 0 = Some true
    ∧ clients w' = clients lobby_AB
    ∧ Broadcast range 0 (newUserJSON "C") "C" w' = Blocked w'.
Proof.
  edestruct (RemoveClient_self_deadlock json_Unmarshal json_Marshal range)
    with (w := lobby_AB) (r := 0) (clientName := "B")
    as (w' & Hrun & Hr & _ & Hb & _ & _).
  - reflexivity.
  - reflexivity.
  - exists w'. split; [exact Hrun|]. split; [by rewrite Hr|]. split; [|apply Hb].
    revert Hrun. vm_compute. by intros [= <-].
Defined.

(** The departure of B: the call waits, and the queue of A has no
    [leave] message. *)
Example RemoveClient_B :
  RemoveClient json_Marshal range 0 "B" lobby_AB
  = Blocked
      (mkWorld (Server.mk {["lobby" := 0]} false)
         [Room.mk "lobby" {["A" := 0]} true]
         (clients lobby_AB) (conns lobby_AB)).
Proof. vm_compute. reflexivity. Qed.

Lemma GetOrCreateRoom_witness :
  GetOrCreateRoom "lobby" lobby_A = Done 0 lobby_A
  ∧ ∃ w', GetOrCreateRoom "kitchen" lobby_A = Done 1 w'
      ∧ rooms w' = rooms lobby_A ++ [Room.mk "kitchen" ∅ false]
      ∧ well_formed w' = true.
Proof.
  split.
  - destruct (GetOrCreateRoom_registered_or_new json_Unmarshal json_Marshal range
                "lobby" lobby_A)
      as (room & w' & Hrun & Hold & _); [vm_compute; reflexivity|reflexivity|].
    destruct (Hold 0) as [-> ->]; [reflexivity|exact Hrun].
  - destruct (GetOrCreateRoom_registered_or_new json_Unmarshal json_Marshal range
                "kitchen" lobby_A)
      as (room & w' & Hrun & _ & Hnew & _ & Hlater);
      [vm_compute; reflexivity|reflexivity|].
    destruct Hnew as (-> & Hrooms & _); [vm_compute; reflexivity|].
    exists w'. split; [exact Hrun|]. split; [exact Hrooms|].
    apply (Hlater []).
Defined.

(** A join without a name is passed over, and the peer that then goes
    is not admitted: its connection is closed and the lobby is as
    before. *)
Example nameless_join_not_admitted :
  run_handleWebSocket [text nameless_join; "hello"] lobby_A
  = Done None
      (mkWorld (server lobby_A) (rooms lobby_A)
         (clients lobby_A ++ [Client.mk "" 1 (Chan.make 256) None])
         (conns lobby_A ++ [Conn.mk true []])).
Proof. vm_compute. reflexivity. Qed.

(** B sends [leave]: the read loop ends, and the deferred function waits
    in [RemoveClient] with the connection and the queue of B open. *)
Example leave_B :
  readMessages json_Unmarshal json_Marshal range 1 [text leave; text (offer "A")]
    lobby_AB
  = Blocked
      (mkWorld (Server.mk {["lobby" := 0]} false)
         [Room.mk "lobby" {["A" := 0]} true]
         (clients lobby_AB) (conns lobby_AB)).
Proof. vm_compute. reflexivity. Qed.

(** The same when the peer of B is gone. *)
Example disconnect_B :
  readMessages json_Unmarshal json_Marshal range 1 [] lobby_AB
  = readMessages json_Unmarshal json_Marshal range 1 [text leave; text (offer "A")]
      lobby_AB.
Proof. vm_compute. reflexivity. Qed.

(** The writer of B writes what is queued for B, the forwarded offer
    after the [user-list], and waits with the queue empty. *)
Example B_receives_the_offer :
  writeMessages 1
    (final (readMessages_dispatch json_Unmarshal 0 (text (offer "B")) lobby_AB))
  = Blocked
      (mkWorld (server lobby_AB) (rooms lobby_AB)
         [Client.mk "A" 0 (Chan.mk [userListJSON []; newUserJSON "B"] 256 false)
            (Some 0);
          Client.mk "B" 1 (Chan.mk [] 256 false) (Some 0)]
         [Conn.mk false [];
          Conn.mk false [userListJSON ["A"]; text (offer "B")]]).
Proof. vm_compute. reflexivity. Qed.

(** After a second connection has joined as A, the reader of the first
    finds its connection closed and its deferred function removes the
    entry for A, which is the one of the second connection. *)
Example evicted_reader_removes_the_new_entry :
  readMessages json_Unmarshal json_Marshal range 0 [text (offer "B")]
    (final (handleWebSocket_admit 0 2 lobby_AB_rejoin))
  = Blocked
      (mkWorld (Server.mk {["lobby" := 0]} false)
         [Room.mk "lobby" {["B" := 1]} true]
         (clients lobby_AB_rejoin)
         [Conn.mk true []; Conn.mk false []; Conn.mk false []]).
Proof. vm_compute. reflexivity. Qed.

End Example.

(** ** The older server of [src/main.go]

    The same registry and rooms, with unbuffered queues
    ([make(chan []byte)]), sends that wait, a join that is read once and
    tested for its type only, no [user-list], [new-user] or [leave]
    message, and every message that is not a targeted negotiation
    message broadcast to the room.  It is embedded for comparison: the
    theorems above are about the server of [src/unnamed/part_000]. *)

Module Unbuffered.

Section server.

(** [json.Unmarshal] into the struct of lines 88-92, as the triple of
    its fields [Type], [Name] and [Room] ([None] when it returns an
    error), and into a [map[string]interface{}]. *)
Variable json_Unmarshal_join : bytes → option (string * string * string).
Variable json_Unmarshal : bytes → option (gmap string JSON).
Variable range : gmap string loc → list (string * loc).

(** The clients whose [writeMessages] goroutine is at the receive of its
    [range c.Send] loop. *)
Variable receiving : loc → bool.

(** [client.Send <- message] on an unbuffered channel: the send
    completes when the writer of the client is at its receive, and the
    writer then writes the message out (lines 165-170, closing the
    connection when the write fails); otherwise the sender waits. *)
Definition Send (client : loc) (message : bytes) : M () :=
  c ← get_client client;
  if receiving client then
    ok ← WriteMessage (Client.Socket c) message;
    if ok : bool then mret () else Socket_Close (Client.Socket c)
  else block.

(** The loop of [Broadcast] (lines 65-69). *)
Fixpoint Broadcast_loop (entries : list (string * loc))
    (message : bytes) (exclude : string) : M () :=
  match entries with
  | [] => mret ()
  | (name, client) :: rest =>
      (if decide (name ≠ exclude) then Send client message else mret ());;
      Broadcast_loop rest message exclude
  end.

(** [Broadcast] (lines 61-70). *)
Definition Broadcast (r : loc) (message : bytes) (exclude : string) : M () :=
  Room_Lock r;;
  rm ← get_room r;
  Broadcast_loop (range (Room.Clients rm)) message exclude;;
  Room_Unlock r.

(** [RemoveClient] (lines 73-77). *)
Definition RemoveClient (r : loc) (clientName : string) : M () :=
  Room_Lock r;;
  delete_member r clientName;;
  Room_Unlock r.

(** [handleWebSocket] (lines 80-126): the result is the client for which
    the two goroutines are started, with the messages left to read. *)
Definition handleWebSocket (upgraded : bool) (incoming : list bytes)
    : M (option (loc * list bytes)) :=
  if upgraded then
    socket ← new_conn (Conn.mk false []);
    r ← ReadMessage socket (head incoming);
    match r with
    | None => Socket_Close socket;; mret None
    | Some message =>
        match json_Unmarshal_join message with
        | Some (type, name, roomName) =>
            if decide (type ≠ "join") then Socket_Close socket;; mret None
            else
              client ← new_client (Client.mk name socket (Chan.make 0) None);
              room ← GetOrCreateRoom roomName;
              c ← get_client client;
              put_client client (Client.with_Room room c);;
              Room_Lock room;;
              insert_member room name client;;
              Room_Unlock room;;
              mret (Some (client, tail incoming))
        | None => Socket_Close socket;; mret None
        end
    end
  else mret None.

(** Lines 143-158 of [readMessages], one message; the lookup of line 152
    takes no lock. *)
Definition readMessages_dispatch (c : loc) (message : bytes) : M () :=
  match json_Unmarshal message with
  | None => mret ()
  | Some data =>
      cl ← get_client c;
      match Client.Room cl with
      | None => panic
      | Some room =>
          let type := as_string (data !! "type") in
          match data !! "target" with
          | Some (JString target) =>
              if decide (type = "offer" ∨ type = "answer" ∨ type = "candidate") then
                targetClient ← lookup_member room target;
                match targetClient with
                | Some targetClient => Send targetClient message
                | None => mret ()
                end
              else Broadcast room message (Client.Name cl)
          | _ => Broadcast room message (Client.Name cl)
          end
      end
  end.

(** The deferred function of lines 130-133. *)
Definition readMessages_deferred (c : loc) : M () :=
  cl ← get_client c;
  match Client.Room cl with
  | None => panic
  | Some room => RemoveClient room (Client.Name cl)
  end;;
  Socket_Close (Client.Socket cl).

(** A broadcast to a member whose writer is not at its receive waits
    with the room lock held. *)
Lemma Broadcast_waits_holding_lock w r rm name client c message exclude :
  rooms w !! r = Some rm → Room.Mutex rm = false →
  range (Room.Clients rm) = [(name, client)] → name ≠ exclude →
  clients w !! client = Some c → receiving client = false →
  Broadcast r message exclude w
  = Blocked (set_rooms (<[r:=Room.with_Mutex true rm]>) w).
Proof.
  intros Hr Hm Hrange Hne Hc Hrecv. unfold Broadcast.
  rewrite bind_run, (Room_Lock_free _ _ _ Hr Hm).
  set (w1 := set_rooms _ w).
  assert (Hr1 : rooms w1 !! r = Some (Room.with_Mutex true rm)).
  { unfold w1. simpl. apply list_lookup_insert_eq. by eapply lookup_lt_Some. }
  rewrite bind_run, (get_room_Some _ _ _ Hr1). simpl. rewrite Hrange. simpl.
  rewrite decide_True by done.
  assert (Hc1 : clients w1 !! client = Some c) by done.
  rewrite bind_run, bind_run. unfold Send.
  by rewrite bind_run, (get_client_Some _ _ _ Hc1), Hrecv.
Qed.

(** A [leave] message without a target is broadcast to the room; the
    read loop goes on. *)
Lemma leave_is_broadcast w c cl room message data :
  json_Unmarshal message = Some data → data !! "target" = None →
  clients w !! c = Some cl → Client.Room cl = Some room →
  readMessages_dispatch c message w = Broadcast room message (Client.Name cl) w.
Proof.
  intros Hd Ht Hc Hroom. unfold readMessages_dispatch.
  by rewrite Hd, bind_run, (get_client_Some _ _ _ Hc), Hroom, Ht.
Qed.

End server.

(** A join with neither name nor room is admitted under the empty name
    into a room with the empty name. *)
Example strict_join_admits_empty_name :
  handleWebSocket (λ _, Some ("join", "", "")) true ["{}"] initial
  = Done (Some (0, []))
      (mkWorld (Server.mk {["" := 0]} false)
         [Room.mk "" {["" := 0]} false]
         [Client.mk "" 0 (Chan.make 0) (Some 0)]
         [Conn.mk false []]).
Proof. vm_compute. reflexivity. Qed.

(** A second join under a name replaces the entry and leaves the first
    connection open. *)
Example second_join_overwrites :
  final (handleWebSocket (λ _, Some ("join", "A", "lobby")) true ["join A"]
           (final (handleWebSocket (λ _, Some ("join", "A", "lobby")) true ["join A"]
                     initial)))
  = mkWorld (Server.mk {["lobby" := 0]} false)
      [Room.mk "lobby" {["A" := 1]} false]
      [Client.mk "A" 0 (Chan.make 0) (Some 0); Client.mk "A" 1 (Chan.make 0) (Some 0)]
      [Conn.mk false []; Conn.mk false []].
Proof. vm_compute. reflexivity. Qed.

End Unbuffered.

(** ** The drain, case by case *)

Section drain.

(** The state after [writeMessages] has taken [queued] off the queue of
    [c] and written it to the connection [cn] of [c]. *)
Definition drained (c : loc) (cl : Client.t) (cn : Conn.t) (w : World) : World :=
  set_conns
    (<[Client.Socket cl:=Conn.mk false (Conn.written cn ++ Chan.buf (Client.Send cl))]>)
    (set_clients
       (<[c:=Client.with_Send (λ ch, Chan.mk [] (Chan.cap ch) (Chan.closed ch)) cl]>) w).

Lemma writeMessages_loop_closed_queue c queued : ∀ w cl cn,
  clients w !! c = Some cl → Chan.buf (Client.Send cl) = queued →
  Chan.closed (Client.Send cl) = true →
  conns w !! Client.Socket cl = Some cn → Conn.closed cn = false →
  writeMessages_loop c (S (length queued)) w = Done () (drained c cl cn w).
Proof.
  induction queued as [|message rest IH]; intros w cl cn Hc Hbuf Hclosed Hcn Hcopen.
  - simpl. rewrite bind_run, (get_client_Some _ _ _ Hc).
    rewrite bind_run. unfold receive.
    rewrite bind_run, (get_client_Some _ _ _ Hc), Hbuf, Hclosed. simpl. f_equal.
    destruct w as [sv rs cs cns]. unfold drained, set_conns, set_clients. simpl in *.
    f_equal.
    + symmetry. apply list_insert_id. rewrite Hc. f_equal.
      destruct cl as [n sk [b cp cl] r]. simpl in *. by subst.
    + symmetry. apply list_insert_id. rewrite Hcn. f_equal.
      destruct cn as [cl' wr]. simpl in *. subst. by rewrite Hbuf, app_nil_r.
  - cbn [length writeMessages_loop].
    rewrite bind_run, (get_client_Some _ _ _ Hc).
    rewrite bind_run. unfold receive at 1.
    rewrite bind_run, (get_client_Some _ _ _ Hc), Hbuf.
    rewrite bind_run. unfold put_client at 1, modify at 1.
    set (w1 := set_clients _ w). cbn [mret M_ret].
    assert (Hcn1 : conns w1 !! Client.Socket cl = Some cn) by done.
    rewrite bind_run. unfold WriteMessage at 1.
    rewrite bind_run, (get_conn_Some _ _ _ Hcn1), Hcopen.
    rewrite bind_run. unfold put_conn at 1, modify at 1.
    set (w2 := set_conns _ w1). cbn [mret M_ret].
    assert (Hlt : c < length (clients w)) by by eapply lookup_lt_Some.
    assert (Hslt : Client.Socket cl < length (conns w)) by by eapply lookup_lt_Some.
    etrans; [apply (IH w2 (Client.with_Send Chan.pop cl) (Conn.write message cn))|].
    + unfold w2, w1. simpl. by apply list_lookup_insert_eq.
    + simpl. by rewrite Hbuf.
    + done.
    + unfold w2. simpl. by apply list_lookup_insert_eq.
    + done.
    + unfold drained, w2, w1, set_conns, set_clients. simpl.
      rewrite !list_insert_insert_eq, Hbuf. simpl. f_equal. f_equal. f_equal.
      by rewrite <- app_assoc.
Qed.

Lemma writeMessages_run c w cl cn :
  clients w !! c = Some cl →
  conns w !! Client.Socket cl = Some cn → Conn.closed cn = false →
  let queue_closed := Chan.closed (Client.Send cl) in
  let w' :=
    set_conns
      (<[Client.Socket cl:=Conn.mk queue_closed
                             (Conn.written cn ++ Chan.buf (Client.Send cl))]>)
      (set_clients
         (<[c:=Client.with_Send (λ ch, Chan.mk [] (Chan.cap ch) (Chan.closed ch)) cl]>)
         w) in
  writeMessages c w = if queue_closed then Done () w' else Blocked w'.
Proof.
  intros Hc Hcn Hopen. simpl.
  assert (Hslt : Client.Socket cl < length (conns w)) by by eapply lookup_lt_Some.
  destruct (Chan.closed (Client.Send cl)) eqn:Hq.
  - unfold writeMessages. rewrite bind_run, (get_client_Some _ _ _ Hc), bind_run.
    rewrite (writeMessages_loop_closed_queue c _ w cl cn Hc eq_refl Hq Hcn Hopen).
    erewrite Socket_Close_run;
      [|unfold drained; simpl; by apply list_lookup_insert_eq].
    f_equal. unfold drained, set_conns. simpl. f_equal.
    by rewrite list_insert_insert_eq.
  - rewrite (writeMessages_drains c w cl cn Hc Hq Hcn Hopen).
    do 4 f_equal. unfold Client.with_Send. f_equal. by rewrite Hq.
Qed.

(** X1: with its connection open, [writeMessages] writes the queued
    messages to the connection, oldest first, and empties the queue; it
    then waits for more while the queue is open, and once the queue is
    closed it returns with the connection closed by its deferred
    function.  The rooms, the registry, the other clients and the other
    connections are as before. *)
Theorem writeMessages_writes_queue_in_order c w cl cn :
  clients w !! c = Some cl →
  conns w !! Client.Socket cl = Some cn → Conn.closed cn = false →
  let queue_closed := Chan.closed (Client.Send cl) in
  ∃ w',
    writeMessages c w = (if queue_closed then Done () w' else Blocked w')
    ∧ conns w' !! Client.Socket cl
      = Some (Conn.mk queue_closed (Conn.written cn ++ Chan.buf (Client.Send cl)))
    ∧ clients w' !! c
      = Some (Client.with_Send (λ ch, Chan.mk [] (Chan.cap ch) (Chan.closed ch)) cl)
    ∧ server w' = server w ∧ rooms w' = rooms w
    ∧ (∀ l, l ≠ c → clients w' !! l = clients w !! l)
    ∧ (∀ s, s ≠ Client.Socket cl → conns w' !! s = conns w !! s).
Proof.
  intros Hc Hcn Hopen queue_closed.
  assert (Hlt : c < length (clients w)) by by eapply lookup_lt_Some.
  assert (Hslt : Client.Socket cl < length (conns w)) by by eapply lookup_lt_Some.
  eexists. split; [apply (writeMessages_run c w cl cn Hc Hcn Hopen)|]. simpl.
  split; [by apply list_lookup_insert_eq|].
  split; [by apply list_lookup_insert_eq|].
  do 2 (split; [done|]).
  split; intros x Hx; by apply list_lookup_insert_ne.
Qed.

(** X2: on a connection that is closed the first write fails: the drain
    takes one message off the queue, writes nothing, and returns; the
    messages behind it stay queued and are never written.  With nothing
    queued it waits while the queue is open, and returns once it is
    closed. *)
Theorem writeMessages_stops_at_write_error c w cl cn :
  clients w !! c = Some cl →
  conns w !! Client.Socket cl = Some cn → Conn.closed cn = true →
  writeMessages c w
  = match Chan.buf (Client.Send cl) with
    | _ :: rest =>
        Done ()
          (set_clients
             (<[c:=Client.with_Send
                     (λ ch, Chan.mk rest (Chan.cap ch) (Chan.closed ch)) cl]>) w)
    | [] => if Chan.closed (Client.Send cl) then Done () w else Blocked w
    end.
Proof.
  intros Hc Hcn Hclosed. unfold writeMessages.
  rewrite bind_run, (get_client_Some _ _ _ Hc), bind_run.
  assert (Hid : <[Client.Socket cl:=Conn.close cn]> (conns w) = conns w).
  { apply list_insert_id. rewrite Hcn. f_equal.
    destruct cn as [b wr]. simpl in *. by subst. }
  destruct (Chan.buf (Client.Send cl)) as [|message rest] eqn:Hbuf.
  - cbn [length writeMessages_loop].
    rewrite bind_run, (get_client_Some _ _ _ Hc), bind_run. unfold receive.
    rewrite bind_run, (get_client_Some _ _ _ Hc), Hbuf.
    destruct (Chan.closed (Client.Send cl)); [|done]. cbn [mret M_ret].
    rewrite (Socket_Close_run _ _ _ Hcn). f_equal.
    destruct w as [sv rs cs cns]. unfold set_conns. simpl in *. by rewrite Hid.
  - cbn [length writeMessages_loop].
    rewrite bind_run, (get_client_Some _ _ _ Hc), bind_run. unfold receive at 1.
    rewrite bind_run, (get_client_Some _ _ _ Hc), Hbuf.
    rewrite bind_run. unfold put_client at 1, modify at 1.
    set (w1 := set_clients _ w). cbn [mret M_ret].
    assert (Hcn1 : conns w1 !! Client.Socket cl = Some cn) by done.
    rewrite bind_run. unfold WriteMessage at 1.
    rewrite bind_run, (get_conn_Some _ _ _ Hcn1), Hclosed. cbn [mret M_ret].
    rewrite (Socket_Close_run _ _ _ Hcn1). f_equal.
    unfold w1, set_conns, set_clients. simpl. rewrite Hid.
    unfold Client.with_Send, Chan.pop. by rewrite Hbuf.
Qed.

End drain.

(** ** The read loop as a relay *)

Section relay.

Variable json_Unmarshal : bytes → option (gmap string JSON).

(** The client [c] with [added] behind what was queued for it. *)
Definition appended (added : list bytes) (c : Client.t) : Client.t :=
  Client.with_Send
    (λ ch, Chan.mk (Chan.buf ch ++ added) (Chan.cap ch) (Chan.closed ch)) c.

(** [message] is a negotiation message of [c] whose target is a name of
    the client [l] in the room of [c]. *)
Definition routed_to (w : World) (c l : loc) (message : bytes) : Prop :=
  ∃ cl room rm data,
    clients w !! c = Some cl ∧ Client.Room cl = Some room
    ∧ rooms w !! room = Some rm
    ∧ json_Unmarshal message = Some data
    ∧ negotiation (as_string (data !! "type"))
    ∧ Room.Clients rm !! as_string (data !! "target") = Some l.

(** What the read loop of [c] may do to a state over the messages
    [incoming]: every queue grows by some of them, in their order, each
    one routed to the client of the queue. *)
Definition relayed (c : loc) (incoming : list bytes) (w w' : World) : Prop :=
  server w' = server w ∧ rooms w' = rooms w ∧ conns w' = conns w
  ∧ length (clients w') = length (clients w)
  ∧ ∀ l cl, clients w !! l = Some cl →
      ∃ added,
        clients w' !! l = Some (appended added cl)
        ∧ sublist added incoming
        ∧ Forall (routed_to w c l) added.

Lemma appended_nil cl : appended [] cl = cl.
Proof.
  destruct cl as [n s [b cp cd] r]. unfold appended, Client.with_Send. simpl.
  by rewrite app_nil_r.
Qed.

Lemma appended_app a1 a2 cl : appended a2 (appended a1 cl) = appended (a1 ++ a2) cl.
Proof. unfold appended, Client.with_Send. simpl. by rewrite app_assoc. Qed.

Lemma appended_push message cl :
  Client.with_Send (Chan.push message) cl = appended [message] cl.
Proof. reflexivity. Qed.

Lemma relayed_refl c incoming w : relayed c incoming w w.
Proof.
  do 4 (split; [done|]). intros l cl Hl. exists [].
  rewrite appended_nil. split; [done|]. split; [apply sublist_nil_l|constructor].
Qed.

Lemma routed_to_relayed c incoming w w1 l message :
  relayed c incoming w w1 → routed_to w1 c l message → routed_to w c l message.
Proof.
  intros (_ & Hrs & _ & Hlen & Hcs) (cl1 & room & rm & data & Hc & Hroom & Hr & Hd & Hn & Ht).
  assert (is_Some (clients w !! c)) as [cl Hcl].
  { apply lookup_lt_is_Some. rewrite <- Hlen. by eapply lookup_lt_Some. }
  destruct (Hcs _ _ Hcl) as (added & Hc1 & _).
  rewrite Hc in Hc1. injection Hc1 as ->.
  exists cl, room, rm, data. rewrite <- Hrs. done.
Qed.

Lemma relayed_cons c message rest w w1 w' :
  relayed c [message] w w1 → relayed c rest w1 w' →
  relayed c (message :: rest) w w'.
Proof.
  intros H1 H2.
  pose proof H1 as (Hs1 & Hr1 & Hc1 & Hl1 & Hcs1).
  pose proof H2 as (Hs2 & Hr2 & Hc2 & Hl2 & Hcs2).
  split; [congruence|]. split; [congruence|]. split; [congruence|].
  split; [congruence|].
  intros l cl Hl.
  destruct (Hcs1 _ _ Hl) as (a1 & Hl1' & Hsub1 & Hrt1).
  destruct (Hcs2 _ _ Hl1') as (a2 & Hl2' & Hsub2 & Hrt2).
  exists (a1 ++ a2). rewrite <- appended_app. split; [done|]. split.
  - change (message :: rest) with ([message] ++ rest). by apply sublist_app.
  - apply Forall_app. split; [done|].
    eapply Forall_impl; [exact Hrt2|]. intros m. by apply routed_to_relayed with [message].
Qed.

(** The forward of one message leaves the state as it is, or queues the
    message for the member called [target]. *)
Lemma readMessages_forward_final c message target w :
  final (readMessages_forward c message target w) = w
  ∨ ∃ cl room rm t tc,
      clients w !! c = Some cl ∧ Client.Room cl = Some room
      ∧ rooms w !! room = Some rm ∧ Room.Clients rm !! target = Some t
      ∧ clients w !! t = Some tc
      ∧ final (readMessages_forward c message target w)
        = set_clients (<[t:=Client.with_Send (Chan.push message) tc]>) w.
Proof.
  destruct (clients w !! c) as [cl|] eqn:Hc;
    [|left; unfold readMessages_forward, get_client; by rewrite bind_run, Hc].
  destruct (Client.Room cl) as [room|] eqn:Hroom;
    [|left; unfold readMessages_forward;
      by rewrite bind_run, (get_client_Some _ _ _ Hc), Hroom].
  destruct (rooms w !! room) as [rm|] eqn:Hr;
    [|left; unfold readMessages_forward, Room_Lock, get_room;
      by rewrite bind_run, (get_client_Some _ _ _ Hc), Hroom, !bind_run, Hr].
  destruct (Room.Mutex rm) eqn:Hm.
  { left. unfold readMessages_forward.
    by rewrite bind_run, (get_client_Some _ _ _ Hc), Hroom, bind_run,
      (Room_Lock_held _ _ _ Hr Hm). }
  rewrite (readMessages_forward_run w c cl room rm message target Hc Hroom Hr Hm).
  destruct (Room.Clients rm !! target) as [t|] eqn:Ht; [|by left].
  unfold trySend. rewrite !bind_run. unfold get_client.
  destruct (clients w !! t) as [tc|] eqn:Htc; [|by left].
  destruct (Chan.closed (Client.Send tc)); [by left|].
  destruct (Chan.full (Client.Send tc)); [by left|].
  right. exists cl, room, rm, t, tc. done.
Qed.

Lemma readMessages_dispatch_relayed c message w :
  relayed c [message] w (final (readMessages_dispatch json_Unmarshal c message w)).
Proof.
  unfold readMessages_dispatch.
  destruct (json_Unmarshal message) as [data|] eqn:Hd; [|apply relayed_refl].
  destruct (decide _) as [Hn|_].
  - destruct (decide _) as [|Hne]; [apply relayed_refl|].
    rewrite bind_run.
    assert (Hfin : ∀ o : outcome (),
              final match o with
                    | Done a w' => (mret true : M bool) w'
                    | Blocked w' => Blocked w'
                    | Panic w' => Panic w'
                    end = final o) by by intros [].
    rewrite Hfin.
    destruct (readMessages_forward_final c message (as_string (data !! "target")) w)
      as [->|(cl & room & rm & t & tc & Hc & Hroom & Hr & Ht & Htc & ->)];
      [apply relayed_refl|].
    do 3 (split; [done|]). split; [simpl; by rewrite length_insert|].
    intros l cl' Hl. simpl.
    destruct (decide (l = t)) as [->|Hlt].
    + exists [message]. rewrite Htc in Hl. injection Hl as <-. split.
      * apply list_lookup_insert_eq. by eapply lookup_lt_Some.
      * split; [done|]. constructor; [|constructor].
        by exists cl, room, rm, data.
    + exists []. rewrite appended_nil, list_lookup_insert_ne by done.
      split; [done|]. split; [apply sublist_nil_l|constructor].
  - destruct (decide _); apply relayed_refl.
Qed.

Lemma relayed_weaken c message rest w w' :
  relayed c [message] w w' → relayed c (message :: rest) w w'.
Proof.
  intros H. apply relayed_cons with w'; [done|apply relayed_refl].
Qed.

Lemma readMessages_loop_relayed c incoming : ∀ w,
  relayed c incoming w (final (readMessages_loop json_Unmarshal c incoming w)).
Proof.
  induction incoming as [|message rest IH]; intros w.
  - cbn [readMessages_loop]. rewrite bind_run. unfold get_client.
    destruct (clients w !! c) as [cl|]; [|apply relayed_refl].
    unfold ReadMessage. rewrite !bind_run. unfold get_conn.
    destruct (conns w !! Client.Socket cl); apply relayed_refl.
  - cbn [readMessages_loop]. rewrite bind_run. unfold get_client.
    destruct (clients w !! c) as [cl|]; [|apply relayed_refl].
    unfold ReadMessage. rewrite !bind_run. unfold get_conn.
    destruct (conns w !! Client.Socket cl) as [cn|]; [|apply relayed_refl].
    cbn [mret M_ret]. destruct (Conn.closed cn); [apply relayed_refl|].
    rewrite bind_run.
    pose proof (readMessages_dispatch_relayed c message w) as Hd.
    destruct (readMessages_dispatch json_Unmarshal c message w) as [[] w1|w1|w1];
      simpl in Hd.
    + apply relayed_cons with w1; [done|apply IH].
    + by apply relayed_weaken.
    + by apply relayed_weaken.
    + by apply relayed_weaken.
Qed.

(** X3: whatever the peer of [c] sends, the read loop of [c] leaves the
    registry, the rooms and the connections as they are, and a queue
    only grows: by messages of the peer, byte for byte and in the order
    they came, each a negotiation message whose target names the client
    of that queue in the room of [c].  So no message crosses into another
    room, none is altered, and none reaches a client it does not name. *)
Theorem readMessages_loop_relays_in_order c incoming w :
  let w' := final (readMessages_loop json_Unmarshal c incoming w) in
  server w' = server w ∧ rooms w' = rooms w ∧ conns w' = conns w
  ∧ length (clients w') = length (clients w)
  ∧ ∀ l cl, clients w !! l = Some cl →
      ∃ added,
        clients w' !! l = Some (appended added cl)
        ∧ sublist added incoming
        ∧ Forall (routed_to w c l) added.
Proof. apply readMessages_loop_relayed. Qed.

(** *** Messages the read loop passes over *)

(** The cases of lines 213-216, 223-226 and 245-248: not JSON, a
    negotiation message without a target that is a non-empty string, or a
    type that is none of [offer], [answer], [candidate] and [leave]. *)
Definition passed_over (message : bytes) : Prop :=
  match json_Unmarshal message with
  | None => True
  | Some data =>
      let messageType := as_string (data !! "type") in
      if decide (negotiation messageType)
      then as_string (data !! "target") = ""
      else messageType ≠ "leave"
  end.

Lemma readMessages_dispatch_passed_over c message w :
  passed_over message → readMessages_dispatch json_Unmarshal c message w = Done true w.
Proof.
  unfold passed_over, readMessages_dispatch, negotiation.
  destruct (json_Unmarshal message) as [data|]; [|done]. simpl.
  destruct (decide _); intros H.
  - by rewrite decide_True.
  - by rewrite decide_False.
Qed.

(** A [join] is one of them: a client that is admitted cannot join
    again, under another name or into another room. *)
Lemma join_passed_over message name roomName :
  valid_join json_Unmarshal message name roomName → passed_over message.
Proof.
  intros (data & Hd & Ht & _). unfold passed_over. rewrite Hd, Ht.
  cbn [as_string]. destruct (decide _) as [[|[|]]|]; discriminate.
Qed.

(** X4: while the connection of [c] is open, the read loop goes over
    every message that is not JSON, that is a negotiation message
    without a target, or whose type it does not know (a second [join]
    among them) without any effect, and handles what follows as if they
    had not been sent. *)
Theorem readMessages_loop_passes_over c cl cn pre incoming w :
  clients w !! c = Some cl →
  conns w !! Client.Socket cl = Some cn → Conn.closed cn = false →
  Forall passed_over pre →
  readMessages_loop json_Unmarshal c (pre ++ incoming) w
  = readMessages_loop json_Unmarshal c incoming w.
Proof.
  intros Hc Hcn Hopen Hpre.
  induction Hpre as [|message pre Hm _ IH]; [done|].
  cbn [app readMessages_loop].
  rewrite bind_run, (get_client_Some _ _ _ Hc).
  rewrite bind_run, (ReadMessage_open _ _ _ _ Hcn Hopen).
  by rewrite bind_run, (readMessages_dispatch_passed_over _ _ _ Hm).
Qed.

Variable json_Marshal : gmap string JSON → bytes.
Variable range : gmap string loc → list (string * loc).

(** X5: the reader of a client whose connection this side has closed
    (the eviction of lines 146-150) handles none of the messages of its
    peer; its deferred function removes from the room the entry under
    the name of the client, whichever client that entry now holds, and
    then waits in [RemoveClient]. *)
Theorem closed_reader_removes_by_name e ecl cn r rm incoming w :
  clients w !! e = Some ecl → Client.Room ecl = Some r →
  conns w !! Client.Socket ecl = Some cn → Conn.closed cn = true →
  rooms w !! r = Some rm → Room.Mutex rm = false →
  readMessages json_Unmarshal json_Marshal range e incoming w
  = Blocked
      (set_rooms
         (<[r:=Room.mk (Room.Name rm) (delete (Client.Name ecl) (Room.Clients rm)) true]>)
         w).
Proof.
  intros He Hroom Hcn Hclosed Hr Hm. unfold readMessages.
  assert (Hloop : readMessages_loop json_Unmarshal e incoming w = Done () w).
  { destruct incoming; cbn [readMessages_loop];
      rewrite bind_run, (get_client_Some _ _ _ He); unfold ReadMessage;
      by rewrite !bind_run, (get_conn_Some _ _ _ Hcn), Hclosed. }
  rewrite bind_run, Hloop. unfold readMessages_deferred.
  rewrite bind_run, (get_client_Some _ _ _ He), Hroom, bind_run.
  by rewrite (RemoveClient_run_free json_Marshal range w r rm _ Hr Hm).
Qed.

(** X6: end to end.  A negotiation message of [c] for the member [t],
    whose queue has room, is the next message written to the connection
    of [t] after what was queued for [t] before, byte for byte. *)
Theorem forwarded_message_is_written c cl room rm message data target t tc cn w :
  clients w !! c = Some cl → Client.Room cl = Some room →
  rooms w !! room = Some rm → Room.Mutex rm = false →
  json_Unmarshal message = Some data →
  negotiation (as_string (data !! "type")) →
  as_string (data !! "target") = target → target ≠ "" →
  Room.Clients rm !! target = Some t →
  clients w !! t = Some tc →
  Chan.closed (Client.Send tc) = false → Chan.full (Client.Send tc) = false →
  conns w !! Client.Socket tc = Some cn → Conn.closed cn = false →
  ∃ w1 w2,
    readMessages_dispatch json_Unmarshal c message w = Done true w1
    ∧ writeMessages t w1 = Blocked w2
    ∧ conns w2 !! Client.Socket tc
      = Some (Conn.mk false
                (Conn.written cn ++ Chan.buf (Client.Send tc) ++ [message]))
    ∧ Chan.buf ∘ Client.Send <$> clients w2 !! t = Some [].
Proof.
  intros Hc Hroom Hr Hm Hd Hn Ht Hne Hmem Htc Hopen Hfull Hcn Hcopen. subst target.
  assert (Htlt : t < length (clients w)) by by eapply lookup_lt_Some.
  assert (Hslt : Client.Socket tc < length (conns w)) by by eapply lookup_lt_Some.
  set (w1 := set_clients (<[t:=Client.with_Send (Chan.push message) tc]>) w).
  assert (Hrun : readMessages_dispatch json_Unmarshal c message w = Done true w1).
  { rewrite (readMessages_dispatch_forward json_Unmarshal w c message data Hd Hn Hne).
    rewrite bind_run, (readMessages_forward_run w c cl room rm _ _ Hc Hroom Hr Hm), Hmem.
    rewrite bind_run, (trySend_open _ _ _ _ Htc Hopen). unfold deliver.
    by rewrite Hfull. }
  assert (Htc1 : clients w1 !! t = Some (Client.with_Send (Chan.push message) tc)).
  { unfold w1. simpl. by apply list_lookup_insert_eq. }
  eexists w1, _. split; [exact Hrun|]. split.
  - apply (writeMessages_drains t w1 _ cn Htc1); done.
  - simpl. split.
    + by rewrite list_lookup_insert_eq.
    + rewrite list_lookup_insert_eq; [done|]. by rewrite length_insert.
Qed.

End relay.

(** ** What no call undoes *)

Section later.

Variable json_Unmarshal : bytes → option (gmap string JSON).
Variable json_Marshal : gmap string JSON → bytes.
Variable range : gmap string loc → list (string * loc).

(** Every queue was made with the capacity of line 110 and holds no
    more than that. *)
Definition bounded (w : World) : Prop :=
  ∀ l c, clients w !! l = Some c →
    Chan.cap (Client.Send c) = Send_capacity
    ∧ length (Chan.buf (Client.Send c)) ≤ Send_capacity.

(** A client record after a step: the same connection and the same
    channel, not reopened, and within its capacity if it was. *)
Definition client_later (c c' : Client.t) : Prop :=
  Client.Socket c' = Client.Socket c
  ∧ Chan.cap (Client.Send c') = Chan.cap (Client.Send c)
  ∧ (Chan.closed (Client.Send c) = true → Chan.closed (Client.Send c') = true)
  ∧ (length (Chan.buf (Client.Send c)) ≤ Chan.cap (Client.Send c) →
     length (Chan.buf (Client.Send c')) ≤ Chan.cap (Client.Send c)).

(** A connection after a step: more may have been written to it, unless
    it was closed. *)
Definition conn_later (cn cn' : Conn.t) : Prop :=
  Conn.written cn `prefix_of` Conn.written cn'
  ∧ (Conn.closed cn = true → cn' = cn).

(** [w'] is a state the server can be in later than [w]. *)
Record later (w w' : World) : Prop := mk_later {
  later_registry : Server.Rooms (server w) ⊆ Server.Rooms (server w');
  later_rooms : ∀ r rm, rooms w !! r = Some rm →
    ∃ rm', rooms w' !! r = Some rm' ∧ Room.Name rm' = Room.Name rm;
  later_clients : ∀ l c, clients w !! l = Some c →
    ∃ c', clients w' !! l = Some c' ∧ client_later c c';
  later_conns : ∀ s cn, conns w !! s = Some cn →
    ∃ cn', conns w' !! s = Some cn' ∧ conn_later cn cn';
  later_bounded : bounded w → bounded w'
}.

Lemma client_later_refl c : client_later c c.
Proof. done. Qed.

Lemma conn_later_refl cn : conn_later cn cn.
Proof. done. Qed.

Lemma later_refl w : later w w.
Proof.
  split; [done|by eauto|by eauto using client_later_refl
         |by eauto using conn_later_refl|done].
Qed.

Lemma later_trans w1 w2 w3 : later w1 w2 → later w2 w3 → later w1 w3.
Proof.
  intros [Hg1 Hr1 Hc1 Hn1 Hb1] [Hg2 Hr2 Hc2 Hn2 Hb2]. split.
  - by etrans.
  - intros r rm Hr. destruct (Hr1 _ _ Hr) as (rm2 & Hr2' & Hname2).
    destruct (Hr2 _ _ Hr2') as (rm3 & Hr3 & Hname3). exists rm3. split; congruence.
  - intros l c Hl. destruct (Hc1 _ _ Hl) as (c2 & Hl2 & Hs2 & Hcap2 & Hcl2 & Hlen2).
    destruct (Hc2 _ _ Hl2) as (c3 & Hl3 & Hs3 & Hcap3 & Hcl3 & Hlen3).
    exists c3. split; [done|]. split; [congruence|]. split; [congruence|].
    split; [by auto|]. intros Hle. rewrite <- Hcap2. apply Hlen3.
    rewrite Hcap2. by apply Hlen2.
  - intros s cn Hs. destruct (Hn1 _ _ Hs) as (cn2 & Hs2 & Hp2 & Hcl2).
    destruct (Hn2 _ _ Hs2) as (cn3 & Hs3 & Hp3 & Hcl3).
    exists cn3. split; [done|]. split; [by etrans|].
    intros Hcl. specialize (Hcl2 Hcl). subst cn2. by apply Hcl3.
  - by auto.
Qed.

(** *** One store at a time *)

Lemma later_set_Mutex w b : later w (set_server (Server.with_Mutex b) w).
Proof.
  split; [done|by eauto|by eauto using client_later_refl
         |by eauto using conn_later_refl|done].
Qed.

Lemma later_put_room w r rm rm' :
  rooms w !! r = Some rm → Room.Name rm' = Room.Name rm →
  later w (set_rooms (<[r:=rm']>) w).
Proof.
  intros Hr Hname.
  split; [done| |by eauto using client_later_refl
         |by eauto using conn_later_refl|done].
  intros r0 rm0 Hr0. simpl. destruct (decide (r0 = r)) as [->|Hne].
  - exists rm'. rewrite list_lookup_insert_eq by by eapply lookup_lt_Some.
    split; congruence.
  - exists rm0. by rewrite list_lookup_insert_ne.
Qed.

Lemma later_put_client w l c c' :
  clients w !! l = Some c → client_later c c' →
  later w (set_clients (<[l:=c']>) w).
Proof.
  intros Hl Hc.
  split; [done|by eauto| |by eauto using conn_later_refl|].
  - intros l0 c0 Hl0. simpl. destruct (decide (l0 = l)) as [->|Hne].
    + exists c'. rewrite list_lookup_insert_eq by by eapply lookup_lt_Some.
      split; congruence.
    + exists c0. rewrite list_lookup_insert_ne by done.
      split; [done|apply client_later_refl].
  - intros Hb l0 c0. simpl. destruct (decide (l0 = l)) as [->|Hne].
    + rewrite list_lookup_insert_eq by by eapply lookup_lt_Some.
      intros [= <-]. destruct (Hb _ _ Hl) as [Hcap Hlen].
      destruct Hc as (_ & Hcap' & _ & Hlen'). split; [congruence|].
      rewrite <- Hcap. apply Hlen'. by rewrite Hcap.
    + rewrite list_lookup_insert_ne by done. apply Hb.
Qed.

Lemma later_put_conn w s cn cn' :
  conns w !! s = Some cn → conn_later cn cn' →
  later w (set_conns (<[s:=cn']>) w).
Proof.
  intros Hs Hcn.
  split; [done|by eauto|by eauto using client_later_refl| |done].
  intros s0 cn0 Hs0. simpl. destruct (decide (s0 = s)) as [->|Hne].
  - exists cn'. rewrite list_lookup_insert_eq by by eapply lookup_lt_Some.
    split; congruence.
  - exists cn0. by rewrite list_lookup_insert_ne.
Qed.

Lemma later_new_conn w cn : later w (set_conns (λ l, l ++ [cn]) w).
Proof.
  split; [done|by eauto|by eauto using client_later_refl| |done].
  intros s cn0 Hs. exists cn0. simpl.
  rewrite lookup_app_l by by eapply lookup_lt_Some. done.
Qed.

Lemma later_new_client w c :
  Chan.cap (Client.Send c) = Send_capacity →
  length (Chan.buf (Client.Send c)) ≤ Send_capacity →
  later w (set_clients (λ l, l ++ [c]) w).
Proof.
  intros Hcap Hlen.
  split; [done|by eauto| |by eauto using conn_later_refl|].
  - intros l c0 Hl. exists c0. simpl.
    rewrite lookup_app_l by by eapply lookup_lt_Some. done.
  - intros Hb l c0. simpl. intros [Hl|[_ Hl]]%lookup_app_Some.
    + by apply (Hb l).
    + apply list_lookup_singleton_Some in Hl as [_ <-]. done.
Qed.

(** *** Calls *)

Definition steps {A} (m : M A) : Prop := ∀ w, later w (final (m w)).

Lemma steps_bind {A B} (m : M A) (f : A → M B) :
  steps m → (∀ a, steps (f a)) → steps (m ≫= f).
Proof.
  intros Hm Hf w. rewrite bind_run. specialize (Hm w).
  destruct (m w) as [a w1|w1|w1]; simpl in *; [|done..].
  eapply later_trans; [exact Hm|apply Hf].
Qed.

Lemma steps_ret {A} (a : A) : steps (mret a : M A).
Proof. intros w. apply later_refl. Qed.

Lemma steps_block {A} : steps (block : M A).
Proof. intros w. apply later_refl. Qed.

Lemma steps_panic {A} : steps (panic : M A).
Proof. intros w. apply later_refl. Qed.

Lemma steps_get_room r : steps (get_room r).
Proof. intros w. unfold get_room. destruct (rooms w !! r); apply later_refl. Qed.

Lemma steps_get_client c : steps (get_client c).
Proof. intros w. unfold get_client. destruct (clients w !! c); apply later_refl. Qed.

Lemma steps_get_conn s : steps (get_conn s).
Proof. intros w. unfold get_conn. destruct (conns w !! s); apply later_refl. Qed.

(** What is read from a store is what the store holds. *)
Lemma steps_read_room {B} r (k : Room.t → M B) :
  (∀ rm w, rooms w !! r = Some rm → later w (final (k rm w))) →
  steps (get_room r ≫= k).
Proof.
  intros H w. rewrite bind_run. unfold get_room.
  destruct (rooms w !! r) eqn:Hr; [by apply H|apply later_refl].
Qed.

Lemma steps_read_client {B} l (k : Client.t → M B) :
  (∀ c w, clients w !! l = Some c → later w (final (k c w))) →
  steps (get_client l ≫= k).
Proof.
  intros H w. rewrite bind_run. unfold get_client.
  destruct (clients w !! l) eqn:Hl; [by apply H|apply later_refl].
Qed.

Lemma steps_read_conn {B} s (k : Conn.t → M B) :
  (∀ cn w, conns w !! s = Some cn → later w (final (k cn w))) →
  steps (get_conn s ≫= k).
Proof.
  intros H w. rewrite bind_run. unfold get_conn.
  destruct (conns w !! s) eqn:Hs; [by apply H|apply later_refl].
Qed.

(** A field of a client is assigned, and the call goes on. *)
Lemma steps_assign {B} l (f : Client.t → Client.t) (k : M B) :
  (∀ c, client_later c (f c)) → steps k →
  steps (c ← get_client l; put_client l (f c);; k).
Proof.
  intros Hf Hk. apply steps_read_client. intros c w Hl.
  rewrite bind_run. simpl.
  eapply later_trans; [by apply (later_put_client w l c (f c))|apply Hk].
Qed.

Lemma steps_Server_Lock : steps Server_Lock.
Proof.
  intros w. unfold Server_Lock.
  destruct (Server.Mutex (server w)); [apply later_refl|apply later_set_Mutex].
Qed.

Lemma steps_Server_Unlock : steps Server_Unlock.
Proof.
  intros w. unfold Server_Unlock.
  destruct (Server.Mutex (server w)); [apply later_set_Mutex|apply later_refl].
Qed.

Lemma steps_Room_Lock r : steps (Room_Lock r).
Proof.
  apply steps_read_room. intros rm w Hr.
  destruct (Room.Mutex rm); [apply later_refl|by apply (later_put_room w r rm)].
Qed.

Lemma steps_Room_Unlock r : steps (Room_Unlock r).
Proof.
  apply steps_read_room. intros rm w Hr.
  destruct (Room.Mutex rm); [by apply (later_put_room w r rm)|apply later_refl].
Qed.

Lemma steps_lookup_member r name : steps (lookup_member r name).
Proof. apply steps_bind; [apply steps_get_room|intros rm; apply steps_ret]. Qed.

Lemma steps_delete_member r name : steps (delete_member r name).
Proof. apply steps_read_room. intros rm w Hr. by apply (later_put_room w r rm). Qed.

Lemma steps_insert_member r name client : steps (insert_member r name client).
Proof. apply steps_read_room. intros rm w Hr. by apply (later_put_room w r rm). Qed.

Lemma client_later_push message c :
  Chan.full (Client.Send c) = false →
  client_later c (Client.with_Send (Chan.push message) c).
Proof.
  intros Hfull. do 3 (split; [done|]). intros _.
  apply bool_decide_eq_false in Hfull. simpl. rewrite length_app. simpl. lia.
Qed.

Lemma steps_trySend client message : steps (trySend client message).
Proof.
  apply steps_read_client. intros c w Hc.
  destruct (Chan.closed (Client.Send c)); [apply later_refl|].
  destruct (Chan.full (Client.Send c)) eqn:Hfull; [apply later_refl|].
  apply (later_put_client w client c); [done|by apply client_later_push].
Qed.

Lemma steps_Send client message : steps (Send client message).
Proof.
  apply steps_read_client. intros c w Hc.
  destruct (Chan.closed (Client.Send c)); [apply later_refl|].
  destruct (Chan.full (Client.Send c)) eqn:Hfull; [apply later_refl|].
  apply (later_put_client w client c); [done|by apply client_later_push].
Qed.

Lemma steps_close_Send client : steps (close_Send client).
Proof.
  apply steps_read_client. intros c w Hc.
  destruct (Chan.closed (Client.Send c)); [apply later_refl|].
  by apply (later_put_client w client c).
Qed.

Lemma steps_receive client : steps (receive client).
Proof.
  apply steps_read_client. intros c w Hc.
  destruct (Chan.buf (Client.Send c)) as [|message rest] eqn:Hbuf.
  { destruct (Chan.closed (Client.Send c)); apply later_refl. }
  apply (later_put_client w client c); [done|].
  do 3 (split; [done|]). simpl. rewrite Hbuf. simpl. lia.
Qed.

Lemma steps_Socket_Close socket : steps (Socket_Close socket).
Proof.
  apply steps_read_conn. intros cn w Hs.
  apply (later_put_conn w socket cn); [done|]. split; [done|].
  destruct cn as [b wr]. simpl. by intros ->.
Qed.

Lemma steps_WriteMessage socket message : steps (WriteMessage socket message).
Proof.
  apply steps_read_conn. intros cn w Hs.
  destruct (Conn.closed cn) eqn:Hcl; [apply later_refl|].
  apply (later_put_conn w socket cn); [done|]. split; [|congruence].
  by apply prefix_app_r.
Qed.

Lemma steps_ReadMessage socket next : steps (ReadMessage socket next).
Proof. apply steps_bind; [apply steps_get_conn|intros cn; apply steps_ret]. Qed.

Lemma steps_GetOrCreateRoom roomName : steps (GetOrCreateRoom roomName).
Proof.
  intros w. destruct (Server.Mutex (server w)) eqn:Hm.
  { unfold GetOrCreateRoom. rewrite bind_run, (Server_Lock_held _ Hm).
    apply later_refl. }
  rewrite (GetOrCreateRoom_run _ _ Hm).
  destruct (Server.Rooms (server w) !! roomName) eqn:Hreg; [apply later_refl|].
  split; simpl; [by apply insert_subseteq| |by eauto using client_later_refl
                |by eauto using conn_later_refl|done].
  intros r rm Hr. exists rm. rewrite lookup_app_l by by eapply lookup_lt_Some. done.
Qed.

Create HintDb steps discriminated.
#[local] Hint Resolve steps_ret steps_block steps_panic steps_get_room
  steps_get_client steps_get_conn steps_Server_Lock steps_Server_Unlock
  steps_Room_Lock steps_Room_Unlock steps_lookup_member steps_delete_member
  steps_insert_member steps_trySend steps_Send steps_close_Send steps_receive
  steps_Socket_Close steps_WriteMessage steps_ReadMessage steps_GetOrCreateRoom
  : steps.

Ltac steps_step :=
  first
    [ solve [auto with steps]
    | apply steps_assign; [done|]
    | apply steps_bind; [|intros ?]
    | match goal with
      | |- steps (if ?b then _ else _) => destruct b
      | |- steps (match ?o with Some _ => _ | None => _ end) => destruct o
      end ].

Lemma steps_Broadcast_loop entries message exclude :
  steps (Broadcast_loop entries message exclude).
Proof.
  induction entries as [|[name client] rest IH]; simpl; [apply steps_ret|].
  repeat steps_step.
Qed.

Lemma steps_Broadcast r message exclude : steps (Broadcast range r message exclude).
Proof.
  unfold Broadcast. pose proof steps_Broadcast_loop. repeat steps_step.
Qed.

Lemma steps_RemoveClient r clientName :
  steps (RemoveClient json_Marshal range r clientName).
Proof.
  unfold RemoveClient. apply steps_bind; [apply steps_Room_Lock|]. intros _.
  apply steps_read_room. intros rm w Hr. rewrite bind_run. simpl.
  apply (later_trans _ (set_rooms (<[r:=Room.with_Clients (delete clientName) rm]>) w));
    [by apply (later_put_room w r rm)|].
  pose proof steps_Broadcast as HB.
  assert (Hk : steps (Broadcast range r (json_Marshal (leaveMessage clientName)) "";;
                      Room_Unlock r)) by repeat steps_step.
  apply Hk.
Qed.

Lemma steps_handleWebSocket_join client name roomName :
  steps (handleWebSocket_join json_Marshal range client name roomName).
Proof.
  unfold handleWebSocket_join, handleWebSocket_admit, handleWebSocket_evict,
    handleWebSocket_userList.
  pose proof steps_Broadcast as HB.
  apply steps_assign; [done|].
  apply steps_bind; [apply steps_GetOrCreateRoom|]. intros room.
  apply steps_assign; [done|].
  repeat steps_step.
Qed.

Lemma steps_handleWebSocket_loop client socket incoming :
  steps (handleWebSocket_loop json_Unmarshal json_Marshal range client socket incoming).
Proof.
  pose proof steps_handleWebSocket_join as HJ.
  induction incoming as [|message rest IH]; simpl; [repeat steps_step|].
  apply steps_bind; [apply steps_ReadMessage|]. intros [m|]; [|repeat steps_step].
  destruct (json_Unmarshal m) as [data|]; [|done]. simpl.
  repeat case_decide; try done. repeat steps_step.
Qed.

Lemma steps_handleWebSocket upgraded incoming :
  steps (handleWebSocket json_Unmarshal json_Marshal range upgraded incoming).
Proof.
  unfold handleWebSocket. destruct upgraded; [|apply steps_ret].
  intros w. rewrite bind_run. unfold new_conn at 1. rewrite bind_run.
  unfold new_client at 1.
  eapply later_trans; [apply later_new_conn|].
  eapply later_trans; [apply later_new_client|apply steps_handleWebSocket_loop].
  - done.
  - simpl. lia.
Qed.

Lemma steps_readMessages_dispatch c message :
  steps (readMessages_dispatch json_Unmarshal c message).
Proof.
  unfold readMessages_dispatch, readMessages_forward.
  destruct (json_Unmarshal message) as [data|]; [|apply steps_ret]. simpl.
  repeat case_decide; repeat steps_step.
Qed.

Lemma steps_readMessages_loop c incoming :
  steps (readMessages_loop json_Unmarshal c incoming).
Proof.
  pose proof steps_readMessages_dispatch as HD.
  induction incoming as [|message rest IH]; simpl; repeat steps_step.
Qed.

Lemma steps_readMessages_deferred c :
  steps (readMessages_deferred json_Marshal range c).
Proof.
  unfold readMessages_deferred. pose proof steps_RemoveClient as HR.
  repeat steps_step.
Qed.

Lemma steps_writeMessages_loop c n : steps (writeMessages_loop c n).
Proof. induction n as [|n IH]; simpl; repeat steps_step. Qed.

Lemma steps_writeMessages c : steps (writeMessages c).
Proof.
  unfold writeMessages. pose proof steps_writeMessages_loop as HL.
  repeat steps_step.
Qed.

Lemma later_run k w : later w (run json_Unmarshal json_Marshal range k w).
Proof.
  destruct k; simpl.
  - apply steps_handleWebSocket.
  - apply (steps_bind _ _ (steps_readMessages_loop _ _)
             (λ _, steps_readMessages_deferred _)).
  - apply steps_readMessages_dispatch.
  - apply steps_readMessages_deferred.
  - apply steps_writeMessages.
Qed.

Lemma later_after calls : ∀ w,
  later w (after json_Unmarshal json_Marshal range calls w).
Proof.
  induction calls as [|k calls IH]; intros w; [apply later_refl|].
  eapply later_trans; [apply (later_run k)|apply IH].
Qed.

Lemma bounded_initial : bounded initial.
Proof. intros l c Hl. discriminate. Qed.

(** X7: in every state the server reaches, each outbound queue has the
    capacity 256 it was made with and holds at most 256 messages: the
    memory a slow or stuck peer can take up is bounded. *)
Theorem queues_stay_bounded calls l c :
  clients (after json_Unmarshal json_Marshal range calls initial) !! l = Some c →
  Chan.cap (Client.Send c) = 256
  ∧ length (Chan.buf (Client.Send c)) ≤ 256.
Proof. apply (later_bounded _ _ (later_after calls initial) bounded_initial). Qed.

(** X8: no call of the server removes or renames a room: whatever is
    called, a registered name stays registered to the same room, and the
    rooms that exist keep their places and their names.  A room whose
    last member has gone is kept, empty, for good. *)
Theorem rooms_are_never_removed calls w :
  let w' := after json_Unmarshal json_Marshal range calls w in
  Server.Rooms (server w) ⊆ Server.Rooms (server w')
  ∧ Room.Name <$> rooms w `prefix_of` Room.Name <$> rooms w'.
Proof.
  destruct (later_after calls w) as [Hg Hr _ _ _]. split; [done|].
  set (w' := after _ _ _ _ _) in *.
  exists (drop (length (rooms w)) (Room.Name <$> rooms w')).
  rewrite <- (take_drop (length (rooms w)) (Room.Name <$> rooms w')) at 1.
  f_equal. apply list_eq. intros r.
  destruct (rooms w !! r) as [rm|] eqn:Hrm.
  - destruct (Hr _ _ Hrm) as (rm' & Hrm' & Hname).
    rewrite lookup_take_lt by by eapply lookup_lt_Some.
    rewrite !list_lookup_fmap, Hrm, Hrm'. simpl. by rewrite Hname.
  - apply lookup_ge_None in Hrm. rewrite lookup_take_ge by done.
    rewrite list_lookup_fmap. apply lookup_ge_None_2 in Hrm. by rewrite Hrm.
Qed.

(** X9: what has been written to a connection stays written, in its
    order, whatever is called; and once the server has closed a
    connection, no call writes to it again. *)
Theorem nothing_is_written_after_Close calls w s cn :
  conns w !! s = Some cn →
  ∃ cn',
    conns (after json_Unmarshal json_Marshal range calls w) !! s = Some cn'
    ∧ Conn.written cn `prefix_of` Conn.written cn'
    ∧ (Conn.closed cn = true → cn' = cn).
Proof. apply (later_conns _ _ (later_after calls w)). Qed.

End later.

(** ** Rooms and their members in the states the server reaches *)

Section reachable.

Variable json_Unmarshal : bytes → option (gmap string JSON).
Variable json_Marshal : gmap string JSON → bytes.
Variable range : gmap string loc → list (string * loc).

(** X10: in every state the server reaches from its start, an entry of a
    room is a client that carries the name of the entry, which is not
    empty, and points back to that room, with its queue open; the room is
    registered under its own name; and a client is entered in one room
    only, under one name only. *)
Theorem member_of_one_room calls r rm name l :
  let w := after json_Unmarshal json_Marshal range calls initial in
  rooms w !! r = Some rm → Room.Clients rm !! name = Some l →
  (∃ c, clients w !! l = Some c
     ∧ Client.Name c = name ∧ name ≠ "" ∧ Client.Room c = Some r
     ∧ Chan.closed (Client.Send c) = false
     ∧ Client.Socket c < length (conns w))
  ∧ Server.Rooms (server w) !! Room.Name rm = Some r
  ∧ ∀ r' rm' name',
      rooms w !! r' = Some rm' → Room.Clients rm' !! name' = Some l →
      r' = r ∧ name' = name.
Proof.
  intros w Hr Hl.
  destruct (WF_after json_Unmarshal json_Marshal range calls initial
              WF_initial) as (_ & Hreg & Hmem).
  fold w in Hreg, Hmem.
  destruct (Hmem _ _ _ _ Hr Hl) as (c & Hc & Hname & Hroom & Hopen & Hs & Hne).
  split; [by exists c|]. split; [by apply Hreg|].
  intros r' rm' name' Hr' Hl'.
  destruct (Hmem _ _ _ _ Hr' Hl') as (c' & Hc' & Hname' & Hroom' & _).
  rewrite Hc in Hc'. injection Hc' as <-. split; congruence.
Qed.

(** *** A room whose lock is held

    The state [RemoveClient] leaves a room in: see
    [RemoveClient_run_free]. *)

(** X11: a connection whose join names a room whose lock is held is set
    up (the client has its name and its room) and then waits for the
    lock: it is not entered in the room, nothing is queued for it or for
    anyone, and its connection stays open. *)
Theorem join_waits_for_held_room w r rm pre message rest name roomName :
  Server.Mutex (server w) = false →
  Server.Rooms (server w) !! roomName = Some r →
  rooms w !! r = Some rm → Room.Mutex rm = true →
  (∀ m n r, m ∈ pre → ¬ valid_join json_Unmarshal m n r) →
  valid_join json_Unmarshal message name roomName →
  handleWebSocket json_Unmarshal json_Marshal range true (pre ++ message :: rest) w
  = Blocked
      (mkWorld (server w) (rooms w)
         (clients w ++ [Client.mk name (length (conns w)) (Chan.make 256) (Some r)])
         (conns w ++ [Conn.mk false []])).
Proof.
  intros Hfree Hreg Hr Hm Hpre Hjoin. unfold handleWebSocket.
  rewrite bind_run. unfold new_conn at 1. rewrite bind_run. unfold new_client at 1.
  set (c0 := Client.mk "" (length (conns w)) (Chan.make Send_capacity) None).
  set (wB := set_clients _ (set_conns _ w)).
  assert (Hcn : conns wB !! length (conns w) = Some (Conn.mk false [])).
  { unfold wB. simpl. by rewrite lookup_app_r, Nat.sub_diag. }
  assert (Hc : clients wB !! length (clients w) = Some c0).
  { unfold wB. simpl. by rewrite lookup_app_r, Nat.sub_diag. }
  change (length (clients (set_conns (λ l, l ++ [Conn.mk false []]) w)))
    with (length (clients w)).
  rewrite (handleWebSocket_loop_skip json_Unmarshal json_Marshal range _ _ _ pre _ wB
             Hcn eq_refl Hpre).
  rewrite (handleWebSocket_loop_join json_Unmarshal json_Marshal range _ _ _ message
             rest name roomName wB Hcn eq_refl Hjoin).
  rewrite bind_run. unfold handleWebSocket_join.
  rewrite bind_run, (get_client_Some _ _ _ Hc).
  rewrite bind_run. unfold put_client at 1, modify at 1.
  set (w1 := set_clients _ wB).
  assert (Hfree1 : Server.Mutex (server w1) = false) by done.
  rewrite bind_run, (GetOrCreateRoom_run roomName w1 Hfree1).
  change (Server.Rooms (server w1)) with (Server.Rooms (server w)). rewrite Hreg.
  assert (Hc1 : clients w1 !! length (clients w) = Some (Client.with_Name name c0)).
  { unfold w1. simpl. apply list_lookup_insert_eq.
    rewrite length_app. simpl. lia. }
  rewrite bind_run, (get_client_Some _ _ _ Hc1).
  rewrite bind_run. unfold put_client at 1, modify at 1.
  set (w2 := set_clients _ w1).
  assert (Hr2 : rooms w2 !! r = Some rm) by done.
  unfold handleWebSocket_admit.
  rewrite !bind_run, (Room_Lock_held _ _ _ Hr2 Hm). f_equal.
  unfold w2, w1, wB, set_clients, set_conns. simpl. f_equal.
  rewrite list_insert_insert_eq.
  rewrite insert_app_r_alt, Nat.sub_diag by lia. done.
Qed.

(** X12: a negotiation message of a member of a room whose lock is held
    stops the reader of that member at the lock: the message reaches no
    queue, and neither the messages behind it nor the cleanup of the
    reader are ever run. *)
Theorem forward_waits_for_held_room w c cl cn r rm message data rest :
  clients w !! c = Some cl → Client.Room cl = Some r →
  conns w !! Client.Socket cl = Some cn → Conn.closed cn = false →
  rooms w !! r = Some rm → Room.Mutex rm = true →
  json_Unmarshal message = Some data →
  negotiation (as_string (data !! "type")) →
  as_string (data !! "target") ≠ "" →
  readMessages json_Unmarshal json_Marshal range c (message :: rest) w = Blocked w.
Proof.
  intros Hc Hroom Hcn Hopen Hr Hm Hd Hn Ht. unfold readMessages.
  cbn [readMessages_loop].
  rewrite !bind_run, (get_client_Some _ _ _ Hc).
  rewrite bind_run, (ReadMessage_open _ _ _ _ Hcn Hopen).
  rewrite bind_run,
    (readMessages_dispatch_forward json_Unmarshal w c message data Hd Hn Ht).
  unfold readMessages_forward.
  by rewrite !bind_run, (get_client_Some _ _ _ Hc), Hroom, bind_run,
    (Room_Lock_held _ _ _ Hr Hm).
Qed.

(** *** One room for a name, another for another *)

(** X13: two calls of [GetOrCreateRoom] in a row give one and the same
    room exactly when they ask for the same name; the second call for a
    name changes nothing. *)
Theorem GetOrCreateRoom_same_room_iff_same_name w name1 name2 :
  well_formed w = true → Server.Mutex (server w) = false →
  ∃ r1 w1 r2 w2,
    GetOrCreateRoom name1 w = Done r1 w1
    ∧ GetOrCreateRoom name2 w1 = Done r2 w2
    ∧ (r1 = r2 ↔ name1 = name2)
    ∧ (name1 = name2 → w2 = w1).
Proof.
  intros Hwf%well_formed_WF Hfree. destruct Hwf as (Hreg & Hback & _).
  assert (Hlt : ∀ name r, Server.Rooms (server w) !! name = Some r →
                  r < length (rooms w)).
  { intros name r Hn. destruct (Hreg _ _ Hn) as (rm & Hrm & _).
    by eapply lookup_lt_Some. }
  rewrite (GetOrCreateRoom_run name1 w Hfree).
  destruct (Server.Rooms (server w) !! name1) as [r1|] eqn:H1.
  - exists r1, w. rewrite (GetOrCreateRoom_run name2 w Hfree).
    destruct (Server.Rooms (server w) !! name2) as [r2|] eqn:H2.
    + exists r2, w. do 2 (split; [done|]). split; [|done]. split.
      * intros <-. destruct (Hreg _ _ H1) as (rm & Hrm & <-).
        destruct (Hreg _ _ H2) as (rm' & Hrm' & <-). congruence.
      * intros <-. congruence.
    + eexists _, _. do 2 (split; [done|]). split; [split|].
      * intros ->. apply Hlt in H1. lia.
      * intros <-. congruence.
      * intros <-. congruence.
  - set (w1 := mkWorld _ _ _ _). exists (length (rooms w)), w1.
    assert (Hfree1 : Server.Mutex (server w1) = false) by done.
    rewrite (GetOrCreateRoom_run name2 w1 Hfree1). simpl.
    destruct (decide (name1 = name2)) as [<-|Hne].
    + rewrite lookup_insert_eq. by exists (length (rooms w)), w1.
    + rewrite lookup_insert_ne by done.
      destruct (Server.Rooms (server w) !! name2) as [r2|] eqn:H2.
      * exists r2, w1. do 2 (split; [done|]). split; [split|done]; [|done].
        intros <-. apply Hlt in H2. lia.
      * eexists _, _. do 2 (split; [done|]). split; [split|done]; [|done].
        rewrite length_app. simpl. lia.
Qed.

End reachable.

(** ** A join, then a message for the one who joined *)

Section reach.

Variable json_Unmarshal : bytes → option (gmap string JSON).
Variable json_Marshal : gmap string JSON → bytes.
Variable range : gmap string loc → list (string * loc).
Hypothesis range_perm : ∀ m, range m ≡ₚ map_to_list m.

(** X20: a client that has joined can be reached under its name at
    once.  After the join of [name] into a room, a negotiation message
    of another member of that room with the target [name] is queued for
    the client that has just joined, behind its user list; if the name
    was held before, its former holder gets nothing. *)
Theorem joined_client_is_reached w pre message rest name roomName
    sender c offer data :
  well_formed w = true → Server.Mutex (server w) = false →
  room_unlocked w roomName = true →
  (∀ m n r, m ∈ pre → ¬ valid_join json_Unmarshal m n r) →
  valid_join json_Unmarshal message name roomName →
  members w roomName !! sender = Some c → sender ≠ name →
  json_Unmarshal offer = Some data →
  negotiation (as_string (data !! "type")) →
  as_string (data !! "target") = name →
  let client := length (clients w) in
  ∃ userList w1 w2,
    handleWebSocket json_Unmarshal json_Marshal range true (pre ++ message :: rest) w
    = Done (Some (client, rest)) w1
    ∧ readMessages_dispatch json_Unmarshal c offer w1 = Done true w2
    ∧ Chan.buf ∘ Client.Send <$> clients w2 !! client
      = Some [json_Marshal (userListMessage userList); offer]
    ∧ ∀ l, l ≠ client → clients w2 !! l = clients w1 !! l.
Proof.
  intros Hwf%well_formed_WF Hsm Hfree%room_unlocked_free Hpre Hv Hsender Hsn
    Hd Hn Ht client.
  assert (Hname : name ≠ "") by (destruct Hv as (? & ? & ? & ? & ? & ? & ?); done).
  unfold handleWebSocket. rewrite bind_run. unfold new_conn at 1.
  rewrite bind_run. unfold new_client at 1.
  set (socket := length (conns w)).
  set (c0 := Client.mk "" _ _ None). set (wB := set_clients _ (set_conns _ w)).
  simpl length. fold client.
  assert (Hs : conns wB !! socket = Some (Conn.mk false [])).
  { unfold wB. simpl. by rewrite lookup_app_r, Nat.sub_diag. }
  rewrite (handleWebSocket_loop_skip json_Unmarshal json_Marshal range
             _ _ _ _ _ _ Hs eq_refl Hpre).
  rewrite (handleWebSocket_loop_join json_Unmarshal json_Marshal range
             _ _ _ _ _ _ _ _ Hs eq_refl Hv).
  assert (HwfB : WF wB).
  { apply (WF_clients_app (set_conns (λ l, l ++ [Conn.mk false []]) w)).
    apply (WF_conns w); [done|]. rewrite length_app. lia. }
  assert (HcB : clients wB !! client = Some c0).
  { unfold wB. simpl. by rewrite lookup_app_r, Nat.sub_diag. }
  assert (HnmB : nonmember wB client) by by apply (WF_nonmember_fresh w).
  assert (HsockB : socket < length (conns wB)).
  { unfold wB. simpl. rewrite length_app. simpl. unfold socket. lia. }
  destruct (handleWebSocket_join_run json_Marshal range wB client socket name roomName
              HwfB Hsm Hfree HcB HnmB HsockB Hname)
    as (w0 & Hjoin & Hwf0 & Hr0 & Hreg0 & Hsm0 & Hcs0 & Hcn0).
  change (members wB roomName) with (members w roomName) in *.
  set (room := room_of wB roomName) in *.
  set (userList := filter _ _) in Hcs0.
  set (c3 := Client.mk name socket _ (Some room)) in *.
  set (rm1 := Room.mk roomName _ false) in *.
  assert (Hclt : client < length (clients wB)) by by eapply lookup_lt_Some.
  assert (Hc0 : clients w0 !! client = Some c3).
  { rewrite Hcs0. by apply list_lookup_insert_eq. }
  destruct (Broadcast_run_wf range range_perm w0 room rm1
              (json_Marshal (newUserMessage name)) name Hwf0 Hr0 eq_refl)
    as (w1 & Hrun & Hs1 & Hrs1 & Hcn1 & Hyes & Hno).
  assert (Hwf1 : WF w1).
  { pose proof (WF_Broadcast range room (json_Marshal (newUserMessage name)) name
                  w0 Hwf0) as H.
    by rewrite Hrun in H. }
  assert (Hin_w : ∀ n l, members w roomName !! n = Some l → l < length (clients w)).
  { intros n l Hl. unfold members in Hl.
    destruct (Server.Rooms (server w) !! roomName) as [r|];
      [|by rewrite lookup_empty in Hl].
    destruct (rooms w !! r) as [rm|] eqn:Hrm; simpl in Hl;
      [|by rewrite lookup_empty in Hl].
    destruct Hwf as (_ & _ & H3).
    destruct (H3 _ _ _ _ Hrm Hl) as (c' & Hc' & _). by eapply lookup_lt_Some. }
  assert (Hc1 : clients w1 !! client = Some c3).
  { rewrite Hno; [done|]. intros n Hl. simpl in Hl.
    apply lookup_insert_Some in Hl as [[<- _]|[Hne Hl]]; [done|].
    apply Hin_w in Hl. unfold client in Hl. lia. }
  assert (Hr1 : rooms w1 !! room = Some rm1) by by rewrite Hrs1.
  assert (Hmem : Room.Clients rm1 !! sender = Some c).
  { simpl. by rewrite lookup_insert_ne. }
  destruct Hwf1 as (_ & _ & H3).
  destruct (H3 _ _ _ _ Hr1 Hmem) as (cl & Hcl & _ & Hroom & _).
  exists userList, w1. eexists.
  rewrite bind_run, Hjoin, Hrun. split; [done|].
  assert (Htn : as_string (data !! "target") ≠ "") by by rewrite Ht.
  rewrite (readMessages_dispatch_forward json_Unmarshal w1 c offer data Hd Hn Htn).
  rewrite bind_run,
    (readMessages_forward_run w1 c cl room rm1 _ _ Hcl Hroom Hr1 eq_refl), Ht.
  simpl Room.Clients. rewrite lookup_insert_eq.
  rewrite bind_run, (trySend_open _ _ _ _ Hc1 eq_refl).
  split; [reflexivity|]. simpl. split.
  - rewrite list_lookup_insert_eq by by eapply lookup_lt_Some. done.
  - intros l Hne. by rewrite list_lookup_insert_ne.
Qed.

End reach.

(** ** The servers with the strict join

    The server of [src/main.go] and the second server of
    [src/unnamed/part_000] (lines 273-516) read one message, test its
    type only, and enter the client under whatever name it gives. *)

(** What these servers keep of a state: the registry names rooms that
    exist under that name, and an entry of a room is a client with the
    name of the entry and an open queue.  The name may be empty. *)
Definition regular (w : World) : Prop :=
  (∀ name r, Server.Rooms (server w) !! name = Some r →
     ∃ rm, rooms w !! r = Some rm ∧ Room.Name rm = name)
  ∧ (∀ r rm name l, rooms w !! r = Some rm → Room.Clients rm !! name = Some l →
       ∃ c, clients w !! l = Some c ∧ Client.Name c = name
            ∧ Chan.closed (Client.Send c) = false).

Lemma regular_initial : regular initial.
Proof. split; [intros name r Hr|intros r rm name l Hr]; discriminate. Qed.

Lemma WF_regular w : WF w → regular w.
Proof.
  intros (H1 & _ & H3). split; [done|]. intros r rm name l Hr Hl.
  destruct (H3 _ _ _ _ Hr Hl) as (c & Hc & Hn & _ & Ho & _). by exists c.
Qed.

Lemma regular_put_client w l c c' :
  regular w → clients w !! l = Some c →
  Client.Name c' = Client.Name c →
  Chan.closed (Client.Send c') = Chan.closed (Client.Send c) →
  regular (set_clients (<[l:=c']>) w).
Proof.
  intros [H1 H2] Hl Hn Hc. split; [done|]. intros r rm name l0 Hr Hm. simpl.
  destruct (H2 _ _ _ _ Hr Hm) as (c0 & Hl0 & Hn0 & Hc0).
  destruct (decide (l0 = l)) as [->|Hne].
  - exists c'. rewrite list_lookup_insert_eq by by eapply lookup_lt_Some.
    split; [done|]. split; congruence.
  - exists c0. by rewrite list_lookup_insert_ne.
Qed.

Lemma regular_new w c cn :
  regular w →
  regular (set_clients (λ l, l ++ [c]) (set_conns (λ l, l ++ [cn]) w)).
Proof.
  intros [H1 H2]. split; [done|]. intros r rm name l Hr Hm. simpl.
  destruct (H2 _ _ _ _ Hr Hm) as (c0 & Hl0 & Hn0 & Hc0). exists c0.
  rewrite lookup_app_l by by eapply lookup_lt_Some. done.
Qed.

Lemma regular_conns w f : regular w → regular (set_conns f w).
Proof. done. Qed.

Lemma regular_GetOrCreateRoom roomName w :
  regular w → Server.Mutex (server w) = false → room_free w roomName →
  ∃ w', GetOrCreateRoom roomName w = Done (room_of w roomName) w'
    ∧ rooms w' !! room_of w roomName
      = Some (Room.mk roomName (members w roomName) false)
    ∧ Server.Rooms (server w')
      = <[roomName:=room_of w roomName]> (Server.Rooms (server w))
    ∧ Server.Mutex (server w') = false
    ∧ clients w' = clients w ∧ conns w' = conns w ∧ regular w'.
Proof.
  intros [H1 H2] Hm Hfree. rewrite (GetOrCreateRoom_run _ _ Hm).
  unfold room_of, members.
  destruct (Server.Rooms (server w) !! roomName) as [room|] eqn:Hreg; simpl.
  - exists w. destruct (H1 _ _ Hreg) as (rm & Hr & Hn). rewrite Hr. simpl.
    specialize (Hfree _ _ Hreg Hr).
    repeat split; try done.
    + destruct rm as [n m b]. simpl in *. by subst.
    + by rewrite insert_id.
  - eexists. split; [reflexivity|]. simpl.
    split; [by rewrite lookup_app_r, Nat.sub_diag|].
    do 4 (split; [done|]). split; simpl.
    + intros name r Hr. destruct (decide (roomName = name)) as [->|Hne].
      * rewrite lookup_insert_eq in Hr. injection Hr as <-.
        exists (Room.mk name ∅ false). split; [|done].
        by rewrite lookup_app_r, Nat.sub_diag.
      * rewrite lookup_insert_ne in Hr by done.
        destruct (H1 _ _ Hr) as (rm & Hrm & Hn). exists rm. split; [|done].
        rewrite lookup_app_l; [done|]. by eapply lookup_lt_Some.
    + intros r rm name l Hr Hl. apply lookup_app_Some in Hr as [Hr|[Hlen Hr]].
      * by eapply H2.
      * apply list_lookup_singleton_Some in Hr as [Hz <-]. simpl in Hl.
        by rewrite lookup_empty in Hl.
Qed.

(** Lines 412-414 ([src/main.go] 119-121): the entry is written under
    the lock, whatever it replaces. *)
Lemma locked_insert_run {B} w room rm name client (k : M B) :
  rooms w !! room = Some rm → Room.Mutex rm = false →
  (Room_Lock room;; insert_member room name client;; Room_Unlock room;; k) w
  = k (set_rooms
         (<[room:=Room.mk (Room.Name rm) (<[name:=client]> (Room.Clients rm)) false]>)
         w).
Proof.
  intros Hr Hm. assert (Hlt : room < length (rooms w)) by by eapply lookup_lt_Some.
  rewrite bind_run, (Room_Lock_free _ _ _ Hr Hm).
  set (w1 := set_rooms _ w).
  assert (Hr1 : rooms w1 !! room = Some (Room.with_Mutex true rm)).
  { unfold w1. simpl. by apply list_lookup_insert_eq. }
  rewrite bind_run, (insert_member_run _ _ _ _ _ Hr1).
  set (w2 := set_rooms _ w1).
  assert (Hr2 : rooms w2 !! room
                = Some (Room.with_Clients (<[name:=client]>) (Room.with_Mutex true rm))).
  { unfold w2. simpl. apply list_lookup_insert_eq. unfold w1. simpl.
    by rewrite length_insert. }
  rewrite bind_run, (Room_Unlock_held _ _ _ Hr2 eq_refl). f_equal.
  unfold w2, w1, set_rooms. simpl. by rewrite !list_insert_insert_eq.
Qed.

Lemma member_other_or_not (m : gmap string loc) (exclude : string) (l : loc) :
  (∃ name, m !! name = Some l ∧ name ≠ exclude)
  ∨ (∀ name, m !! name = Some l → name = exclude).
Proof.
  destruct (decide (Exists (λ e, e.2 = l ∧ e.1 ≠ exclude) (map_to_list m)))
    as [Hex|Hno].
  - left. apply Exists_exists in Hex as ([name l'] & Hin & Hl & Hne).
    simpl in *. subst l'. exists name. by rewrite <- elem_of_map_to_list.
  - right. intros name Hl. destruct (decide (name = exclude)) as [|Hne]; [done|].
    destruct Hno. apply Exists_exists. exists (name, l).
    by rewrite elem_of_map_to_list.
Qed.

Section entries.

Variable range : gmap string loc → list (string * loc).
Hypothesis range_perm : ∀ m, range m ≡ₚ map_to_list m.

Lemma regular_entries_open w r rm :
  regular w → rooms w !! r = Some rm →
  entries_open w (range (Room.Clients rm)).
Proof.
  intros [_ H2] Hr name l Hin. apply (elem_of_range range range_perm) in Hin.
  destruct (H2 _ _ _ _ Hr Hin) as (c & ? & _ & ?). eauto.
Qed.

Lemma regular_NoDup_members w r rm :
  regular w → rooms w !! r = Some rm → NoDup (range (Room.Clients rm)).*2.
Proof.
  intros [_ H2] Hr. apply NoDup_fmap_2_strong; [|apply (NoDup_range range range_perm)].
  intros [n1 l1] [n2 l2] Hin1 Hin2 Heq.
  apply (elem_of_range range range_perm) in Hin1, Hin2.
  simpl in Heq. subst l2.
  destruct (H2 _ _ _ _ Hr Hin1) as (c1 & E1 & N1 & _).
  destruct (H2 _ _ _ _ Hr Hin2) as (c2 & E2 & N2 & _).
  congruence.
Qed.

(** [Broadcast] in a regular state. *)
Lemma regular_Broadcast w r rm message exclude :
  regular w → rooms w !! r = Some rm → Room.Mutex rm = false →
  ∃ w', Broadcast range r message exclude w = Done () w'
    ∧ server w' = server w ∧ rooms w' = rooms w ∧ conns w' = conns w
    ∧ (∀ l, (∃ name, Room.Clients rm !! name = Some l ∧ name ≠ exclude) →
         clients w' !! l = deliver message <$> clients w !! l)
    ∧ (∀ l, (∀ name, Room.Clients rm !! name = Some l → name = exclude) →
         clients w' !! l = clients w !! l)
    ∧ regular w'.
Proof.
  intros Hreg Hr Hm.
  destruct (Broadcast_run range w r rm message exclude Hr Hm)
    as (w' & Hrun & Hs & Hrs & Hcn & Hyes & Hno).
  { by eapply regular_NoDup_members. }
  { by eapply regular_entries_open. }
  assert (Hyes' : ∀ l, (∃ name, Room.Clients rm !! name = Some l ∧ name ≠ exclude) →
            clients w' !! l = deliver message <$> clients w !! l).
  { intros l (name & Hl & Hne). apply Hyes. exists name.
    by rewrite (elem_of_range range range_perm). }
  assert (Hno' : ∀ l, (∀ name, Room.Clients rm !! name = Some l → name = exclude) →
            clients w' !! l = clients w !! l).
  { intros l Hall. apply Hno. intros (name & Hin & Hne).
    apply (elem_of_range range range_perm) in Hin. by apply Hne, Hall. }
  exists w'. do 6 (split; [done|]).
  destruct Hreg as [H1 H2]. split; [by rewrite Hs, Hrs|].
  intros r0 rm0 name l Hr0 Hl. rewrite Hrs in Hr0.
  destruct (H2 _ _ _ _ Hr0 Hl) as (c & Hc & Hn & Ho).
  destruct (member_other_or_not (Room.Clients rm) exclude l) as [Hrec|Hrec].
  - exists (deliver message c). rewrite (Hyes' _ Hrec), Hc. split; [done|].
    by rewrite deliver_Name, deliver_closed.
  - exists c. by rewrite (Hno' _ Hrec).
Qed.

End entries.

(** ** The second server of [src/unnamed/part_000] (lines 273-516)

    [GetOrCreateRoom], [Broadcast], [RemoveClient], the deferred function
    of [readMessages] and [writeMessages] are those of the first server,
    line for line; the join and the dispatch differ. *)

Module Strict.

Section server.

(** [json.Unmarshal] into the struct of lines 379-383, as the triple of
    its fields [Type], [Name] and [Room] ([None] when it returns an
    error), and into a [map[string]interface{}]. *)
Variable json_Unmarshal_join : bytes → option (string * string * string).
Variable json_Unmarshal : bytes → option (gmap string JSON).
Variable json_Marshal : gmap string JSON → bytes.
Variable range : gmap string loc → list (string * loc).
Hypothesis range_perm : ∀ m, range m ≡ₚ map_to_list m.

(** [map[string]interface{}{"type": "user-list", "users": userList}]
    with [var userList []string] (line 418): the slice is nil until the
    first [append], and [json.Marshal] writes a nil slice as [null]. *)
Definition userListMessage (userList : list string) : gmap string JSON :=
  {[ "type" := JString "user-list";
     "users" := match userList with
                | [] => JNull
                | _ => JArray (JString <$> userList)
                end ]}.

(** [handleWebSocket] (lines 369-447): the result is the client for
    which the two goroutines are started, with the messages left to
    read.  The loop of lines 419-425 is that of the first server. *)
Definition handleWebSocket (upgraded : bool) (incoming : list bytes)
    : M (option (loc * list bytes)) :=
  if upgraded then
    socket ← new_conn (Conn.mk false []);
    r ← ReadMessage socket (head incoming);
    match r with
    | None => Socket_Close socket;; mret None
    | Some message =>
        match json_Unmarshal_join message with
        | Some (type, name, roomName) =>
            if decide (type ≠ "join") then Socket_Close socket;; mret None
            else
              client ← new_client (Client.mk name socket (Chan.make 256) None);
              room ← GetOrCreateRoom roomName;
              c ← get_client client;
              put_client client (Client.with_Room room c);;
              Room_Lock room;;
              insert_member room name client;;
              Room_Unlock room;;
              userList ← handleWebSocket_userList range room client;
              let userListJSON := json_Marshal (userListMessage userList) in
              Send client userListJSON;;
              c ← get_client client;
              let newUserJSON := json_Marshal (newUserMessage (Client.Name c)) in
              Broadcast range room newUserJSON (Client.Name c);;
              mret (Some (client, tail incoming))
        | None => Socket_Close socket;; mret None
        end
    end
  else mret None.

(** Lines 493-494: the message goes to the room. *)
Definition readMessages_broadcast (c : loc) (message : bytes) : M () :=
  cl ← get_client c;
  match Client.Room cl with
  | None => panic
  | Some room => Broadcast range room message (Client.Name cl)
  end.

(** Lines 466-495 of [readMessages], one message; the forward of lines
    478-490 is that of the first server. *)
Definition readMessages_dispatch (c : loc) (message : bytes) : M () :=
  match json_Unmarshal message with
  | None => mret ()
  | Some data =>
      let messageType := as_string (data !! "type") in
      match data !! "target" with
      | Some (JString target) =>
          if decide (messageType = "offer" ∨ messageType = "answer"
                     ∨ messageType = "candidate")
          then readMessages_forward c message target
          else readMessages_broadcast c message
      | _ => readMessages_broadcast c message
      end
  end.

(** The loop of lines 458-496. *)
Fixpoint readMessages_loop (c : loc) (incoming : list bytes) : M () :=
  cl ← get_client c;
  match incoming with
  | [] => _ ← ReadMessage (Client.Socket cl) None; mret ()
  | message :: rest =>
      r ← ReadMessage (Client.Socket cl) (Some message);
      match r with
      | None => mret ()
      | Some message =>
          readMessages_dispatch c message;;
          readMessages_loop c rest
      end
  end.

(** [readMessages] (lines 450-497). *)
Definition readMessages (c : loc) (incoming : list bytes) : M () :=
  readMessages_loop c incoming;;
  readMessages_deferred json_Marshal range c.

(** X14: the strict join.  When the first message decodes to the type
    [join], the client is entered under the name it gives, empty or not,
    into the room it gives, empty or not.  A member that held the name is
    replaced in the map and otherwise left as it is: no connection is
    closed.  The new client gets the user list, which is [null] when it
    is alone, and every other member gets the [new-user] message unless
    its queue is full. *)
Theorem join_admits_any_name w message rest name roomName :
  regular w → Server.Mutex (server w) = false → room_free w roomName →
  json_Unmarshal_join message = Some ("join", name, roomName) →
  let room := room_of w roomName in
  let client := length (clients w) in
  let userList :=
    filter (λ n, n ≠ name) (range (<[name:=client]> (members w roomName))).*1 in
  let newUserJSON := json_Marshal (newUserMessage name) in
  ∃ w',
    handleWebSocket true (message :: rest) w = Done (Some (client, rest)) w'
    ∧ regular w'
    ∧ Server.Rooms (server w') = <[roomName:=room]> (Server.Rooms (server w))
    ∧ rooms w' !! room
      = Some (Room.mk roomName (<[name:=client]> (members w roomName)) false)
    ∧ conns w' = conns w ++ [Conn.mk false []]
    ∧ clients w' !! client
      = Some (Client.mk name (length (conns w))
                (Chan.mk [json_Marshal (userListMessage userList)] 256 false)
                (Some room))
    ∧ (∀ n l, members w roomName !! n = Some l → n ≠ name →
         clients w' !! l = deliver newUserJSON <$> clients w !! l)
    ∧ (∀ l, l < length (clients w) →
         (∀ n, members w roomName !! n = Some l → n = name) →
         clients w' !! l = clients w !! l).
Proof.
  intros Hreg Hfree Hroom Hjoin room client userList newUserJSON.
  unfold handleWebSocket.
  rewrite bind_run. unfold new_conn at 1.
  set (socket := length (conns w)). set (w1 := set_conns _ w).
  assert (Hcn1 : conns w1 !! socket = Some (Conn.mk false [])).
  { unfold w1. simpl. by rewrite lookup_app_r, Nat.sub_diag. }
  rewrite bind_run, (ReadMessage_open _ _ _ _ Hcn1 eq_refl).
  cbn [head]. rewrite Hjoin.
  destruct (decide ("join" ≠ "join")) as [?|_]; [done|].
  rewrite bind_run. unfold new_client at 1.
  change (length (clients w1)) with client.
  set (c2 := Client.mk name socket (Chan.make 256) None). set (w2 := set_clients _ w1).
  assert (Hreg2 : regular w2) by by apply regular_new.
  destruct (regular_GetOrCreateRoom roomName w2 Hreg2 Hfree Hroom)
    as (w3 & Hget & Hr3 & Hg3 & Hm3 & Hcs3 & Hcn3 & Hreg3).
  change (room_of w2 roomName) with room in *.
  change (members w2 roomName) with (members w roomName) in *.
  rewrite bind_run, Hget.
  assert (Hc3 : clients w3 !! client = Some c2).
  { rewrite Hcs3. unfold w2. simpl. by rewrite lookup_app_r, Nat.sub_diag. }
  rewrite bind_run, (get_client_Some _ _ _ Hc3).
  rewrite bind_run. unfold put_client at 1, modify at 1.
  set (c4 := Client.with_Room room c2). set (w4 := set_clients _ w3).
  assert (Hreg4 : regular w4) by by apply (regular_put_client w3 client c2).
  assert (Hclt : client < length (clients w3)) by by eapply lookup_lt_Some.
  assert (Hc4 : clients w4 !! client = Some c4).
  { unfold w4. simpl. by apply list_lookup_insert_eq. }
  set (rm0 := Room.mk roomName (members w roomName) false) in *.
  assert (Hr4 : rooms w4 !! room = Some rm0) by done.
  assert (Hrlt : room < length (rooms w4)) by by eapply lookup_lt_Some.
  (* the entry *)
  rewrite (locked_insert_run w4 room rm0 name client _ Hr4 eq_refl).
  change (Room.Name rm0) with roomName. change (Room.Clients rm0) with (members w roomName).
  set (rm5 := Room.mk roomName _ false). set (w5 := set_rooms _ w4).
  assert (Hr5 : rooms w5 !! room = Some rm5).
  { unfold w5. simpl. by apply list_lookup_insert_eq. }
  assert (Hc5 : clients w5 !! client = Some c4) by done.
  (* the user list *)
  rewrite bind_run,
    (handleWebSocket_userList_run range w5 room rm5 client c4 Hr5 eq_refl Hc5).
  change (Client.Name c4) with name.
  change (Room.Clients rm5) with (<[name:=client]> (members w roomName)).
  fold userList.
  rewrite bind_run, (Send_run _ _ _ _ Hc5 eq_refl eq_refl).
  set (c6 := Client.with_Send _ c4). set (w6 := set_clients _ w5).
  assert (Hc6 : clients w6 !! client = Some c6).
  { unfold w6. simpl. apply list_lookup_insert_eq. by rewrite length_insert. }
  rewrite bind_run, (get_client_Some _ _ _ Hc6).
  change (Client.Name c6) with name. fold newUserJSON.
  assert (Hr6 : rooms w6 !! room = Some rm5) by done.
  assert (Hreg6 : regular w6).
  { apply (regular_put_client w5 client c4); try done.
    destruct Hreg4 as [H1 H2]. split.
    - intros n r Hn. simpl. destruct (H1 _ _ Hn) as (rm & Hrm & Hname).
      destruct (decide (r = room)) as [->|Hne].
      + exists rm5. rewrite list_lookup_insert_eq by done. split; [done|].
        rewrite Hr4 in Hrm. by injection Hrm as <-.
      + exists rm. by rewrite list_lookup_insert_ne.
    - intros r rm n l Hr Hl. simpl in Hr.
      destruct (decide (r = room)) as [->|Hne].
      + rewrite list_lookup_insert_eq in Hr by done. injection Hr as <-.
        simpl in Hl. apply lookup_insert_Some in Hl as [[<- <-]|[Hnn Hl]].
        * by exists c4.
        * by apply (H2 room rm0).
      + rewrite list_lookup_insert_ne in Hr by done. by apply (H2 r rm). }
  destruct (regular_Broadcast range range_perm w6 room rm5 newUserJSON name
              Hreg6 Hr6 eq_refl)
    as (w7 & Hrun & Hs7 & Hrs7 & Hcn7 & Hyes & Hno & Hreg7).
  rewrite bind_run, Hrun. exists w7. split; [done|]. split; [done|].
  assert (Hother : ∀ l, l < length (clients w) → clients w6 !! l = clients w !! l).
  { intros l Hlt. unfold w6, w5, w4. simpl.
    rewrite !list_lookup_insert_ne by (unfold client; lia). rewrite Hcs3.
    unfold w2. simpl. by rewrite lookup_app_l. }
  assert (Hold : ∀ n l, members w roomName !! n = Some l → l < length (clients w)).
  { intros n l Hn. destruct Hreg as [_ H2]. unfold members in Hn.
    destruct (Server.Rooms (server w) !! roomName) as [r|] eqn:Hg; [|done].
    destruct (rooms w !! r) as [rm|] eqn:Hr; [|done]. simpl in Hn.
    destruct (H2 _ _ _ _ Hr Hn) as (c & Hc & _). by eapply lookup_lt_Some. }
  split; [by rewrite Hs7|]. split; [by rewrite Hrs7|]. split; [by rewrite Hcn7|].
  split; [|split].
  - rewrite Hno, Hc6; [done|]. intros n Hn. simpl in Hn.
    apply lookup_insert_Some in Hn as [[<- _]|[Hnn Hn]]; [done|].
    apply Hold in Hn. unfold client in Hn. lia.
  - intros n l Hn Hne. pose proof (Hold _ _ Hn) as Hlt.
    rewrite Hyes; [by rewrite Hother|].
    exists n. simpl. by rewrite lookup_insert_ne.
  - intros l Hlt Hall. rewrite Hno; [by apply Hother|].
    intros n Hn. simpl in Hn.
    apply lookup_insert_Some in Hn as [[<- Hl]|[Hnn Hn]]; [done|]. by apply Hall.
Qed.


(** X16: only the first message is looked at.  When the peer has gone,
    or its first message does not decode, or is of a type other than
    [join], the connection is closed and nothing else changes; what the
    peer sends after it is never read. *)
Theorem first_message_must_be_join w incoming :
  match head incoming with
  | None => True
  | Some message =>
      match json_Unmarshal_join message with
      | Some (type, _, _) => type ≠ "join"
      | None => True
      end
  end →
  handleWebSocket true incoming w
  = Done None (set_conns (λ l, l ++ [Conn.mk true []]) w).
Proof.
  intros Hfirst. unfold handleWebSocket.
  rewrite bind_run. unfold new_conn at 1.
  set (socket := length (conns w)). set (w1 := set_conns _ w).
  assert (Hcn1 : conns w1 !! socket = Some (Conn.mk false [])).
  { unfold w1. simpl. by rewrite lookup_app_r, Nat.sub_diag. }
  assert (Hclose : (Socket_Close socket;; mret None : M (option (loc * list bytes))) w1
                   = Done None (set_conns (λ l, l ++ [Conn.mk true []]) w)).
  { rewrite bind_run, (Socket_Close_run _ _ _ Hcn1). cbn [mret M_ret]. f_equal.
    unfold w1, set_conns. simpl. f_equal.
    by rewrite insert_app_r_alt, Nat.sub_diag by (unfold socket; lia). }
  rewrite bind_run, (ReadMessage_open _ _ _ _ Hcn1 eq_refl).
  destruct (head incoming) as [message|]; [|exact Hclose].
  destruct (json_Unmarshal_join message) as [[[type name] roomName]|];
    [|exact Hclose].
  by rewrite decide_True.
Qed.

End server.

End Strict.

(** ** More of the server of [src/main.go] *)

Section unbuffered.

Variable json_Unmarshal_join : bytes → option (string * string * string).
Variable range : gmap string loc → list (string * loc).
Variable receiving : loc → bool.

(** The entries point to clients that have a connection. *)
Definition entries_connected (w : World) (entries : list (string * loc)) : Prop :=
  ∀ name l, (name, l) ∈ entries →
    ∃ c, clients w !! l = Some c ∧ Client.Socket c < length (conns w).

Lemma unbuffered_Broadcast_loop_waits entries message exclude name client : ∀ w,
  entries_connected w entries →
  (name, client) ∈ entries → name ≠ exclude → receiving client = false →
  ∃ w', Unbuffered.Broadcast_loop receiving entries message exclude w = Blocked w'
    ∧ server w' = server w ∧ rooms w' = rooms w ∧ clients w' = clients w.
Proof.
  induction entries as [|[n l] rest IH]; intros w Hconn Hin Hne Hrecv.
  { by apply elem_of_nil in Hin. }
  assert (Hrest : ∀ w1, clients w1 = clients w → length (conns w1) = length (conns w) →
            entries_connected w1 rest).
  { intros w1 Hcs Hlen n' l' Hin'. rewrite Hcs, Hlen. apply (Hconn n' l'). by right. }
  cbn [Unbuffered.Broadcast_loop]. rewrite bind_run.
  destruct (decide (n ≠ exclude)) as [Hn|Hn].
  - destruct (Hconn n l) as (c & Hc & Hs); [by left|].
    unfold Unbuffered.Send. rewrite bind_run, (get_client_Some _ _ _ Hc).
    destruct (receiving l) eqn:Hl; [|by exists w].
    assert (Hin' : (name, client) ∈ rest).
    { apply elem_of_cons in Hin as [[= -> ->]|]; [congruence|done]. }
    apply lookup_lt_is_Some in Hs as [cn Hcn].
    unfold WriteMessage. rewrite !bind_run, (get_conn_Some _ _ _ Hcn).
    destruct (Conn.closed cn).
    + cbn [mret M_ret]. rewrite (Socket_Close_run _ _ _ Hcn).
      destruct (IH (set_conns (<[Client.Socket c:=Conn.close cn]>) w))
        as (w' & Hrun & Hw'); [|done..|by exists w'].
      apply Hrest; [done|]. simpl. by rewrite length_insert.
    + rewrite bind_run. unfold put_conn at 1, modify at 1. cbn [mret M_ret].
      destruct (IH (set_conns (<[Client.Socket c:=Conn.write message cn]>) w))
        as (w' & Hrun & Hw'); [|done..|by exists w'].
      apply Hrest; [done|]. simpl. by rewrite length_insert.
  - cbn [mret M_ret]. apply IH; try done; [by apply Hrest|].
    apply elem_of_cons in Hin as [[= -> ->]|]; [|done].
    destruct Hn. done.
Qed.

(** X17: in the server of [src/main.go] a broadcast hands each message
    over to the writer of the member.  When the writer of one member that
    is not excluded is not at its receive, the broadcast waits, whatever
    the order of the iteration, and it waits with the lock of the room
    held: until that one writer comes back, no one can join the room,
    leave it, or broadcast in it. *)
Theorem unbuffered_Broadcast_waits_for_a_busy_writer
    w r rm name client message exclude :
  rooms w !! r = Some rm → Room.Mutex rm = false →
  entries_connected w (range (Room.Clients rm)) →
  (name, client) ∈ range (Room.Clients rm) → name ≠ exclude →
  receiving client = false →
  ∃ w',
    Unbuffered.Broadcast range receiving r message exclude w = Blocked w'
    ∧ rooms w' !! r = Some (Room.with_Mutex true rm)
    ∧ Room_Lock r w' = Blocked w'
    ∧ clients w' = clients w.
Proof.
  intros Hr Hm Hconn Hin Hne Hrecv. unfold Unbuffered.Broadcast.
  assert (Hlt : r < length (rooms w)) by by eapply lookup_lt_Some.
  rewrite bind_run, (Room_Lock_free _ _ _ Hr Hm).
  set (w1 := set_rooms _ w).
  assert (Hr1 : rooms w1 !! r = Some (Room.with_Mutex true rm)).
  { unfold w1. simpl. by apply list_lookup_insert_eq. }
  rewrite bind_run, (get_room_Some _ _ _ Hr1).
  change (Room.Clients (Room.with_Mutex true rm)) with (Room.Clients rm).
  destruct (unbuffered_Broadcast_loop_waits (range (Room.Clients rm)) message exclude
              name client w1 Hconn Hin Hne Hrecv)
    as (w' & Hrun & _ & Hrs & Hcs).
  rewrite bind_run, Hrun. exists w'. split; [done|].
  assert (Hr' : rooms w' !! r = Some (Room.with_Mutex true rm)) by by rewrite Hrs.
  split; [done|]. split; [|done].
  by apply (Room_Lock_held _ _ _ Hr').
Qed.

Lemma unbuffered_RemoveClient_run w r rm clientName :
  rooms w !! r = Some rm → Room.Mutex rm = false →
  Unbuffered.RemoveClient r clientName w
  = Done ()
      (set_rooms
         (<[r:=Room.mk (Room.Name rm) (delete clientName (Room.Clients rm)) false]>) w).
Proof.
  intros Hr Hm. unfold Unbuffered.RemoveClient.
  assert (Hlt : r < length (rooms w)) by by eapply lookup_lt_Some.
  rewrite bind_run, (Room_Lock_free _ _ _ Hr Hm).
  set (w1 := set_rooms _ w).
  assert (Hr1 : rooms w1 !! r = Some (Room.with_Mutex true rm)).
  { unfold w1. simpl. by apply list_lookup_insert_eq. }
  rewrite bind_run, (delete_member_run _ _ _ _ Hr1).
  set (w2 := set_rooms _ w1).
  assert (Hr2 : rooms w2 !! r
                = Some (Room.with_Clients (delete clientName)
                          (Room.with_Mutex true rm))).
  { unfold w2. simpl. apply list_lookup_insert_eq. unfold w1. simpl.
    by rewrite length_insert. }
  rewrite (Room_Unlock_held _ _ _ Hr2 eq_refl). f_equal.
  unfold w2, w1, set_rooms. simpl. by rewrite !list_insert_insert_eq.
Qed.

(** X18: in the server of [src/main.go] the cleanup of a reader
    completes: the entry under the name of the client is deleted, the
    lock of the room is free again, and the connection is closed.  The
    queue of the client is not closed, and no one is told. *)
Theorem unbuffered_cleanup_returns w c cl r rm cn :
  clients w !! c = Some cl → Client.Room cl = Some r →
  rooms w !! r = Some rm → Room.Mutex rm = false →
  conns w !! Client.Socket cl = Some cn →
  Unbuffered.readMessages_deferred c w
  = Done ()
      (mkWorld (server w)
         (<[r:=Room.mk (Room.Name rm) (delete (Client.Name cl) (Room.Clients rm)) false]>
            (rooms w))
         (clients w)
         (<[Client.Socket cl:=Conn.mk true (Conn.written cn)]> (conns w))).
Proof.
  intros Hc Hroom Hr Hm Hcn. unfold Unbuffered.readMessages_deferred.
  rewrite bind_run, (get_client_Some _ _ _ Hc), Hroom.
  rewrite bind_run, (unbuffered_RemoveClient_run _ _ _ _ Hr Hm).
  set (w1 := set_rooms _ w).
  assert (Hcn1 : conns w1 !! Client.Socket cl = Some cn) by done.
  by rewrite (Socket_Close_run _ _ _ Hcn1).
Qed.

(** X19: the join of [src/main.go].  When the first message decodes to
    the type [join], the client is entered under the name and into the
    room it gives, empty or not.  It is told nothing and no one is told
    of it: no queue and no connection changes, and a member that held
    the name is replaced in the map with its connection left open. *)
Theorem unbuffered_join_enters_silently w message rest name roomName :
  regular w → Server.Mutex (server w) = false → room_free w roomName →
  json_Unmarshal_join message = Some ("join", name, roomName) →
  let room := room_of w roomName in
  let client := length (clients w) in
  ∃ w',
    Unbuffered.handleWebSocket json_Unmarshal_join true (message :: rest) w
    = Done (Some (client, rest)) w'
    ∧ regular w'
    ∧ Server.Rooms (server w') = <[roomName:=room]> (Server.Rooms (server w))
    ∧ rooms w' !! room
      = Some (Room.mk roomName (<[name:=client]> (members w roomName)) false)
    ∧ clients w'
      = clients w ++ [Client.mk name (length (conns w)) (Chan.make 0) (Some room)]
    ∧ conns w' = conns w ++ [Conn.mk false []].
Proof.
  intros Hreg Hfree Hroom Hjoin room client.
  unfold Unbuffered.handleWebSocket.
  rewrite bind_run. unfold new_conn at 1.
  set (socket := length (conns w)). set (w1 := set_conns _ w).
  assert (Hcn1 : conns w1 !! socket = Some (Conn.mk false [])).
  { unfold w1. simpl. by rewrite lookup_app_r, Nat.sub_diag. }
  rewrite bind_run, (ReadMessage_open _ _ _ _ Hcn1 eq_refl).
  cbn [head]. rewrite Hjoin.
  destruct (decide ("join" ≠ "join")) as [?|_]; [done|].
  rewrite bind_run. unfold new_client at 1.
  change (length (clients w1)) with client.
  set (c2 := Client.mk name socket (Chan.make 0) None). set (w2 := set_clients _ w1).
  assert (Hreg2 : regular w2) by by apply regular_new.
  destruct (regular_GetOrCreateRoom roomName w2 Hreg2 Hfree Hroom)
    as (w3 & Hget & Hr3 & Hg3 & Hm3 & Hcs3 & Hcn3 & Hreg3).
  change (room_of w2 roomName) with room in *.
  change (members w2 roomName) with (members w roomName) in *.
  rewrite bind_run, Hget.
  assert (Hc3 : clients w3 !! client = Some c2).
  { rewrite Hcs3. unfold w2. simpl. by rewrite lookup_app_r, Nat.sub_diag. }
  rewrite bind_run, (get_client_Some _ _ _ Hc3).
  rewrite bind_run. unfold put_client at 1, modify at 1.
  set (c4 := Client.with_Room room c2). set (w4 := set_clients _ w3).
  assert (Hreg4 : regular w4) by by apply (regular_put_client w3 client c2).
  assert (Hclt : client < length (clients w3)) by by eapply lookup_lt_Some.
  assert (Hc4 : clients w4 !! client = Some c4).
  { unfold w4. simpl. by apply list_lookup_insert_eq. }
  set (rm0 := Room.mk roomName (members w roomName) false) in *.
  assert (Hr4 : rooms w4 !! room = Some rm0) by done.
  assert (Hrlt : room < length (rooms w4)) by by eapply lookup_lt_Some.
  rewrite (locked_insert_run w4 room rm0 name client _ Hr4 eq_refl).
  change (Room.Name rm0) with roomName.
  change (Room.Clients rm0) with (members w roomName).
  set (rm5 := Room.mk roomName _ false). set (w5 := set_rooms _ w4).
  exists w5. split; [done|]. split; [|split; [done|split; [|split; [|done]]]].
  - destruct Hreg4 as [H1 H2]. split.
    + intros n r Hn. simpl. destruct (H1 _ _ Hn) as (rm & Hrm & Hname).
      destruct (decide (r = room)) as [->|Hne].
      * exists rm5. rewrite list_lookup_insert_eq by done. split; [done|].
        rewrite Hr4 in Hrm. by injection Hrm as <-.
      * exists rm. by rewrite list_lookup_insert_ne.
    + intros r rm n l Hr Hl. simpl in Hr.
      destruct (decide (r = room)) as [->|Hne].
      * rewrite list_lookup_insert_eq in Hr by done. injection Hr as <-.
        simpl in Hl. apply lookup_insert_Some in Hl as [[<- <-]|[Hnn Hl]].
        -- by exists c4.
        -- by apply (H2 room rm0).
      * rewrite list_lookup_insert_ne in Hr by done. by apply (H2 r rm).
  - unfold w5. simpl. by apply list_lookup_insert_eq.
  - unfold w5, w4. simpl. rewrite Hcs3. unfold w2. simpl.
    by rewrite insert_app_r_alt, Nat.sub_diag by (unfold client; lia).
Qed.

End unbuffered.

(** ** The run, continued *)

Module Cases.

Import Example.

(** B has sent an offer to A, and then a second connection has joined
    as A: the first A is closed with the offer still queued for it. *)
Definition lobby_A_evicted : World :=
  final (handleWebSocket_admit 0 2
           (final (readMessages_dispatch json_Unmarshal 1 (text (offer "A"))
                     lobby_AB_rejoin))).

(** B has gone: its reader waits in [RemoveClient] with the lock of the
    lobby held. *)
Definition lobby_B_gone : World :=
  final (readMessages json_Unmarshal json_Marshal range 1 [] lobby_AB).

Lemma writeMessages_witness :
  ∃ w', writeMessages 1 lobby_AB = Blocked w'
    ∧ conns w' !! 1 = Some (Conn.mk false [userListJSON ["A"]])
    ∧ Chan.buf ∘ Client.Send <$> clients w' !! 1 = Some [].
Proof.
  edestruct (writeMessages_writes_queue_in_order 1 lobby_AB)
    as (w' & Hrun & Hcn & Hc & _); [reflexivity..|].
  exists w'. split; [exact Hrun|]. split; [exact Hcn|]. by rewrite Hc.
Defined.

Lemma write_error_witness :
  writeMessages 0 lobby_A_evicted
  = Done ()
      (set_clients (<[0:=Client.mk "A" 0 (Chan.mk [] 256 false) (Some 0)]>)
         lobby_A_evicted).
Proof.
  apply (writeMessages_stops_at_write_error 0 lobby_A_evicted
           (Client.mk "A" 0 (Chan.mk [text (offer "A")] 256 false) (Some 0))
           (Conn.mk true []));
    reflexivity.
Defined.

Lemma passes_over_witness :
  readMessages_loop json_Unmarshal 1
    (["hello"; text (join "B" "lobby")] ++ [text (offer "A")]) lobby_AB
  = readMessages_loop json_Unmarshal 1 [text (offer "A")] lobby_AB.
Proof.
  eapply (readMessages_loop_passes_over json_Unmarshal 1); [reflexivity..|].
  repeat constructor. vm_compute. discriminate.
Defined.

Lemma closed_reader_witness :
  readMessages json_Unmarshal json_Marshal range 0 [text (offer "B")]
    (final (handleWebSocket_admit 0 2 lobby_AB_rejoin))
  = Blocked
      (mkWorld (Server.mk {["lobby" := 0]} false)
         [Room.mk "lobby" {["B" := 1]} true]
         (clients lobby_AB_rejoin)
         [Conn.mk true []; Conn.mk false []; Conn.mk false []]).
Proof.
  erewrite (closed_reader_removes_by_name json_Unmarshal json_Marshal range 0);
    [|reflexivity..].
  vm_compute. reflexivity.
Defined.

Lemma forwarded_witness :
  ∃ w1 w2,
    readMessages_dispatch json_Unmarshal 0 (text (offer "B")) lobby_AB = Done true w1
    ∧ writeMessages 1 w1 = Blocked w2
    ∧ conns w2 !! 1 = Some (Conn.mk false [userListJSON ["A"]; text (offer "B")]).
Proof.
  edestruct (forwarded_message_is_written json_Unmarshal 0)
    with (w := lobby_AB) (message := text (offer "B")) (t := 1)
    as (w1 & w2 & Hrun & Hdrain & Hcn & _).
  - reflexivity.
  - reflexivity.
  - reflexivity.
  - reflexivity.
  - vm_compute. reflexivity.
  - left. vm_compute. reflexivity.
  - reflexivity.
  - vm_compute. discriminate.
  - vm_compute. reflexivity.
  - reflexivity.
  - reflexivity.
  - reflexivity.
  - reflexivity.
  - reflexivity.
  - exists w1, w2. split; [exact Hrun|]. split; [exact Hdrain|]. exact Hcn.
Defined.

Lemma bounded_witness :
  ∃ c, clients (after json_Unmarshal json_Marshal range
                  [call_handleWebSocket true [text (join "A" "lobby")]] initial) !! 0
       = Some c
    ∧ Chan.cap (Client.Send c) = 256
    ∧ length (Chan.buf (Client.Send c)) ≤ 256.
Proof.
  eexists. split; [vm_compute; reflexivity|].
  eapply (queues_stay_bounded json_Unmarshal json_Marshal range
            [call_handleWebSocket true [text (join "A" "lobby")]] 0).
  vm_compute. reflexivity.
Defined.

Lemma after_Close_witness :
  conns (after json_Unmarshal json_Marshal range
           [call_dispatch 1 (text (offer "A")); call_writeMessages 0]
           (final (handleWebSocket_admit 0 2 lobby_AB_rejoin))) !! 0
  = Some (Conn.mk true []).
Proof.
  edestruct (nothing_is_written_after_Close json_Unmarshal json_Marshal range
               [call_dispatch 1 (text (offer "A")); call_writeMessages 0]
               (final (handleWebSocket_admit 0 2 lobby_AB_rejoin)) 0)
    as (cn' & Hcn' & _ & Hsame); [vm_compute; reflexivity|].
  rewrite Hcn'. f_equal. by apply Hsame.
Defined.

(** The calls that take the server from its start to A and B in the
    lobby. *)
Definition A_then_B : list call :=
  [call_handleWebSocket true [text (join "A" "lobby")];
   call_handleWebSocket true [text (join "B" "lobby")]].

Lemma member_witness :
  Client.Name <$> clients (after json_Unmarshal json_Marshal range A_then_B initial) !! 1
  = Some "B"
  ∧ ∀ r' rm' name',
      rooms (after json_Unmarshal json_Marshal range A_then_B initial) !! r' = Some rm' →
      Room.Clients rm' !! name' = Some 1 →
      r' = 0 ∧ name' = "B".
Proof.
  edestruct (member_of_one_room json_Unmarshal json_Marshal range A_then_B
               0 (Room.mk "lobby" {["A" := 0; "B" := 1]} false) "B" 1)
    as ((c & Hc & Hname & _) & _ & Hone).
  - vm_compute. reflexivity.
  - reflexivity.
  - split; [|exact Hone]. by rewrite Hc, <- Hname.
Defined.

Lemma join_waits_witness :
  handleWebSocket json_Unmarshal json_Marshal range true [text (join "B" "lobby")]
    lobby_B_gone
  = Blocked
      (mkWorld (server lobby_B_gone) (rooms lobby_B_gone)
         (clients lobby_B_gone ++ [Client.mk "B" 2 (Chan.make 256) (Some 0)])
         (conns lobby_B_gone ++ [Conn.mk false []])).
Proof.
  apply (join_waits_for_held_room json_Unmarshal json_Marshal range lobby_B_gone 0
           (Room.mk "lobby" {["A" := 0]} true) [] (text (join "B" "lobby")) []
           "B" "lobby").
  - reflexivity.
  - reflexivity.
  - vm_compute. reflexivity.
  - reflexivity.
  - intros m n r Hin. by apply elem_of_nil in Hin.
  - eexists. split; [vm_compute; reflexivity|].
    repeat split; try (vm_compute; reflexivity); discriminate.
Defined.

Lemma forward_waits_witness :
  readMessages json_Unmarshal json_Marshal range 0 [text (offer "B"); text leave]
    lobby_B_gone
  = Blocked lobby_B_gone.
Proof.
  eapply (forward_waits_for_held_room json_Unmarshal json_Marshal range
            lobby_B_gone 0).
  - reflexivity.
  - reflexivity.
  - reflexivity.
  - reflexivity.
  - vm_compute. reflexivity.
  - reflexivity.
  - vm_compute. reflexivity.
  - left. vm_compute. reflexivity.
  - vm_compute. discriminate.
Defined.

Lemma same_room_witness :
  ∃ r1 w1 r2 w2,
    GetOrCreateRoom "lobby" lobby_A = Done r1 w1
    ∧ GetOrCreateRoom "kitchen" w1 = Done r2 w2
    ∧ r1 ≠ r2.
Proof.
  destruct (GetOrCreateRoom_same_room_iff_same_name lobby_A "lobby" "kitchen")
    as (r1 & w1 & r2 & w2 & H1 & H2 & Hiff & _);
    [vm_compute; reflexivity|reflexivity|].
  exists r1, w1, r2, w2. split; [exact H1|]. split; [exact H2|].
  intros Heq. apply Hiff in Heq. discriminate.
Defined.

Lemma joined_reached_witness :
  ∃ userList w1 w2,
    run_handleWebSocket [text (join "B" "lobby")] lobby_A = Done (Some (1, [])) w1
    ∧ readMessages_dispatch json_Unmarshal 0 (text (offer "B")) w1 = Done true w2
    ∧ Chan.buf ∘ Client.Send <$> clients w2 !! 1
      = Some [userListJSON userList; text (offer "B")].
Proof.
  edestruct (joined_client_is_reached json_Unmarshal json_Marshal range range_perm
               lobby_A [] (text (join "B" "lobby")) [] "B" "lobby" "A" 0
               (text (offer "B")))
    as (userList & w1 & w2 & Hjoin & Hfwd & Hq & _).
  - vm_compute. reflexivity.
  - reflexivity.
  - reflexivity.
  - intros m n r Hin. by apply elem_of_nil in Hin.
  - eexists. split; [vm_compute; reflexivity|].
    repeat split; try (vm_compute; reflexivity); discriminate.
  - vm_compute. reflexivity.
  - discriminate.
  - vm_compute. reflexivity.
  - left. vm_compute. reflexivity.
  - vm_compute. reflexivity.
  - exists userList, w1, w2. split; [exact Hjoin|]. split; [exact Hfwd|]. exact Hq.
Defined.

(** *** The servers with the strict join *)

(** A and B in the lobby of the server of [src/main.go]. *)
Definition older_lobby_AB : World :=
  final (Unbuffered.handleWebSocket (λ _, Some ("join", "B", "lobby")) true ["join B"]
           (final (Unbuffered.handleWebSocket (λ _, Some ("join", "A", "lobby")) true
                     ["join A"] initial))).

Lemma strict_join_witness :
  ∃ w',
    Strict.handleWebSocket (λ _, Some ("join", "", "")) json_Marshal range true ["{}"]
      initial
    = Done (Some (0, [])) w'
    ∧ rooms w' !! 0 = Some (Room.mk "" {["" := 0]} false)
    ∧ Chan.buf ∘ Client.Send <$> clients w' !! 0
      = Some [json_Marshal
                {[ "type" := JString "user-list"; "users" := JNull ]}].
Proof.
  edestruct (Strict.join_admits_any_name (λ _, Some ("join", "", "")) json_Marshal
               range range_perm initial "{}" [] "" "")
    as (w' & Hrun & _ & _ & Hr & _ & Hc & _).
  - apply regular_initial.
  - reflexivity.
  - intros r rm Hr. discriminate.
  - reflexivity.
  - exists w'. split; [exact Hrun|]. split; [exact Hr|].
    change (length (clients initial)) with 0 in Hc. rewrite Hc.
    vm_compute. reflexivity.
Defined.


Lemma strict_first_message_witness :
  Strict.handleWebSocket (λ _, Some ("offer", "A", "lobby")) json_Marshal range true
    ["offer"; "join"] initial
  = Done None (set_conns (λ l, l ++ [Conn.mk true []]) initial).
Proof.
  apply (Strict.first_message_must_be_join (λ _, Some ("offer", "A", "lobby"))
           json_Marshal range initial ["offer"; "join"]).
  simpl. discriminate.
Defined.

Lemma busy_writer_witness :
  ∃ w',
    Unbuffered.Broadcast range (λ l, bool_decide (l = 0)) 0 "hi" "" older_lobby_AB
    = Blocked w'
    ∧ Room.Mutex <$> rooms w' !! 0 = Some true.
Proof.
  edestruct (unbuffered_Broadcast_waits_for_a_busy_writer range
               (λ l, bool_decide (l = 0)) older_lobby_AB 0
               (Room.mk "lobby" {["A" := 0; "B" := 1]} false) "B" 1 "hi" "")
    as (w' & Hrun & Hr & _).
  - reflexivity.
  - reflexivity.
  - intros name l Hin. apply elem_of_map_to_list in Hin. simpl in Hin.
    apply lookup_insert_Some in Hin as [[<- <-]|[_ Hin]].
    + eexists. split; [reflexivity|]. vm_compute. lia.
    + apply lookup_singleton_Some in Hin as [<- <-].
      eexists. split; [reflexivity|]. vm_compute. lia.
  - apply elem_of_map_to_list. reflexivity.
  - discriminate.
  - reflexivity.
  - exists w'. split; [exact Hrun|]. by rewrite Hr.
Defined.

Lemma unbuffered_cleanup_witness :
  Unbuffered.readMessages_deferred 1 older_lobby_AB
  = Done ()
      (mkWorld (Server.mk {["lobby" := 0]} false)
         [Room.mk "lobby" {["A" := 0]} false]
         (clients older_lobby_AB)
         [Conn.mk false []; Conn.mk true []]).
Proof.
  erewrite (unbuffered_cleanup_returns older_lobby_AB 1); [|reflexivity..].
  vm_compute. reflexivity.
Defined.

Lemma unbuffered_join_witness :
  ∃ w',
    Unbuffered.handleWebSocket (λ _, Some ("join", "A", "lobby")) true ["join A"]
      older_lobby_AB
    = Done (Some (2, [])) w'
    ∧ rooms w' !! 0 = Some (Room.mk "lobby" {["A" := 2; "B" := 1]} false)
    ∧ conns w' = [Conn.mk false []; Conn.mk false []; Conn.mk false []].
Proof.
  edestruct (unbuffered_join_enters_silently (λ _, Some ("join", "A", "lobby"))
               older_lobby_AB "join A" [] "A" "lobby")
    as (w' & Hrun & _ & _ & Hr & _ & Hcn).
  - apply WF_regular, well_formed_WF. vm_compute. reflexivity.
  - reflexivity.
  - apply room_unlocked_free. reflexivity.
  - reflexivity.
  - exists w'. split; [exact Hrun|]. split; [|exact Hcn].
    change (room_of older_lobby_AB "lobby") with 0 in Hr. rewrite Hr.
    vm_compute. reflexivity.
Defined.

End Cases.
